(** * OpenWebRX: the csdr chain controller and the WSJT chopper and parser

  A shallow embedding of [csdr.py] (class [dsp]), [owrx/wsjt.py]
  (classes [WsjtChopper] and [WsjtParser]) and [owrx/websocket.py]
  (class [WebSocketConnection]), followed by the properties of the
  receiver's specification that are decided by that code and by further
  properties of the code.

  Conventions of the embedding.
  - Python numbers that the code divides with [/] are rationals ([Q]).
    In module [Dsp] every quotient is exact: the binary rounding of
    Python's floats is left out there.  Modules [DspFloat] and [Chopper]
    round each float operation with [Float64.round53], as the code
    does.
  - A Python [str] is the list of its code points, a [bytes] object is a
    list of [byte].
  - A method of a mutable object takes the object and returns the new
    object; a method that can raise returns the exception in place of
    the object.
  - The modification lock of [dsp] is not modelled: every method runs
    to its end before the next one starts. *)

From Stdlib Require Import ZArith QArith Qround Qabs Qpower.
From Stdlib Require Import List String Ascii Bool Lia Lqa.
From Stdlib Require Import Permutation.
From Stdlib.Strings Require Import Byte.
Import ListNotations.

Local Open Scope Z_scope.

(** ** The Python fragments shared by both modules *)

Module Py.

Local Open Scope string_scope.

(** [x in l] for a list of strings, where [x] may be [None]. *)
Definition str_in (x : option string) (l : list string) : bool :=
  match x with
  | None => false
  | Some s => existsb (String.eqb s) l
  end.

(** Truth value of an optional string: [None] and the empty string are
    false. *)
Definition truthy (x : option string) : bool :=
  match x with
  | None => false
  | Some s => negb (String.eqb s "")
  end.

(** [a != b] on numbers. *)
Definition Qneq_bool (a b : Q) : bool := negb (Qeq_bool a b).

(** [int(x)] for a number: truncation towards zero. *)
Definition int_of_Q (x : Q) : Z := Z.quot (Qnum x) (Z.pos (Qden x)).

End Py.

(** ** Python floats: rounding to binary64 *)

Module Float64.

Local Open Scope Q_scope.

(** The nearest whole number, ties to the even one. *)
Definition nearest_even (x : Q) : Z :=
  let f := Qfloor x in
  let r := x - inject_Z f in
  match Qcompare r (1 # 2) with
  | Lt => f
  | Gt => (f + 1)%Z
  | Eq => if Z.even f then f else (f + 1)%Z
  end.

Definition pow2 (e : Z) : Q := 2 ^ e.

(** For [x > 0], the [e] with [2^e <= x < 2^(e+1)]. *)
Definition ilog2 (x : Q) : Z :=
  let e := (Z.log2 (Qnum x) - Z.log2 (Z.pos (Qden x)))%Z in
  if Qle_bool (pow2 e) x then e else (e - 1)%Z.

(** The exponent of the unit in the last place of the float nearest to
    [a > 0]: 53 binary digits, and no exponent below that of the
    subnormal numbers. *)
Definition ulp_exponent (a : Q) : Z := Z.max (ilog2 a - 52) (-1074).

(** The value of the float nearest to [x], ties to the even mantissa,
    before the test for overflow.  The sign of a zero is not kept. *)
Definition round53 (x : Q) : Q :=
  if Qeq_bool x 0 then 0
  else
    let a := Qabs x in
    let e := ulp_exponent a in
    let m := nearest_even (a / pow2 e) in
    (if Qle_bool 0 x then inject_Z m else inject_Z (- m)) * pow2 e.

(** A rounded value beyond the largest float. *)
Definition overflows (x : Q) : bool := Qle_bool (pow2 1024) (Qabs x).

End Float64.


(** ** csdr.py: class dsp *)

Module Dsp.

Import Py.
Local Open Scope string_scope.
Local Open Scope list_scope.

Inductive exn := AttributeError | ZeroDivisionError.

(** The outcome of a method: it returns, it raises, or the model ran
    out of the fuel that bounds the loop of [get_decimation]. *)
Inductive result (A : Type) :=
| Ok (a : A)
| Raise (e : exn)
| OutOfFuel.
Arguments Ok {A} a.
Arguments Raise {A} e.
Arguments OutOfFuel {A}.

Definition bind {A B : Type} (m : result A) (k : A -> result B) : result B :=
  match m with
  | Ok a => k a
  | Raise e => Raise e
  | OutOfFuel => OutOfFuel
  end.

Notation "x <- m ;; k" := (bind m (fun x => k))
  (at level 61, m at next level, right associativity).

(** What the methods write to a control channel: the line
    ["%g\n" % x]. *)
Inductive line := PercentG (x : Q).

(** What [start] and [stop] do to the process group of the primary
    chain.  [Popen] carries the stage templates of the command, before
    they are joined with [" | "] and their placeholders are filled. *)
Inductive proc_event :=
| Popen (command : list string)
| Killpg.

(** The attributes of a [dsp] object that the modelled methods read or
    write.  [decimation] and [last_decimation] are not set by
    [__init__]: they exist once [calculate_decimation] has run.
    [squelch_pipe_file] exists once [start] has opened the channel; its
    value is the list of lines written to it, oldest first.  [processes]
    is the history of the process group, oldest first. *)
Record dsp := mk_dsp {
  samp_rate : Q;
  output_rate : Q;
  fft_size : Z;
  fft_fps : Z;
  offset_freq : Q;
  low_cut : Q;
  high_cut : Q;
  running : bool;
  audio_compression : string;
  fft_compression : string;
  demodulator : string;
  csdr_dynamic_bufsize : bool;
  csdr_through : bool;
  squelch_level : Q;
  fft_averages : Z;
  secondary_demodulator : option string;
  unvoiced_quality : Z;
  decimation : option Z;
  last_decimation : option Q;
  squelch_pipe_file : option (list line);
  processes : list proc_event
}.

(** Assignments to single attributes. *)
Definition with_running (v : bool) (s : dsp) : dsp :=
  mk_dsp (samp_rate s) (output_rate s) (fft_size s) (fft_fps s)
    (offset_freq s) (low_cut s) (high_cut s) v (audio_compression s)
    (fft_compression s) (demodulator s) (csdr_dynamic_bufsize s)
    (csdr_through s) (squelch_level s) (fft_averages s)
    (secondary_demodulator s) (unvoiced_quality s) (decimation s)
    (last_decimation s) (squelch_pipe_file s) (processes s).

Definition with_demodulator (v : string) (s : dsp) : dsp :=
  mk_dsp (samp_rate s) (output_rate s) (fft_size s) (fft_fps s)
    (offset_freq s) (low_cut s) (high_cut s) (running s)
    (audio_compression s) (fft_compression s) v (csdr_dynamic_bufsize s)
    (csdr_through s) (squelch_level s) (fft_averages s)
    (secondary_demodulator s) (unvoiced_quality s) (decimation s)
    (last_decimation s) (squelch_pipe_file s) (processes s).

Definition with_squelch_level (v : Q) (s : dsp) : dsp :=
  mk_dsp (samp_rate s) (output_rate s) (fft_size s) (fft_fps s)
    (offset_freq s) (low_cut s) (high_cut s) (running s)
    (audio_compression s) (fft_compression s) (demodulator s)
    (csdr_dynamic_bufsize s) (csdr_through s) v (fft_averages s)
    (secondary_demodulator s) (unvoiced_quality s) (decimation s)
    (last_decimation s) (squelch_pipe_file s) (processes s).

Definition with_secondary_demodulator (v : option string) (s : dsp) : dsp :=
  mk_dsp (samp_rate s) (output_rate s) (fft_size s) (fft_fps s)
    (offset_freq s) (low_cut s) (high_cut s) (running s)
    (audio_compression s) (fft_compression s) (demodulator s)
    (csdr_dynamic_bufsize s) (csdr_through s) (squelch_level s)
    (fft_averages s) v (unvoiced_quality s) (decimation s)
    (last_decimation s) (squelch_pipe_file s) (processes s).

Definition with_decimation (d : Z) (f : Q) (s : dsp) : dsp :=
  mk_dsp (samp_rate s) (output_rate s) (fft_size s) (fft_fps s)
    (offset_freq s) (low_cut s) (high_cut s) (running s)
    (audio_compression s) (fft_compression s) (demodulator s)
    (csdr_dynamic_bufsize s) (csdr_through s) (squelch_level s)
    (fft_averages s) (secondary_demodulator s) (unvoiced_quality s)
    (Some d) (Some f) (squelch_pipe_file s) (processes s).

Definition with_squelch_pipe_file (v : option (list line)) (s : dsp) : dsp :=
  mk_dsp (samp_rate s) (output_rate s) (fft_size s) (fft_fps s)
    (offset_freq s) (low_cut s) (high_cut s) (running s)
    (audio_compression s) (fft_compression s) (demodulator s)
    (csdr_dynamic_bufsize s) (csdr_through s) (squelch_level s)
    (fft_averages s) (secondary_demodulator s) (unvoiced_quality s)
    (decimation s) (last_decimation s) v (processes s).

Definition with_processes (v : list proc_event) (s : dsp) : dsp :=
  mk_dsp (samp_rate s) (output_rate s) (fft_size s) (fft_fps s)
    (offset_freq s) (low_cut s) (high_cut s) (running s)
    (audio_compression s) (fft_compression s) (demodulator s)
    (csdr_dynamic_bufsize s) (csdr_through s) (squelch_level s)
    (fft_averages s) (secondary_demodulator s) (unvoiced_quality s)
    (decimation s) (last_decimation s) (squelch_pipe_file s) v.

(** [dsp.__init__] *)
Definition init : dsp := {|
  samp_rate := 250000;
  output_rate := 11025;
  fft_size := 1024;
  fft_fps := 5;
  offset_freq := 0;
  low_cut := -4000;
  high_cut := 4000;
  running := false;
  audio_compression := "none";
  fft_compression := "none";
  demodulator := "nfm";
  csdr_dynamic_bufsize := false;
  csdr_through := false;
  squelch_level := 0;
  fft_averages := 50;
  secondary_demodulator := None;
  unvoiced_quality := 1;
  decimation := None;
  last_decimation := None;
  squelch_pipe_file := None;
  processes := []
|}.

Definition get_demodulator (self : dsp) : string := demodulator self.

Definition get_secondary_demodulator (self : dsp) : option string :=
  secondary_demodulator self.

Definition get_output_rate (self : dsp) : Q := output_rate self.

(** [isDigitalVoice(demodulator = None)] *)
Definition isDigitalVoice (self : dsp) (demodulator : option string) : bool :=
  let demodulator :=
    match demodulator with
    | None => Some (get_demodulator self)
    | Some d => Some d
    end in
  str_in demodulator ["dmr"; "dstar"; "nxdn"; "ysf"].

(** [isWsjtMode(demodulator = None)] *)
Definition isWsjtMode (self : dsp) (demodulator : option string) : bool :=
  let demodulator :=
    match demodulator with
    | None => get_secondary_demodulator self
    | Some d => Some d
    end in
  str_in demodulator ["ft8"; "wspr"; "jt65"; "jt9"; "ft4"].

(** [get_audio_rate] *)
Definition get_audio_rate (self : dsp) : Q :=
  if isDigitalVoice self None then 48000
  else if isWsjtMode self None then 12000
  else get_output_rate self.

(** The [while] loop of [get_decimation].  Each unit of fuel pays for one
    evaluation of the loop condition; [None] means that the fuel ran out
    before the condition became false.  The divisor [decimation + 1] is
    at least 2 on every path from [decimation = 1]. *)
Fixpoint get_decimation_loop (fuel : nat) (input_rate output_rate : Q)
    (decimation : Z) : option Z :=
  match fuel with
  | O => None
  | S fuel' =>
      if Qle_bool output_rate (input_rate / inject_Z (decimation + 1))
      then get_decimation_loop fuel' input_rate output_rate (decimation + 1)
      else Some decimation
  end.

(** [get_decimation] on exact rationals: the triple (decimation,
    fraction, intermediate_rate), every quotient exact.  The source
    divides floats; [DspFloat.get_decimation] below has the roundings,
    and the two take the same decimation for whole rates below [2^53]
    ([DspFloatFacts.loop_agrees]). *)
Definition get_decimation (fuel : nat) (input_rate output_rate : Q)
    : result (Z * Q * Q) :=
  match get_decimation_loop fuel input_rate output_rate 1 with
  | None => OutOfFuel
  | Some decimation =>
      if Qeq_bool output_rate 0 then Raise ZeroDivisionError
      else
        let fraction := ((input_rate / inject_Z decimation) / output_rate)%Q in
        let intermediate_rate := (input_rate / inject_Z decimation)%Q in
        Ok (decimation, fraction, intermediate_rate)
  end.

(** [calculate_decimation] *)
Definition calculate_decimation (fuel : nat) (self : dsp) : result dsp :=
  r <- get_decimation fuel (samp_rate self) (get_audio_rate self) ;;
  let '(d, f, _) := r in
  Ok (with_decimation d f self).

(** [a in b] for strings: [a] occurs in [b] as a substring. *)
Fixpoint contains (a b : string) : bool :=
  if prefix a b then true
  else match b with
       | EmptyString => false
       | String _ b' => contains a b'
       end.

(** [chain(which)].  Every [chain += stages] of the source appends
    [stages] here, and a conditional [chain += stages] appends the empty
    list when its condition fails.  The value of [max_gain] is already
    filled into the gain stage, as the source does with [format]. *)
Definition chain (self : dsp) (which : string) : result (list string) :=
  let chain := ["nc -v 127.0.0.1 {nc_port}"] in
  let chain :=
    chain ++ (if csdr_dynamic_bufsize self
              then ["csdr setbuf {start_bufsize}"] else []) in
  let chain :=
    chain ++ (if csdr_through self then ["csdr through"] else []) in
  if which =? "fft" then
    let chain := chain ++ [
      "csdr fft_cc {fft_size} {fft_block_size}";
      (if (fft_averages self =? 0)%Z then "csdr logpower_cf -70"
       else "csdr logaveragepower_cf -70 {fft_size} {fft_averages}");
      "csdr fft_exchange_sides_ff {fft_size}" ] in
    let chain :=
      chain ++ (if fft_compression self =? "adpcm"
                then ["csdr compress_fft_adpcm_f_u8 {fft_size}"] else []) in
    Ok chain
  else
  let chain := chain ++ [
    "csdr shift_addition_cc --fifo {shift_pipe}";
    "csdr fir_decimate_cc {decimation} {ddc_transition_bw} HAMMING";
    "csdr bandpass_fir_fft_cc --fifo {bpf_pipe} {bpf_transition_bw} HAMMING";
    "csdr squelch_and_smeter_cc --fifo {squelch_pipe} --outfifo {smeter_pipe} 5 {smeter_report_every}" ] in
  let chain :=
    chain ++ (if truthy (secondary_demodulator self)
              then ["csdr tee {iqtee_pipe}"; "csdr tee {iqtee2_pipe}"]
              else []) in
  match last_decimation self with
  | None => Raise AttributeError
  | Some ld =>
  let last_decimation_block :=
    if Qneq_bool ld 1 then ["csdr fractional_decimator_ff {last_decimation}"]
    else [] in
  let chain :=
    chain ++
    (if which =? "nfm" then
       ["csdr fmdemod_quadri_cf"; "csdr limit_ff"]
       ++ last_decimation_block
       ++ ["csdr deemphasis_nfm_ff {output_rate}"; "csdr convert_f_s16"]
     else if isDigitalVoice self (Some which) then
       let '(decoder, max_gain) :=
         if str_in (Some which) ["dstar"; "nxdn"] then
           (["csdr limit_ff"; "csdr convert_f_s16"]
            ++ (if which =? "dstar"
                then ["dsd -fd -i - -o - -u {unvoiced_quality} -g -1 "]
                else if which =? "nxdn"
                then ["dsd -fi -i - -o - -u {unvoiced_quality} -g -1 "]
                else [])
            ++ ["CSDR_FIXED_BUFSIZE=32 csdr convert_s16_f"],
            "5")
         else
           (["rrc_filter"; "gfsk_demodulator"]
            ++ (if which =? "dmr"
                then [
                  "dmr_decoder --fifo {meta_pipe} --control-fifo {dmr_control_pipe}";
                  "mbe_synthesizer -f -u {unvoiced_quality}" ]
                else if which =? "ysf"
                then [
                  "ysf_decoder --fifo {meta_pipe}";
                  "mbe_synthesizer -y -f -u {unvoiced_quality}" ]
                else []),
            "0.0005") in
       ["csdr fmdemod_quadri_cf"; "dc_block "]
       ++ last_decimation_block
       ++ decoder
       ++ [ "digitalvoice_filter -f";
            String.append
              "CSDR_FIXED_BUFSIZE=32 csdr agc_ff 160000 0.8 1 0.0000001 "
              max_gain;
            "sox -t raw -r 8000 -e floating-point -b 32 -c 1 --buffer 32 - -t raw -r {output_rate} -e signed-integer -b 16 -c 1 - " ]
     else if which =? "am" then
       ["csdr amdemod_cf"; "csdr fastdcblock_ff"]
       ++ last_decimation_block
       ++ ["csdr agc_ff"; "csdr limit_ff"; "csdr convert_f_s16"]
     else if which =? "ssb" then
       ["csdr realpart_cf"]
       ++ last_decimation_block
       ++ ["csdr agc_ff"; "csdr limit_ff"]
       ++ (if isWsjtMode self None
              && Qneq_bool (get_audio_rate self) (get_output_rate self)
           then [
             "sox -t raw -r {audio_rate} -e floating-point -b 32 -c 1 --buffer 32 - -t raw -r {output_rate} -e signed-integer -b 16 -c 1 - " ]
           else ["csdr convert_f_s16"])
     else []) in
  let chain :=
    chain ++ (if audio_compression self =? "adpcm"
              then ["csdr encode_ima_adpcm_i16_u8"] else []) in
  Ok chain
  end.

(** The stage that [chain] inserts for the fractional decimation, and
    the test that a list of stages has a given stage. *)
Definition fractional_stage : string :=
  "csdr fractional_decimator_ff {last_decimation}".

Definition has_stage (stage : string) (stages : list string) : bool :=
  existsb (String.eqb stage) stages.

(** [set_squelch_level] *)
Definition set_squelch_level (squelch_level' : Q) (self : dsp) : result dsp :=
  let self := with_squelch_level squelch_level' self in
  let actual_squelch :=
    if isDigitalVoice self None then 0%Q else squelch_level self in
  if running self then
    match squelch_pipe_file self with
    | None => Raise AttributeError
    | Some written =>
        Ok (with_squelch_pipe_file (Some (written ++ [PercentG actual_squelch])) self)
    end
  else Ok self.

(** [start], as far as the primary chain and the squelch channel go: the
    command is built from [chain(self.demodulator)], the squelch channel
    is created and opened when the command names it, and the stored
    squelch level is pushed through it.  The other channels and the
    secondary processes are not modelled. *)
Definition start (self : dsp) : result dsp :=
  if running self then Ok self
  else
    let self := with_running true self in
    stages <- chain self (demodulator self) ;;
    let command_base := String.concat " | " stages in
    let squelch_pipe := contains "{squelch_pipe}" command_base in
    let self := with_processes (processes self ++ [Popen stages]) self in
    if squelch_pipe then
      let self := with_squelch_pipe_file (Some []) self in
      set_squelch_level (squelch_level self) self
    else Ok self.

(** [stop]: [self.process] exists once [start] has spawned a chain. *)
Definition stop (self : dsp) : dsp :=
  let self := with_running false self in
  match processes self with
  | [] => self
  | _ :: _ => with_processes (processes self ++ [Killpg]) self
  end.

(** [restart] *)
Definition restart (self : dsp) : result dsp :=
  if negb (running self) then Ok self
  else start (stop self).

(** [set_demodulator] *)
Definition set_demodulator (fuel : nat) (demodulator' : string) (self : dsp)
    : result dsp :=
  if demodulator self =? demodulator' then Ok self
  else
    let self := with_demodulator demodulator' self in
    self <- calculate_decimation fuel self ;;
    restart self.

(** [a == b] for two values that are a string or [None]. *)
Definition opt_str_eqb (a b : option string) : bool :=
  match a, b with
  | None, None => true
  | Some x, Some y => x =? y
  | _, _ => false
  end.

(** [set_secondary_demodulator] *)
Definition set_secondary_demodulator (fuel : nat) (what : option string)
    (self : dsp) : result dsp :=
  if opt_str_eqb (get_secondary_demodulator self) what then Ok self
  else
    let self := with_secondary_demodulator what self in
    self <- calculate_decimation fuel self ;;
    restart self.

End Dsp.

(** ** csdr.py: [get_decimation] on Python's numbers *)

Module DspFloat.

Import Float64.
Local Open Scope Q_scope.

Inductive exn := ZeroDivisionError | OverflowError.

Inductive result (A : Type) :=
| Ok (a : A)
| Raise (e : exn)
| OutOfFuel.
Arguments Ok {A} a.
Arguments Raise {A} e.
Arguments OutOfFuel {A}.

Definition bind {A B : Type} (m : result A) (k : A -> result B) : result B :=
  match m with
  | Ok a => k a
  | Raise e => Raise e
  | OutOfFuel => OutOfFuel
  end.

Notation "x <- m ;; k" := (bind m (fun x => k))
  (at level 61, m at next level, right associativity).

(** A Python [float]: a binary64 value, an infinity or a NaN. *)
Inductive float :=
| Finite (x : Q)
| Infinite (negative : bool)
| NaN.

(** A Python number: an [int] or a [float]. *)
Inductive pynumber :=
| PyInt (z : Z)
| PyFloat (f : float).

Definition negative (x : Q) : bool := negb (Qle_bool 0 x).

(** The conversion of an operand to [float]: an [int] is rounded, and
    raises [OverflowError] when it is too large. *)
Definition to_float (a : pynumber) : result float :=
  match a with
  | PyFloat f => Ok f
  | PyInt z =>
      let r := round53 (inject_Z z) in
      if overflows r then Raise OverflowError else Ok (Finite r)
  end.

(** [x / y] for two floats: a zero divisor raises, a quotient beyond the
    range is an infinity. *)
Definition float_div (x y : float) : result float :=
  match y with
  | Finite b =>
      if Qeq_bool b 0 then Raise ZeroDivisionError
      else
        match x with
        | Finite a =>
            let r := round53 (a / b) in
            Ok (if overflows r then Infinite (negative r) else Finite r)
        | Infinite s => Ok (Infinite (xorb s (negative b)))
        | NaN => Ok NaN
        end
  | Infinite _ =>
      match x with
      | Finite _ => Ok (Finite 0)
      | _ => Ok NaN
      end
  | NaN => Ok NaN
  end.

(** [a / b]: the quotient of two [int]s is the exact quotient rounded
    once, and raises [OverflowError] beyond the range; in every other
    case both operands are converted to [float] first. *)
Definition truediv (a b : pynumber) : result float :=
  match a, b with
  | PyInt x, PyInt y =>
      if (y =? 0)%Z then Raise ZeroDivisionError
      else
        let r := round53 (inject_Z x / inject_Z y) in
        if overflows r then Raise OverflowError else Ok (Finite r)
  | _, _ =>
      x <- to_float a ;;
      y <- to_float b ;;
      float_div x y
  end.

(** [q >= b] for a float [q]: the comparison with an [int] is exact. *)
Definition ge (q : float) (b : pynumber) : bool :=
  match q, b with
  | NaN, _ => false
  | _, PyFloat NaN => false
  | Finite x, PyInt z => Qle_bool (inject_Z z) x
  | Finite x, PyFloat (Finite y) => Qle_bool y x
  | Finite _, PyFloat (Infinite s) => s
  | Infinite s, PyInt _ => negb s
  | Infinite s, PyFloat (Finite _) => negb s
  | Infinite s, PyFloat (Infinite s') => negb s || s'
  end.

(** The [while] loop of [get_decimation] on floats. *)
Fixpoint get_decimation_loop (fuel : nat)
    (input_rate output_rate : pynumber) (decimation : Z) : result Z :=
  match fuel with
  | O => OutOfFuel
  | S fuel' =>
      q <- truediv input_rate (PyInt (decimation + 1)) ;;
      if ge q output_rate
      then get_decimation_loop fuel' input_rate output_rate (decimation + 1)
      else Ok decimation
  end.

(** [get_decimation] on floats. *)
Definition get_decimation (fuel : nat) (input_rate output_rate : pynumber)
    : result (Z * float * float) :=
  decimation <- get_decimation_loop fuel input_rate output_rate 1 ;;
  q <- truediv input_rate (PyInt decimation) ;;
  fraction <- truediv (PyFloat q) output_rate ;;
  intermediate_rate <- truediv input_rate (PyInt decimation) ;;
  Ok (decimation, fraction, intermediate_rate).

End DspFloat.


(** ** owrx/wsjt.py: class WsjtChopper and its subclasses *)

Module Chopper.

Local Open Scope string_scope.
Local Open Scope list_scope.

(** A naive [datetime] is its count of microseconds on the proleptic
    calendar, from 1970-01-01 00:00:00; a [timedelta] is a count of
    microseconds.  The bounds of the calendar (the years 1 and 9999) are
    not modelled. *)
Definition datetime := Z.
Definition timedelta := Z.

(** The time zone of the process: the offset of local time from UTC, in
    seconds, at each second of the epoch. *)
Definition timezone := Z -> Z.

(** [time.localtime(u)], as seconds on the calendar. *)
Definition local (tz : timezone) (u : Z) : Z := u + tz u.

(** [datetime.now()] when the clock reads [now] microseconds since the
    epoch: the local time of the second, with the microseconds. *)
Definition datetime_now (tz : timezone) (now : Z) : datetime :=
  local tz (now / 1000000) * 1000000 + now mod 1000000.

(** [t.replace(minute=0, second=0, microsecond=0)] *)
Definition replace_to_hour (t : datetime) : datetime :=
  t - t mod 3600000000.

(** [delta.total_seconds()]: the quotient of two [int]s, a float. *)
Definition total_seconds (delta : timedelta) : Q :=
  Float64.round53 (inject_Z delta / 1000000).

(** Rounding to the nearest integer, ties to the even one. *)
Definition round_half_even (x : Q) : Z :=
  let f := Qfloor x in
  let r := (x - inject_Z f)%Q in
  match (r ?= 1 # 2)%Q with
  | Lt => f
  | Gt => f + 1
  | Eq => if Z.even f then f else f + 1
  end.

(** [timedelta(seconds = s)]: the whole seconds are taken as they are,
    the fraction is multiplied by the float [1e6] and rounded to a whole
    number of microseconds. *)
Definition timedelta_of_seconds (s : Q) : timedelta :=
  let whole := Py.int_of_Q s in
  let secondsfrac := (s - inject_Z whole)%Q in
  whole * 1000000 + round_half_even (Float64.round53 (secondsfrac * 1000000)).

(** [_mktime] of a naive [datetime] with [fold = 0], on its whole
    seconds [t]: the search for the second [u] of the epoch whose local
    time is [t]. *)
Definition _mktime (tz : timezone) (t : Z) : Z :=
  let a := local tz t - t in
  let u1 := t - a in
  let t1 := local tz u1 in
  let b :=
    if Z.eqb t1 t then local tz (u1 - 24 * 3600) - (u1 - 24 * 3600)
    else t1 - u1 in
  if Z.eqb t1 t && Z.eqb a b then u1
  else
    let u2 := t - b in
    let t2 := local tz u2 in
    if Z.eqb t2 t then u2
    else if Z.eqb t1 t then u1
    else Z.max u1 u2.

(** [t.timestamp()] of a naive [datetime]: the seconds of [_mktime], as
    a float, plus the microseconds divided by the float [1e6]. *)
Definition timestamp (tz : timezone) (t : datetime) : Q :=
  Float64.round53
    (Float64.round53 (inject_Z (_mktime tz (t / 1000000)))
     + Float64.round53 (inject_Z (t mod 1000000) / 1000000))%Q.

(** The five choppers differ in their interval, the format of the time
    stamp in the file name and the decoder they call. *)
Inductive chopper_class :=
| Ft8Chopper | WsprChopper | Jt65Chopper | Jt9Chopper | Ft4Chopper.

Definition class_interval (c : chopper_class) : Q :=
  match c with
  | Ft8Chopper => 15
  | WsprChopper => 120
  | Jt65Chopper => 60
  | Jt9Chopper => 60
  | Ft4Chopper => 75 # 10
  end.

Definition fileTimestampFormat (c : chopper_class) : string :=
  match c with
  | Ft8Chopper | Ft4Chopper => "%y%m%d_%H%M%S"
  | WsprChopper | Jt65Chopper | Jt9Chopper => "%y%m%d_%H%M"
  end.

Definition decoder_commandline (c : chopper_class) (file : string)
    : list string :=
  match c with
  | Ft8Chopper => ["jt9"; "--ft8"; "-d"; "3"; file]
  | WsprChopper => ["wsprd"; "-d"; file]
  | Jt65Chopper => ["jt9"; "--jt65"; "-d"; "3"; file]
  | Jt9Chopper => ["jt9"; "--jt9"; "-d"; "3"; file]
  | Ft4Chopper => ["jt9"; "--ft4"; "-d"; "3"; file]
  end.

(** [getNextDecodingTime], with the time zone of the process and the
    reading [now] of the clock, in microseconds since the epoch, as
    arguments.  The result is a float, the seconds since the epoch.  The
    quotient by the interval and the product with it are float
    operations (for an interval that is an [int] the product is exact in
    the source; it is the same number below [2^53]). *)
Definition getNextDecodingTime (tz : timezone) (interval : Q) (now : Z)
    : Q :=
  let t := datetime_now tz now in
  let zeroed := replace_to_hour t in
  let delta := t - zeroed in
  let seconds :=
    Float64.round53
      (inject_Z
         (Py.int_of_Q (Float64.round53 (total_seconds delta / interval)) + 1)
       * interval)%Q in
  let t := zeroed + timedelta_of_seconds seconds in
  timestamp tz t.

(** What can be observed of a chopper from outside: a window file was
    sealed by a rotation at some time, or a file was handed to a decoder
    process of its own. *)
Inductive obs :=
| Sealed (t : Z) (file : string)
| Handed (commandline : list string) (file : string).

(** The attributes of a chopper.  [scheduled] is the queue of the
    scheduler, the times of [enterabs] in seconds since the epoch;
    [history] holds the observations so far, oldest first. *)
Record chopper := mk_chopper {
  class : chopper_class;
  tmp_dir : string;
  ident : string;
  wavefilename : string;
  fileQueue : list string;
  scheduled : list Q;
  history : list obs
}.

(** [getWaveFile]: [stamp] is the current UTC time printed with
    [fileTimestampFormat]. *)
Definition getWaveFile (self : chopper) (stamp : string) : string :=
  tmp_dir self ++ "/openwebrx-wsjtchopper-" ++ ident self ++ "-" ++ stamp
    ++ ".wav".

(** [_scheduleNextSwitch] *)
Definition _scheduleNextSwitch (tz : timezone) (now : Z) (self : chopper)
    : chopper :=
  mk_chopper (class self) (tmp_dir self) (ident self) (wavefilename self)
    (fileQueue self)
    (scheduled self
       ++ [getNextDecodingTime tz (class_interval (class self)) now])
    (history self).

(** [switchFiles], run by the scheduler at time [now]. *)
Definition switchFiles (tz : timezone) (now : Z) (stamp : string)
    (self : chopper) : chopper :=
  let filename := wavefilename self in
  let self :=
    mk_chopper (class self) (tmp_dir self) (ident self)
      (getWaveFile self stamp)
      (fileQueue self ++ [filename])
      (scheduled self)
      (history self ++ [Sealed now filename]) in
  _scheduleNextSwitch tz now self.

(** [fileQueue.pop()]: the last element and the list without it. *)
Definition pop (l : list string) : option (string * list string) :=
  match rev l with
  | [] => None
  | x :: r => Some (x, rev r)
  end.

(** [decode]: starts the thread that runs the decoder on one file. *)
Definition decode (self : chopper) : chopper :=
  match pop (fileQueue self) with
  | None => self
  | Some (file, rest) =>
      mk_chopper (class self) (tmp_dir self) (ident self)
        (wavefilename self) rest (scheduled self)
        (history self ++ [Handed (decoder_commandline (class self) file) file])
  end.

(** [WsjtChopper.__init__] followed by [startScheduler]. *)
Definition init (tz : timezone) (c : chopper_class)
    (tmp ident stamp : string) (now : Z) : chopper :=
  let self := mk_chopper c tmp ident "" [] [] [] in
  let self :=
    mk_chopper c tmp ident (getWaveFile self stamp) [] [] [] in
  _scheduleNextSwitch tz now self.

(** The calls that reach a chopper: a rotation by the scheduler, or a
    [decode] by the reading loop of [run]. *)
Inductive call :=
| SwitchFiles (now : Z) (stamp : string)
| Decode.

Definition step (tz : timezone) (self : chopper) (c : call) : chopper :=
  match c with
  | SwitchFiles now stamp => switchFiles tz now stamp self
  | Decode => decode self
  end.

Definition after_calls (tz : timezone) (calls : list call) (self : chopper)
    : chopper :=
  fold_left (step tz) calls self.

(** [decode] called [n] times in a row. *)
Fixpoint decode_times (n : nat) (self : chopper) : chopper :=
  match n with
  | O => self
  | S n' => decode_times n' (decode self)
  end.

(** The files handed to decoders, in the order of the hand-over. *)
Definition handed (self : chopper) : list string :=
  flat_map (fun o => match o with Handed _ f => [f] | Sealed _ _ => [] end)
    (history self).

(** Position of the first hand-over of [file] in a history. *)
Fixpoint handed_at (file : string) (h : list obs) : option nat :=
  match h with
  | [] => None
  | Handed _ f :: h' =>
      if f =? file then Some O else option_map S (handed_at file h')
  | Sealed _ _ :: h' => option_map S (handed_at file h')
  end.

(** [file1] is handed to its decoder before [file2] is. *)
Definition handed_before (file1 file2 : string) (h : list obs) : Prop :=
  match handed_at file1 h, handed_at file2 h with
  | Some i, Some j => (i < j)%nat
  | _, _ => False
  end.

(** The hand-over follows the order of rotation: of two sealed windows
    that both reach a decoder, the one sealed first is handed over
    first. *)
Definition dispatch_follows_rotation (h : list obs) : Prop :=
  forall t1 t2 file1 file2,
    In (Sealed t1 file1) h -> In (Sealed t2 file2) h -> t1 < t2 ->
    handed_at file1 h <> None -> handed_at file2 h <> None ->
    handed_before file1 file2 h.

End Chopper.

(** ** The clock of the chopper *)

Module ChopperClock.

Import Chopper.
Local Open Scope Z_scope.

(** The offset of local time from UTC is [off] seconds, at most a day,
    throughout the two days before and after the clock reading [now]
    (in microseconds since the epoch). *)
Definition constant_offset (tz : timezone) (off : Z) (now : Z) : Prop :=
  -86400 <= off <= 86400
  /\ forall u : Z,
       now / 1000000 - 172800 <= u <= now / 1000000 + 172800 -> tz u = off.

(** The clock readings from 1970 to the end of the year 9998, for which
    every [datetime] met in [getNextDecodingTime] is within the bounds of
    the calendar. *)
Definition in_calendar (now : Z) : Prop :=
  0 <= now < 253370764800 * 1000000.

(** A zone without a change of its offset. *)
Definition fixed_offset (off : Z) : timezone := fun _ => off.


End ChopperClock.

(** ** Python strings, as [owrx/wsjt.py] uses them *)

Module PyStr.

Local Open Scope N_scope.
Local Open Scope list_scope.

(** A [str] is the list of its code points. *)
Definition str := list N.

(** A literal of the source. *)
Definition lit (s : string) : str :=
  map N_of_ascii (list_ascii_of_string s).

Fixpoint str_eqb (a b : str) : bool :=
  match a, b with
  | [], [] => true
  | x :: a', y :: b' => N.eqb x y && str_eqb a' b'
  | _, _ => false
  end.

Definition between (lo hi c : N) : bool := (lo <=? c) && (c <=? hi).

(** A continuation byte of UTF-8. *)
Definition continuation (b : N) : bool := between 128 191 b.

(** Strict UTF-8: no overlong forms, no surrogates, nothing above
    U+10FFFF.  [None] stands for [UnicodeDecodeError], which is a
    [ValueError]. *)
Fixpoint utf8_decode (bs : list N) : option str :=
  match bs with
  | [] => Some []
  | b0 :: r0 =>
      if b0 <? 128 then option_map (cons b0) (utf8_decode r0)
      else if between 194 223 b0 then
        match r0 with
        | b1 :: r1 =>
            if continuation b1
            then option_map (cons ((b0 - 192) * 64 + (b1 - 128)))
                   (utf8_decode r1)
            else None
        | _ => None
        end
      else if between 224 239 b0 then
        match r0 with
        | b1 :: b2 :: r2 =>
            if between (if b0 =? 224 then 160 else 128)
                       (if b0 =? 237 then 159 else 191) b1
               && continuation b2
            then option_map
                   (cons ((b0 - 224) * 4096 + (b1 - 128) * 64 + (b2 - 128)))
                   (utf8_decode r2)
            else None
        | _ => None
        end
      else if between 240 244 b0 then
        match r0 with
        | b1 :: b2 :: b3 :: r3 =>
            if between (if b0 =? 240 then 144 else 128)
                       (if b0 =? 244 then 143 else 191) b1
               && continuation b2 && continuation b3
            then option_map
                   (cons ((b0 - 240) * 262144 + (b1 - 128) * 4096
                          + (b2 - 128) * 64 + (b3 - 128)))
                   (utf8_decode r3)
            else None
        | _ => None
        end
      else None
  end.

(** [data.decode()] *)
Definition decode (data : list byte) : option str :=
  utf8_decode (map Byte.to_N data).

(** The white space of [str.strip] and of [\s] in a pattern: the code
    points for which [str.isspace] holds. *)
Definition isspace (c : N) : bool :=
  between 9 13 c || between 28 32 c || (c =? 133) || (c =? 160)
  || (c =? 5760) || between 8192 8202 c || (c =? 8232) || (c =? 8233)
  || (c =? 8239) || (c =? 8287) || (c =? 12288).

Fixpoint lstrip (s : str) : str :=
  match s with
  | c :: s' => if isspace c then lstrip s' else s
  | [] => []
  end.

Definition rstrip (s : str) : str := rev (lstrip (rev s)).

Definition strip (s : str) : str := rstrip (lstrip s).

Fixpoint startswith (s p : str) : bool :=
  match p, s with
  | [], _ => true
  | x :: p', y :: s' => N.eqb x y && startswith s' p'
  | _ :: _, [] => false
  end.

(** [s[i]] for [i >= 0]; [None] stands for [IndexError]. *)
Definition item (s : str) (i : nat) : option str :=
  match nth_error s i with
  | Some c => Some [c]
  | None => None
  end.

(** [s[a:b]] and [s[a:]] for [0 <= a <= b]. *)
Definition slice (s : str) (a b : nat) : str := firstn (b - a) (skipn a s).
Definition slice_from (s : str) (a : nat) : str := skipn a s.

(** The ASCII digits.  Python's [int], [float] and [\d] also take the
    other decimal digits of Unicode; the model rejects those. *)
Definition isdigit (c : N) : bool := between 48 57 c.
Definition digit (c : N) : Z := Z.of_N c - 48.

Definition number (ds : list N) : Z :=
  fold_left (fun acc d => (acc * 10 + digit d)%Z) ds 0%Z.

(** The longest prefix [d (_? d)*] of a string: its digits, and the rest
    of the string. *)
Fixpoint digit_run (s : str) : list N * str :=
  match s with
  | a :: r =>
      if isdigit a then
        match r with
        | u :: r' =>
            if u =? 95 then
              match r' with
              | b :: _ =>
                  if isdigit b
                  then let '(ds, rest) := digit_run r' in (a :: ds, rest)
                  else ([a], r)
              | [] => ([a], r)
              end
            else let '(ds, rest) := digit_run r in (a :: ds, rest)
        | [] => ([a], [])
        end
      else ([], s)
  | [] => ([], [])
  end.

(** The white space that [int] and [float] take off both ends of their
    argument: that of [str.isspace] but for the four separators U+001C
    to U+001F. *)
Definition isspace_number (c : N) : bool :=
  isspace c && negb (between 28 31 c).

Fixpoint lstrip_number (s : str) : str :=
  match s with
  | c :: s' => if isspace_number c then lstrip_number s' else s
  | [] => []
  end.

Definition strip_number (s : str) : str :=
  rev (lstrip_number (rev (lstrip_number s))).

(** An optional sign: [true] for a minus. *)
Definition sign (s : str) : bool * str :=
  match s with
  | 43 :: r => (false, r)
  | 45 :: r => (true, r)
  | _ => (false, s)
  end.

(** [int(s)] in base 10; [None] stands for [ValueError]. *)
Definition int (s : str) : option Z :=
  let '(neg, s) := sign (strip_number s) in
  match digit_run s with
  | ((_ :: _) as ds, []) => Some (if neg then - number ds else number ds)%Z
  | _ => None
  end.

(** A Python [float], with the value of a finite one kept exact: the
    model does not round or underflow. *)
Inductive pyfloat :=
| Finite (x : Q)
| NegZero
| Inf (neg : bool)
| NaN.

Definition lower (c : N) : N := if between 65 90 c then c + 32 else c.

Definition pow10 (e : Z) : Q :=
  match e with
  | Zneg p => 1 # (10 ^ p)
  | _ => inject_Z (10 ^ e)
  end.

(** The float of a decimal literal: from [2^1024 - 2^970] on, half a
    unit in the last place above the largest float, it is an infinity. *)
Definition finite (neg : bool) (mantissa : Z) (exponent : Z) : pyfloat :=
  if (mantissa =? 0)%Z then (if neg then NegZero else Finite 0)
  else
    let x := Qred (inject_Z mantissa * pow10 exponent) in
    if Qle_bool (inject_Z (2 ^ 1024 - 2 ^ 970)) x then Inf neg
    else Finite (if neg then Qred (- x) else x).

(** The exponent part of a float literal, which must end the string. *)
Definition exponent (s : str) : option Z :=
  match s with
  | [] => Some 0%Z
  | e :: r =>
      if lower e =? 101 then
        let '(neg, r) := sign r in
        match digit_run r with
        | ((_ :: _) as ds, []) => Some (if neg then - number ds else number ds)%Z
        | _ => None
        end
      else None
  end.

(** [float(s)]; [None] stands for [ValueError]. *)
Definition float_of_str (s : str) : option pyfloat :=
  let '(neg, s) := sign (strip_number s) in
  let word := map lower s in
  if str_eqb word (lit "inf") || str_eqb word (lit "infinity")
  then Some (Inf neg)
  else if str_eqb word (lit "nan") then Some NaN
  else
    let '(ip, r) := digit_run s in
    let '(fp, r) :=
      match r with
      | 46 :: r' => digit_run r'
      | _ => ([], r)
      end in
    match ip ++ fp with
    | [] => None
    | _ :: _ =>
        match exponent r with
        | Some e =>
            Some (finite neg (number (ip ++ fp))
                    (e - Z.of_nat (List.length fp)))
        | None => None
        end
    end.

End PyStr.

(** ** The fragment of Python's [re] that the parser's patterns use *)

Module Re.

Import PyStr.
Local Open Scope list_scope.

(** A pattern is a sequence of tokens: a set of characters repeated
    greedily between [lo] and [hi] times, the opening and the closing
    parenthesis of a group, and [$]. *)
Inductive token :=
| Class (c : N -> bool) (lo : nat) (hi : option nat)
| Open (g : nat)
| Close (g : nat)
| EndOfString.

(** While a match runs: where each open group started (the text that
    was still to be read there), and the text of each closed group. *)
Record captures := mk_captures {
  started : list (nat * str);
  groups : list (nat * str)
}.

Fixpoint lookup (g : nat) (l : list (nat * str)) : option str :=
  match l with
  | [] => None
  | (h, s) :: l' => if Nat.eqb g h then Some s else lookup g l'
  end.

Definition open (g : nat) (s : str) (st : captures) : captures :=
  mk_captures ((g, s) :: started st) (groups st).

Definition close (g : nat) (s : str) (st : captures) : captures :=
  match lookup g (started st) with
  | Some from =>
      mk_captures (started st)
        ((g, firstn (List.length from - List.length s) from) :: groups st)
  | None => st
  end.

(** [$] without [MULTILINE]: at the end of the string, or before a line
    feed that ends the string. *)
Definition at_end (s : str) : bool :=
  match s with
  | [] => true
  | [c] => N.eqb c 10
  | _ => false
  end.

(** Greedy repetition with backtracking: [n] characters of the set are
    already taken; take one more if possible, and only when the rest of
    the pattern (the continuation [k]) fails after that, stop here. *)
Fixpoint repetition {A : Type} (k : str -> option A) (c : N -> bool)
    (lo : nat) (hi : option nat) (s : str) (n : nat) : option A :=
  let stop := if Nat.leb lo n then k s else None in
  match s with
  | ch :: s' =>
      if c ch && match hi with None => true | Some h => Nat.ltb n h end
      then match repetition k c lo hi s' (S n) with
           | Some r => Some r
           | None => stop
           end
      else stop
  | [] => stop
  end.

Fixpoint run (p : list token) (s : str) (st : captures) : option captures :=
  match p with
  | [] => Some st
  | Class c lo hi :: p' => repetition (fun s' => run p' s' st) c lo hi s 0
  | Open g :: p' => run p' s (open g s st)
  | Close g :: p' => run p' s (close g s st)
  | EndOfString :: p' => if at_end s then run p' s st else None
  end.

(** [pattern.match(s)]: the match is anchored at the start of [s]. *)
Definition match_ (p : list token) (s : str) : option captures :=
  run p s (mk_captures [] []).

(** [m.group(g)] for a group that took part in the match. *)
Definition group (m : captures) (g : nat) : str :=
  match lookup g (groups m) with
  | Some s => s
  | None => []
  end.

(** [t] is what is left of [s] after at least one character. *)
Definition proper_suffix (t s : str) : Prop :=
  exists u : str, u <> [] /\ s = u ++ t.

(** The sets of characters of the two patterns. *)
Definition dot (c : N) : bool := negb (N.eqb c 10).
Definition upper_or_digit (c : N) : bool := between 65 90 c || between 48 57 c.
Definition A_to_R (c : N) : bool := between 65 82 c.
Definition zero_to_nine (c : N) : bool := between 48 57 c.

Definition once (c : N -> bool) : token := Class c 1 (Some 1%nat).
Definition twice (c : N -> bool) : token := Class c 2 (Some 2%nat).
Definition star (c : N -> bool) : token := Class c 0 None.
Definition plus (c : N -> bool) : token := Class c 1 None.

End Re.

(** ** [datetime.strptime] for the formats of the parser *)

Module Strptime.

Import PyStr.
Local Open Scope N_scope.
Local Open Scope list_scope.

Inductive directive := DirH | DirM | DirS.

(** The directives of a format.  The source only passes the formats
    ["%H%M"] and ["%H%M%S"]; a format with anything else is outside the
    model ([None]). *)
Fixpoint directives (format : list ascii) : option (list directive) :=
  match format with
  | [] => Some []
  | "%"%char :: d :: format' =>
      match
        (if Ascii.eqb d "H" then Some DirH
         else if Ascii.eqb d "M" then Some DirM
         else if Ascii.eqb d "S" then Some DirS
         else None),
        directives format'
      with
      | Some x, Some ds => Some (x :: ds)
      | _, _ => None
      end
  | _ => None
  end.

Definition two_digits (p : N -> N -> bool) (s : str) : list (Z * str) :=
  match s with
  | a :: b :: r => if p a b then [((digit a * 10 + digit b)%Z, r)] else []
  | _ => []
  end.

Definition one_digit (s : str) : list (Z * str) :=
  match s with
  | a :: r => if isdigit a then [(digit a, r)] else []
  | [] => []
  end.

(** The ways a directive can read a prefix of [s], in the order in which
    the pattern of the directive tries them:
    [%H] is [2[0-3]|[0-1]\d|\d], [%M] is [[0-5]\d|\d] and
    [%S] is [6[0-1]|[0-5]\d|\d]. *)
Definition alternatives (d : directive) (s : str) : list (Z * str) :=
  match d with
  | DirH =>
      two_digits (fun a b => (a =? 50) && between 48 51 b) s
      ++ two_digits (fun a b => between 48 49 a && isdigit b) s
      ++ one_digit s
  | DirM =>
      two_digits (fun a b => between 48 53 a && isdigit b) s ++ one_digit s
  | DirS =>
      two_digits (fun a b => (a =? 54) && between 48 49 b) s
      ++ two_digits (fun a b => between 48 53 a && isdigit b) s
      ++ one_digit s
  end.

(** All matches of a sequence of directives against a prefix of [s], in
    the order of the backtracking search: the values read and the text
    left over. *)
Fixpoint matches (ds : list directive) (s : str)
    : list (list (directive * Z) * str) :=
  match ds with
  | [] => [([], s)]
  | d :: ds' =>
      flat_map
        (fun '(v, r) =>
           map (fun '(vs, r') => ((d, v) :: vs, r')) (matches ds' r))
        (alternatives d s)
  end.

Definition directive_eqb (a b : directive) : bool :=
  match a, b with
  | DirH, DirH | DirM, DirM | DirS, DirS => true
  | _, _ => false
  end.

Fixpoint field (d : directive) (vs : list (directive * Z)) : Z :=
  match vs with
  | [] => 0%Z
  | (d', v) :: vs' => if directive_eqb d d' then v else field d vs'
  end.

(** [datetime.strptime(s, format).time()] as hour, minute and second.
    [None] stands for [ValueError]: no match, text left over after the
    first match, or a second above 59, which [datetime] refuses. *)
Definition strptime (s : str) (format : string) : option (Z * Z * Z) :=
  match directives (list_ascii_of_string format) with
  | None => None
  | Some ds =>
      match matches ds s with
      | (vs, []) :: _ =>
          if (field DirS vs <=? 59)%Z
          then Some (field DirH vs, field DirM vs, field DirS vs)
          else None
      | _ => None
      end
  end.

End Strptime.

(** ** owrx/wsjt.py: class WsjtParser *)

Module Parser.

Import PyStr.
Local Open Scope string_scope.
Local Open Scope list_scope.

Inductive exn := ValueError | IndexError.

(** The values of the dictionary that the parser hands to its handler. *)
Inductive value :=
| VInt (n : Z)
| VFloat (x : pyfloat)
| VStr (s : str).

Definition dict := list (string * value).

(** [LocatorLocation(locator)] of [owrx.map]: the object is only passed
    on to the map. *)
Inductive location := LocatorLocation (locator : str).

(** [locator_pattern]: any characters but line feeds; then one white
    space; group 1 is one or more of [A-Z0-9]; then one white space;
    group 2 is two of [A-R] and two of [0-9]; then the end of the
    string. *)
Definition locator_pattern : list Re.token :=
  [ Re.star Re.dot; Re.once isspace;
    Re.Open 1; Re.plus Re.upper_or_digit; Re.Close 1;
    Re.once isspace;
    Re.Open 2; Re.twice Re.A_to_R; Re.twice Re.zero_to_nine; Re.Close 2;
    Re.EndOfString ].

(** [wspr_splitter_pattern]: group 1 is zero or more of [A-Z0-9]; then
    one white space; group 2 is two of [A-R] and two of [0-9]; then one
    white space; group 3 is one or more of [0-9]. *)
Definition wspr_splitter_pattern : list Re.token :=
  [ Re.Open 1; Re.star Re.upper_or_digit; Re.Close 1;
    Re.once isspace;
    Re.Open 2; Re.twice Re.A_to_R; Re.twice Re.zero_to_nine; Re.Close 2;
    Re.once isspace;
    Re.Open 3; Re.plus Re.zero_to_nine; Re.Close 3 ].

(** The class attribute [modes]. *)
Definition modes : list (str * str) :=
  [ (lit "~", lit "FT8"); (lit "#", lit "JT65");
    (lit "@", lit "JT9"); (lit "+", lit "FT4") ].

Definition keys (d : list (str * str)) : list str := map fst d.

(** [x in l] for a list of strings. *)
Definition in_list (x : str) (l : list str) : bool := existsb (str_eqb x) l.

(** [d[k]] for a key that is present. *)
Fixpoint get (d : list (str * str)) (k : str) : option str :=
  match d with
  | [] => None
  | (k', v) :: d' => if str_eqb k k' then Some v else get d' k
  end.

Section WithBand.

(** The type of what [Bandplan.findBand] returns; the parser only
    stores it and passes it on. *)
Variable Band : Type.

(** What a call of the parser does to its collaborators: an update of
    the shared map, a record written to the handler, an exception
    written to the log. *)
Inductive event :=
| UpdateLocation (callsign : str) (loc : location) (mode : str) (band : Band)
| WriteWsjtMessage (out : dict)
| LogException (message : string).

Record parser := mk_parser {
  dial_freq : option Z;
  band : Band
}.

(** A computation appends events to those already there, and then
    returns or raises. *)
Definition M (A : Type) : Type := list event -> (exn + A) * list event.

Definition ret {A : Type} (a : A) : M A := fun evs => (inr a, evs).

Definition raise {A : Type} (e : exn) : M A := fun evs => (inl e, evs).

Definition bind {A B : Type} (m : M A) (k : A -> M B) : M B :=
  fun evs =>
    match m evs with
    | (inr a, evs') => k a evs'
    | (inl e, evs') => (inl e, evs')
    end.

Definition emit (e : event) : M unit := fun evs => (inr tt, evs ++ [e]).

(** A builtin that raises [e] where the model of it returns [None]. *)
Definition or_raise {A : Type} (e : exn) (x : option A) : M A :=
  match x with
  | Some a => ret a
  | None => raise e
  end.

(** [try: body except ValueError: handler] *)
Definition except_ValueError (body : M unit) (handler : M unit) : M unit :=
  fun evs =>
    match body evs with
    | (inl ValueError, evs') => handler evs'
    | r => r
    end.

Notation "x <- m ;; k" := (bind m (fun x => k))
  (at level 61, m at next level, right associativity).
Notation "m ;;; k" := (bind m (fun _ => k))
  (at level 61, right associativity).

(** [parse_timestamp]: [today] is [date.today()], counted in days from
    1970-01-01; the result is in milliseconds. *)
Definition parse_timestamp (today : Z) (instring : str)
    (dateformat : string) : M Z :=
  ts <- or_raise ValueError (Strptime.strptime instring dateformat) ;;
  let '(h, m, s) := ts in
  ret ((today * 86400 + h * 3600 + m * 60 + s) * 1000)%Z.

(** [parseLocator] *)
Definition parseLocator (self : parser) (msg : str) (mode : str) : M unit :=
  match Re.match_ locator_pattern msg with
  | None => ret tt
  | Some m =>
      if str_eqb (Re.group m 2) (lit "RR73") then ret tt
      else emit (UpdateLocation (Re.group m 1)
                   (LocatorLocation (Re.group m 2)) mode (band self))
  end.

(** [parseWsprMessage] *)
Definition parseWsprMessage (self : parser) (msg : str) : M unit :=
  match Re.match_ wspr_splitter_pattern msg with
  | None => ret tt
  | Some m =>
      emit (UpdateLocation (Re.group m 1)
              (LocatorLocation (Re.group m 2)) (lit "WSPR") (band self))
  end.

(** [parse_from_jt9] *)
Definition parse_from_jt9 (today : Z) (self : parser) (msg : str) : M dict :=
  let modes' := keys modes in
  c19 <- or_raise IndexError (item msg 19) ;;
  let dateformat := if in_list c19 modes' then "%H%M" else "%H%M%S" in
  timestamp <-
    parse_timestamp today (slice msg 0 (String.length dateformat)) dateformat ;;
  let msg := slice_from msg (String.length dateformat + 1) in
  let modeChar := slice msg 14 15 in
  let mode :=
    match get modes modeChar with
    | Some m => m
    | None => lit "unknown"
    end in
  let wsjt_msg := strip (slice msg 17 53) in
  parseLocator self wsjt_msg mode ;;;
  db <- or_raise ValueError (float_of_str (slice msg 0 3)) ;;
  dt <- or_raise ValueError (float_of_str (slice msg 4 8)) ;;
  freq <- or_raise ValueError (int (slice msg 9 13)) ;;
  ret [ ("timestamp", VInt timestamp);
        ("db", VFloat db);
        ("dt", VFloat dt);
        ("freq", VInt freq);
        ("mode", VStr mode);
        ("msg", VStr wsjt_msg) ].

(** [parse_from_wsprd] *)
Definition parse_from_wsprd (today : Z) (self : parser) (msg : str)
    : M dict :=
  let wsjt_msg := strip (slice_from msg 29) in
  parseWsprMessage self wsjt_msg ;;;
  timestamp <- parse_timestamp today (slice msg 0 4) "%H%M" ;;
  db <- or_raise ValueError (float_of_str (slice msg 5 8)) ;;
  dt <- or_raise ValueError (float_of_str (slice msg 9 13)) ;;
  freq <- or_raise ValueError (float_of_str (slice msg 14 24)) ;;
  drift <- or_raise ValueError (int (slice msg 25 28)) ;;
  ret [ ("timestamp", VInt timestamp);
        ("db", VFloat db);
        ("dt", VFloat dt);
        ("freq", VFloat freq);
        ("drift", VInt drift);
        ("mode", VStr (lit "WSPR"));
        ("msg", VStr wsjt_msg) ].

(** [parse]: [data] is one line of a decoder's output. *)
Definition parse (today : Z) (self : parser) (data : list byte) : M unit :=
  except_ValueError
    (msg <- or_raise ValueError (decode data) ;;
     let msg := rstrip msg in
     if startswith msg (lit "<DecodeFinished>") then ret tt
     else if startswith msg (lit " EOF on input file") then ret tt
     else
       let modes' := keys modes in
       c21 <- or_raise IndexError (item msg 21) ;;
       marked <-
         (if in_list c21 modes' then ret true
          else c19 <- or_raise IndexError (item msg 19) ;;
               ret (in_list c19 modes')) ;;
       out <-
         (if marked : bool then parse_from_jt9 today self msg
          else parse_from_wsprd today self msg) ;;
       emit (WriteWsjtMessage out))
    (emit (LogException "error while parsing wsjt message")).

End WithBand.

Arguments ret {Band A}.
Arguments raise {Band A}.
Arguments bind {Band A B}.
Arguments emit {Band}.
Arguments or_raise {Band A}.
Arguments except_ValueError {Band}.
Arguments UpdateLocation {Band}.
Arguments WriteWsjtMessage {Band}.
Arguments LogException {Band}.
Arguments mk_parser {Band}.
Arguments band {Band}.
Arguments parseLocator {Band}.
Arguments parseWsprMessage {Band}.
Arguments parse_from_jt9 {Band}.
Arguments parse_from_wsprd {Band}.
Arguments parse_timestamp {Band}.
Arguments parse {Band}.

End Parser.

(** ** csdr.py: the secondary chain and the control channels of class dsp *)

Module DspRest.

Import Py Dsp.
Local Open Scope string_scope.
Local Open Scope list_scope.

(** [if_samp_rate]: [decimation] exists once [calculate_decimation] has
    run. *)
Definition if_samp_rate (self : dsp) : result Q :=
  match decimation self with
  | None => Raise AttributeError
  | Some d =>
      if (d =? 0)%Z then Raise ZeroDivisionError
      else Ok (samp_rate self / inject_Z d)%Q
  end.


(** [secondary_chain(which)]: the method returns [None] when no branch
    applies. *)
Definition secondary_chain (self : dsp) (which : string)
    : result (option string) :=
  let secondary_chain_base := "cat {input_pipe} | " in
  if which =? "fft" then
    Ok (Some
          (secondary_chain_base
           ++ "csdr realpart_cf | csdr fft_fc {secondary_fft_input_size} {secondary_fft_block_size} | csdr logpower_cf -70 "
           ++ (if fft_compression self =? "adpcm"
               then " | csdr compress_fft_adpcm_f_u8 {secondary_fft_size}"
               else ""))%string)
  else if which =? "bpsk31" then
    Ok (Some
          (secondary_chain_base
           ++ "csdr shift_addition_cc --fifo {secondary_shift_pipe} | "
           ++ "csdr bandpass_fir_fft_cc -{secondary_bpf_cutoff} {secondary_bpf_cutoff} {secondary_bpf_cutoff} | "
           ++ "csdr simple_agc_cc 0.001 0.5 | "
           ++ "csdr timing_recovery_cc GARDNER {secondary_samples_per_bits} 0.5 2 --add_q | "
           ++ "CSDR_FIXED_BUFSIZE=1 csdr dbpsk_decoder_c_u8 | "
           ++ "CSDR_FIXED_BUFSIZE=1 csdr psk31_varicode_decoder_u8_u8")%string)
  else if isWsjtMode self (Some which) then
    let chain := (secondary_chain_base ++ "csdr realpart_cf | ")%string in
    match last_decimation self with
    | None => Raise AttributeError
    | Some ld =>
        let chain :=
          if Qneq_bool ld 1
          then (chain ++ "csdr fractional_decimator_ff {last_decimation} | ")%string
          else chain in
        Ok (Some (chain ++ "csdr agc_ff | csdr limit_ff | csdr convert_f_s16")%string)
    end
  else Ok None.

(** The attributes [pipe_names] and [secondary_pipe_names]. *)
Definition pipe_names : list string :=
  ["bpf_pipe"; "shift_pipe"; "squelch_pipe"; "smeter_pipe"; "meta_pipe";
   "iqtee_pipe"; "iqtee2_pipe"; "dmr_control_pipe"].

Definition secondary_pipe_names : list string := ["secondary_shift_pipe"].

(** [try_create_pipes]: the value that each attribute named in
    [pipe_names] gets.  For a name whose placeholder occurs in the
    command this is the path of the FIFO, which [mkfifo] creates; for
    any other name it is [None]. *)
Definition try_create_pipes (pipe_base_path : string)
    (pipe_names : list string) (command_base : string)
    : list (string * option string) :=
  map (fun pipe_name =>
         if contains ("{" ++ pipe_name ++ "}")%string command_base
         then (pipe_name, Some (pipe_base_path ++ pipe_name)%string)
         else (pipe_name, None))
      pipe_names.

(** The command that [start] builds from the primary chain, before the
    placeholders are filled. *)
Definition command_base (self : dsp) : result string :=
  stages <- chain self (demodulator self) ;;
  Ok (String.concat " | " stages).

(** [fft_block_size] *)
Definition fft_block_size (self : dsp) : result Q :=
  if (fft_fps self =? 0)%Z then Raise ZeroDivisionError
  else if (fft_averages self =? 0)%Z
  then Ok (samp_rate self / inject_Z (fft_fps self))%Q
  else Ok (samp_rate self / inject_Z (fft_fps self)
           / inject_Z (fft_averages self))%Q.

(** The arguments of [command_base.format] in [start] that can raise,
    in the order in which they are evaluated, whatever the placeholders
    of the command: [decimation], [last_decimation], [fft_block_size()],
    [if_samp_rate()] as a divisor of the transition width of the band
    filter, and [samp_rate] as a divisor in [ddc_transition_bw()]. *)
Definition format_arguments (self : dsp) : result unit :=
  match decimation self, last_decimation self with
  | Some _, Some _ =>
      _ <- fft_block_size self ;;
      rate <- if_samp_rate self ;;
      if Qeq_bool rate 0 then Raise ZeroDivisionError
      else if Qeq_bool (samp_rate self) 0 then Raise ZeroDivisionError
      else Ok tt
  | _, _ => Raise AttributeError
  end.

(** The first part of [start_secondary_demodulator], up to the
    creation of the control channels: what the method has done when it
    gets there.  [None + str] raises [TypeError]. *)
Inductive secondary_start :=
| NoSecondary
| SecondaryPipes (attrs : list (string * option string))
| SecondaryTypeError
| SecondaryRaise (e : exn)
| SecondaryOutOfFuel.

Definition start_secondary_pipes (pipe_base_path : string) (self : dsp)
    : secondary_start :=
  match secondary_demodulator self with
  | None => NoSecondary
  | Some which =>
      if negb (truthy (Some which)) then NoSecondary
      else
        match if_samp_rate self with
        | Raise e => SecondaryRaise e
        | OutOfFuel => SecondaryOutOfFuel
        | Ok _ =>
            match secondary_chain self "fft" with
            | Raise e => SecondaryRaise e
            | OutOfFuel => SecondaryOutOfFuel
            | Ok secondary_command_fft =>
                match secondary_chain self which with
                | Raise e => SecondaryRaise e
                | OutOfFuel => SecondaryOutOfFuel
                | Ok secondary_command_demod =>
                    match secondary_command_demod, secondary_command_fft with
                    | Some demod, Some fft =>
                        SecondaryPipes
                          (try_create_pipes pipe_base_path
                             secondary_pipe_names (demod ++ fft)%string)
                    | _, _ => SecondaryTypeError
                    end
                end
            end
        end
  end.

End DspRest.

(** ** owrx/websocket.py: class WebSocketConnection *)

Module WebSocket.

Import PyStr.
Local Open Scope Z_scope.
Local Open Scope list_scope.

Inductive exn := ValueError | IndexError.

(** An element of a [bytes] object as an [int], and back: [bytes([...])]
    raises [ValueError] for an element outside [range(256)]. *)
Definition int_of_byte (b : byte) : Z := Z.of_N (Byte.to_N b).

Definition byte_of_int (x : Z) : option byte :=
  if x <? 0 then None else Byte.of_N (Z.to_N x).

Fixpoint bytes (l : list Z) : option (list byte) :=
  match l with
  | [] => Some []
  | x :: l' =>
      match byte_of_int x, bytes l' with
      | Some b, Some bs => Some (b :: bs)
      | _, _ => None
      end
  end.

(** [get_header(size, opcode)]; [None] stands for [ValueError]. *)
Definition get_header (size opcode : Z) : option (list byte) :=
  let ws_first_byte := Z.lor 128 (Z.land opcode 15) in
  if 2 ^ 16 - 1 <? size then
    bytes [ ws_first_byte; 127;
            Z.land (Z.shiftr size 56) 255;
            Z.land (Z.shiftr size 48) 255;
            Z.land (Z.shiftr size 40) 255;
            Z.land (Z.shiftr size 32) 255;
            Z.land (Z.shiftr size 24) 255;
            Z.land (Z.shiftr size 16) 255;
            Z.land (Z.shiftr size 8) 255;
            Z.land size 255 ]
  else if 125 <? size then
    bytes [ ws_first_byte; 126; Z.land (Z.shiftr size 8) 255; Z.land size 255 ]
  else
    bytes [ ws_first_byte; size ].

(** [str.encode('utf-8')] of one code point.  [None] stands for
    [UnicodeEncodeError], a [ValueError], which a surrogate raises; a
    Python [str] holds no code point above U+10FFFF. *)
Definition utf8_encode_char (c : N) : option (list N) :=
  (if c <? 128 then Some [c]
   else if c <? 2048 then Some [192 + c / 64; 128 + c mod 64]
   else if c <? 65536 then
     if between 55296 57343 c then None
     else Some [224 + c / 4096; 128 + (c / 64) mod 64; 128 + c mod 64]
   else if c <? 1114112 then
     Some [240 + c / 262144; 128 + (c / 4096) mod 64;
           128 + (c / 64) mod 64; 128 + c mod 64]
   else None)%N.

Fixpoint utf8_encode (s : str) : option (list N) :=
  match s with
  | [] => Some []
  | c :: s' =>
      match utf8_encode_char c, utf8_encode s' with
      | Some bs, Some r => Some (bs ++ r)
      | _, _ => None
      end
  end.

(** [data.encode('utf-8')] *)
Definition encode (s : str) : option (list byte) :=
  match utf8_encode s with
  | Some ns => bytes (map Z.of_N ns)
  | None => None
  end.

(** What [send] is given: a [str] or a [bytes] object.  (A [dict] is
    first turned into a [str] by [json.dumps], which is not modelled.) *)
Inductive message :=
| Text (s : str)
| Binary (b : list byte).

(** What a connection does to its socket and its log. *)
Inductive io :=
| Write (data : list byte)
| Flush
| Finish
| ConnectionClose
| Log (text : string).

(** [close]: the socket calls are taken not to fail. *)
Definition close : list io :=
  match get_header 0 8 with
  | Some header => [Write header; Flush]
  | None => [Log "ValueError while writing close frame:"]
  end
  ++ [Finish; ConnectionClose].

(** The frame that [send] builds: header and payload. *)
Definition data_to_send (data : message) : option (list byte) :=
  match data with
  | Text s =>
      match get_header (Z.of_nat (List.length s)) 1, encode s with
      | Some header, Some payload => Some (header ++ payload)
      | _, _ => None
      end
  | Binary b =>
      match get_header (Z.of_nat (List.length b)) 2 with
      | Some header => Some (header ++ b)
      | None => None
      end
  end.

(** [send(data)]: [written] is what [wfile.write] returns. *)
Definition send (written : Z) (data : message) : exn + list io :=
  match data_to_send data with
  | None => inl ValueError
  | Some frame =>
      inr (Write frame
           :: (if negb (written =? Z.of_nat (List.length frame))
               then Log "incomplete write! closing socket!" :: close
               else [Flush]))
  end.

(** [rfile.read(n)]: the bytes read and the bytes left; at the end of
    the input fewer than [n] bytes come back. *)
Definition read (rfile : list byte) (n : nat) : list byte * list byte :=
  (firstn n rfile, skipn n rfile).

(** [b[i]] for a [bytes] object; [None] stands for [IndexError]. *)
Definition byte_at (b : list byte) (i : nat) : option Z :=
  option_map int_of_byte (nth_error b i).

(** The list [[b ^ masking_key[index % 4] for (index, b) in
    enumerate(data)]], from position [index] on; [None] stands for
    [IndexError]. *)
Fixpoint xor_with_key (masking_key : list byte) (index : nat)
    (data : list byte) : option (list Z) :=
  match data with
  | [] => Some []
  | b :: data' =>
      match byte_at masking_key (index mod 4) with
      | None => None
      | Some k =>
          option_map (cons (Z.lxor (int_of_byte b) k))
            (xor_with_key masking_key (S index) data')
      end
  end.

(** What the message handler is called with, and the warning of the
    log. *)
Inductive handled :=
| HandleTextMessage (message : str)
| HandleBinaryMessage (data : list byte)
| HandleClose
| LogWarning (opcode : Z).

Definition or_raise {A : Type} (e : exn) (x : option A) : exn + A :=
  match x with
  | Some a => inr a
  | None => inl e
  end.

Definition bind {A B : Type} (m : exn + A) (k : A -> exn + B) : exn + B :=
  match m with
  | inr a => k a
  | inl e => inl e
  end.

Notation "x <- m ;; k" := (bind m (fun x => k))
  (at level 61, m at next level, right associativity).

(** One turn of the loop of [read_loop]: the call it makes, and the
    input that is left. *)
Definition read_frame (rfile : list byte) : exn + (handled * list byte) :=
  let '(header, rfile) := read rfile 2 in
  h0 <- or_raise IndexError (byte_at header 0) ;;
  let opcode := Z.land h0 15 in
  h1 <- or_raise IndexError (byte_at header 1) ;;
  let length := Z.land h1 127 in
  let mask := Z.shiftr (Z.land h1 128) 7 in
  r <-
    (if length =? 126 then
       let '(header, rfile) := read rfile 2 in
       h0 <- or_raise IndexError (byte_at header 0) ;;
       h1 <- or_raise IndexError (byte_at header 1) ;;
       inr (Z.shiftl h0 8 + h1, rfile)
     else inr (length, rfile)) ;;
  let '(length, rfile) := r in
  let '(masking_key, rfile) :=
    if negb (mask =? 0) then read rfile 4 else ([], rfile) in
  let '(data, rfile) := read rfile (Z.to_nat length) in
  data <-
    (if negb (mask =? 0) then
       ints <- or_raise IndexError (xor_with_key masking_key 0 data) ;;
       or_raise ValueError (bytes ints)
     else inr data) ;;
  if opcode =? 1 then
    message <- or_raise ValueError (decode data) ;;
    inr (HandleTextMessage message, rfile)
  else if opcode =? 2 then inr (HandleBinaryMessage data, rfile)
  else if opcode =? 8 then inr (HandleClose, rfile)
  else inr (LogWarning opcode, rfile).

(** How [read_loop] ends. *)
Inductive ending :=
| Returns
| Raises (e : exn)
| OutOfFuel.

(** [read_loop]: the calls made, in order, and how the loop ends.  Each
    unit of fuel pays for one turn of the loop. *)
Fixpoint read_loop (fuel : nat) (rfile : list byte) : list handled * ending :=
  match fuel with
  | O => ([], OutOfFuel)
  | S fuel' =>
      match read_frame rfile with
      | inl e => ([], Raises e)
      | inr (HandleClose, _) => ([HandleClose], Returns)
      | inr (h, rfile') =>
          let '(hs, e) := read_loop fuel' rfile' in (h :: hs, e)
      end
  end.

(** What a turn of [read_loop] does with a frame once its payload is
    there: the last statement of the loop, as a function of its own. *)
Definition deliver (opcode : Z) (data rfile : list byte)
    : exn + (handled * list byte) :=
  if opcode =? 1 then
    match decode data with
    | Some message => inr (HandleTextMessage message, rfile)
    | None => inl ValueError
    end
  else if opcode =? 2 then inr (HandleBinaryMessage data, rfile)
  else if opcode =? 8 then inr (HandleClose, rfile)
  else inr (LogWarning opcode, rfile).

(** The value of a sequence of bytes read as a big-endian number. *)
Definition big_endian (bs : list byte) : Z :=
  fold_left (fun acc b => acc * 256 + int_of_byte b) bs 0.

End WebSocket.

(** ** What a history of a chopper holds *)

Module ChopperHistory.

Import Chopper.
Local Open Scope list_scope.

(** The files sealed by rotations, in the order of the rotations. *)
Definition sealed (self : chopper) : list string :=
  flat_map (fun o => match o with Sealed _ f => [f] | Handed _ _ => [] end)
    (history self).

(** The sealed files are the handed ones and the pending ones. *)
Definition conserved (self : chopper) : Prop :=
  Permutation (sealed self) (handed self ++ fileQueue self).

End ChopperHistory.

(** ** What a call of the parser leaves behind *)

Module ParserOutcome.

Import Parser.
Local Open Scope list_scope.

(** The updates that one call sends to the map: none or one. *)
Definition at_most_one_update {Band : Type} (self : parser Band)
    (updates : list (event Band)) : Prop :=
  updates = []
  \/ exists callsign locator mode,
       updates = [UpdateLocation callsign (LocatorLocation locator) mode
                    (band self)].

(** The keys of the two kinds of record, in the order of the source. *)
Definition record_keys (out : dict) : Prop :=
  map fst out = ["timestamp"; "db"; "dt"; "freq"; "mode"; "msg"]%string
  \/ map fst out
     = ["timestamp"; "db"; "dt"; "freq"; "drift"; "mode"; "msg"]%string.

End ParserOutcome.

(** ** The locators that reach the map *)

Module ParserUpdates.

Import PyStr Parser.
Local Open Scope list_scope.

(** An update of the map does not have the locator RR73. *)
Definition not_RR73 {Band : Type} (ev : event Band) : Prop :=
  match ev with
  | UpdateLocation _ (LocatorLocation locator) _ _ => locator <> lit "RR73"
  | _ => True
  end.

(** An update of the map has the locator RR73 only with the mode WSPR. *)
Definition RR73_only_for_WSPR {Band : Type} (ev : event Band) : Prop :=
  match ev with
  | UpdateLocation _ (LocatorLocation locator) mode _ =>
      locator = lit "RR73" -> mode = lit "WSPR"
  | _ => True
  end.

(** A computation appends to the events already there, and every event
    it appends satisfies [P]. *)
Definition appends {Band A : Type} (P : event Band -> Prop)
    (m : M Band A) : Prop :=
  forall evs : list (event Band),
    exists new, snd (m evs) = evs ++ new /\ Forall P new.

End ParserUpdates.

(** ** The end of the input of a connection *)

Module WebSocketLoop.

Import WebSocket.
Local Open Scope Z_scope.
Local Open Scope list_scope.

(** The input ends within the header of the next frame: fewer than two
    bytes are left, or fewer than four when the second byte announces a
    length of 16 bits. *)
Definition header_cut_short (rfile : list byte) : bool :=
  match rfile with
  | _ :: h1 :: rest =>
      (Z.land (int_of_byte h1) 127 =? 126) && (List.length rest <? 2)%nat
  | _ => true
  end.

End WebSocketLoop.

(** * Properties *)

(** ** Rounding to binary64 *)

Module Float64Facts.

Import Float64.
Local Open Scope Q_scope.

Lemma nearest_even_cases (x : Q) :
  (nearest_even x = Qfloor x /\ x - inject_Z (Qfloor x) <= 1 # 2)
  \/ (nearest_even x = (Qfloor x + 1)%Z /\ 1 # 2 <= x - inject_Z (Qfloor x)).
Proof.
  unfold nearest_even.
  destruct (Qcompare_spec (x - inject_Z (Qfloor x)) (1 # 2)) as [E | L | G].
  - destruct (Z.even (Qfloor x)); [left | right]; split; try reflexivity;
      rewrite E; apply Qle_refl.
  - left. split; [reflexivity | apply Qlt_le_weak, L].
  - right. split; [reflexivity | apply Qlt_le_weak, G].
Qed.

Lemma floor_bounds (x : Q) :
  inject_Z (Qfloor x) <= x /\ x < inject_Z (Qfloor x) + 1.
Proof.
  split; [apply Qfloor_le|].
  pose proof (Qlt_floor x) as H. rewrite inject_Z_plus in H. exact H.
Qed.

Lemma nearest_even_ge (x : Q) (n : Z) :
  inject_Z n <= x -> (n <= nearest_even x)%Z.
Proof.
  intros H.
  assert (Hf : (n <= Qfloor x)%Z).
  { rewrite <- (Qfloor_Z n). apply Qfloor_resp_le. exact H. }
  destruct (nearest_even_cases x) as [(-> & _) | (-> & _)]; lia.
Qed.

Lemma nearest_even_le (x : Q) (n : Z) :
  x <= inject_Z n -> (nearest_even x <= n)%Z.
Proof.
  intros H.
  destruct (floor_bounds x) as (Hlo & Hhi).
  assert (Hf : (Qfloor x <= n)%Z).
  { rewrite <- (Qfloor_Z n). apply Qfloor_resp_le. exact H. }
  destruct (nearest_even_cases x) as [(-> & _) | (-> & Hr)]; [lia|].
  destruct (Z.eq_dec (Qfloor x) n) as [E | E]; [|lia].
  exfalso. rewrite E in Hr. lra.
Qed.

Lemma nearest_even_lt (x : Q) (n : Z) :
  x < inject_Z n - (1 # 2) -> (nearest_even x < n)%Z.
Proof.
  intros H.
  destruct (floor_bounds x) as (Hlo & Hhi).
  assert (Hf : (Qfloor x < n)%Z).
  { rewrite Zlt_Qlt. lra. }
  destruct (nearest_even_cases x) as [(-> & _) | (-> & Hr)]; [lia|].
  destruct (Z.eq_dec (Qfloor x + 1) n) as [E | E]; [|lia].
  exfalso. rewrite <- E, inject_Z_plus in H.
  change (inject_Z 1) with 1 in H. lra.
Qed.

Lemma nearest_even_integer (x : Q) (n : Z) :
  x == inject_Z n -> nearest_even x = n.
Proof.
  intros E.
  pose proof (nearest_even_ge x n) as H1.
  pose proof (nearest_even_le x n) as H2.
  assert (n <= nearest_even x)%Z by (apply H1; rewrite E; apply Qle_refl).
  assert (nearest_even x <= n)%Z by (apply H2; rewrite E; apply Qle_refl).
  lia.
Qed.

Lemma nearest_even_error (x : Q) :
  x - (1 # 2) <= inject_Z (nearest_even x) <= x + (1 # 2).
Proof.
  destruct (floor_bounds x) as (Hlo & Hhi).
  destruct (nearest_even_cases x) as [(-> & Hr) | (-> & Hr)].
  - lra.
  - rewrite inject_Z_plus. change (inject_Z 1) with 1. lra.
Qed.

Lemma nearest_even_comp (x y : Q) : x == y -> nearest_even x = nearest_even y.
Proof.
  intros E. unfold nearest_even.
  rewrite (Qfloor_comp x y E).
  assert (E' : x - inject_Z (Qfloor y) == y - inject_Z (Qfloor y))
    by (rewrite E; reflexivity).
  rewrite E'. reflexivity.
Qed.

Lemma pow2_pos (e : Z) : 0 < pow2 e.
Proof. apply Qpower_0_lt. reflexivity. Qed.

Lemma pow2_plus (a b : Z) : pow2 (a + b) == pow2 a * pow2 b.
Proof. apply Qpower_plus. discriminate. Qed.

Lemma pow2_lt (a b : Z) : (a < b)%Z -> pow2 a < pow2 b.
Proof. intros H. apply Qpower_lt_compat_l; [exact H | reflexivity]. Qed.

Lemma pow2_le (a b : Z) : (a <= b)%Z -> pow2 a <= pow2 b.
Proof. intros H. apply Qpower_le_compat_l; [exact H | discriminate]. Qed.

Lemma pow2_nonneg (e : Z) : (0 <= e)%Z -> pow2 e == inject_Z (2 ^ e).
Proof.
  intros H. unfold pow2. rewrite Zpower_Qpower by exact H. reflexivity.
Qed.

Lemma pow2_opp (e : Z) : pow2 (- e) == / pow2 e.
Proof. apply Qpower_opp. Qed.


Lemma Qdiv_lt_cross (a b c d : Q) :
  0 < b -> 0 < d -> a * d < c * b -> a / b < c / d.
Proof.
  intros Hb Hd H.
  apply Qlt_shift_div_r; [exact Hb|].
  assert (E : c / d * b == c * b / d) by (field; lra).
  rewrite E. apply Qlt_shift_div_l; [exact Hd | exact H].
Qed.

Lemma Qdiv_le_cross (a b c d : Q) :
  0 < b -> 0 < d -> a * d <= c * b -> a / b <= c / d.
Proof.
  intros Hb Hd H.
  apply Qle_shift_div_r; [exact Hb|].
  assert (E : c / d * b == c * b / d) by (field; lra).
  rewrite E. apply Qle_shift_div_l; [exact Hd | exact H].
Qed.

Lemma log2_bounds (a : Z) :
  (0 < a)%Z ->
  pow2 (Z.log2 a) <= inject_Z a /\ inject_Z a < 2 * pow2 (Z.log2 a).
Proof.
  intros Ha.
  destruct (Z.log2_spec a Ha) as (Hlo & Hhi).
  pose proof (Z.log2_nonneg a) as Hnn.
  rewrite (pow2_nonneg _ Hnn).
  split.
  - rewrite <- Zle_Qle. exact Hlo.
  - rewrite Z.pow_succ_r in Hhi by exact Hnn.
    change 2 with (inject_Z 2). rewrite <- inject_Z_mult, <- Zlt_Qlt.
    exact Hhi.
Qed.

Lemma pow2_succ (e : Z) : pow2 (e + 1) == 2 * pow2 e.
Proof. rewrite pow2_plus. change (pow2 1) with 2. ring. Qed.

Lemma pow2_pred (e : Z) : pow2 (e - 1) == pow2 e / 2.
Proof.
  assert (E : pow2 e == 2 * pow2 (e - 1)).
  { rewrite <- pow2_succ. replace (e - 1 + 1)%Z with e by lia. reflexivity. }
  rewrite E. field.
Qed.

Lemma pow2_minus (a b : Z) : pow2 (a - b) == pow2 a / pow2 b.
Proof.
  unfold Z.sub. rewrite pow2_plus, pow2_opp. reflexivity.
Qed.

(** [ilog2 x] is the exponent of the binade of [x]. *)
Lemma ilog2_spec (x : Q) :
  0 < x -> pow2 (ilog2 x) <= x /\ x < pow2 (ilog2 x + 1).
Proof.
  intros Hx. destruct x as [a b].
  assert (Ha : (0 < a)%Z).
  { unfold Qlt in Hx. simpl in Hx. lia. }
  destruct (log2_bounds a Ha) as (Hal & Hah).
  destruct (log2_bounds (Z.pos b) eq_refl) as (Hbl & Hbh).
  unfold ilog2. cbn [Qnum Qden].
  set (la := Z.log2 a) in *. set (lb := Z.log2 (Z.pos b)) in *.
  pose proof (pow2_pos la) as Hpa. pose proof (pow2_pos lb) as Hpb.
  assert (HB : 0 < inject_Z (Z.pos b)) by reflexivity.
  assert (Ex : a # b == inject_Z a / inject_Z (Z.pos b))
    by apply Qmake_Qdiv.
  destruct (Qle_bool (pow2 (la - lb)) (a # b)) eqn:Hc.
  - apply Qle_bool_iff in Hc. split; [exact Hc|].
    rewrite pow2_succ, pow2_minus, Ex.
    assert (E2 : 2 * (pow2 la / pow2 lb) == (2 * pow2 la) / pow2 lb)
      by (field; lra).
    rewrite E2. apply Qdiv_lt_cross; [exact HB | exact Hpb |].
    apply Qlt_le_trans with (2 * pow2 la * pow2 lb).
    + apply Qmult_lt_compat_r; assumption.
    + rewrite !(Qmult_comm (2 * pow2 la)).
      apply Qmult_le_compat_r; lra.
  - assert (Hlt : a # b < pow2 (la - lb)).
    { apply Qnot_le_lt. intros H. apply Qle_bool_iff in H. congruence. }
    replace (la - lb - 1 + 1)%Z with (la - lb)%Z by lia.
    split; [|exact Hlt].
    rewrite pow2_pred, pow2_minus, Ex.
    assert (E2 : pow2 la / pow2 lb / 2 == pow2 la / (2 * pow2 lb))
      by (field; lra).
    rewrite E2. apply Qdiv_le_cross; [lra | exact HB |].
    apply Qle_trans with (inject_Z a * inject_Z (Z.pos b)).
    + apply Qmult_le_compat_r; lra.
    + rewrite !(Qmult_comm (inject_Z a)).
      apply Qmult_le_compat_r; [lra|].
      apply Qle_trans with (pow2 la); lra.
Qed.

Lemma ilog2_unique (x : Q) (e : Z) :
  pow2 e <= x -> x < pow2 (e + 1) -> ilog2 x = e.
Proof.
  intros Hlo Hhi.
  assert (Hx : 0 < x) by (pose proof (pow2_pos e); lra).
  destruct (ilog2_spec x Hx) as (Hl & Hh).
  assert (H1 : (e < ilog2 x + 1)%Z).
  { apply (Qpower_lt_compat_l_inv 2); [|reflexivity].
    apply Qle_lt_trans with x; assumption. }
  assert (H2 : (ilog2 x < e + 1)%Z).
  { apply (Qpower_lt_compat_l_inv 2); [|reflexivity].
    apply Qle_lt_trans with x; assumption. }
  lia.
Qed.

Lemma ilog2_comp (x y : Q) : 0 < x -> x == y -> ilog2 x = ilog2 y.
Proof.
  intros Hx E. destruct (ilog2_spec x Hx) as (Hl & Hh).
  symmetry. apply ilog2_unique; rewrite <- E; assumption.
Qed.

Lemma ilog2_lt (x : Q) (e : Z) : 0 < x -> x < pow2 e -> (ilog2 x < e)%Z.
Proof.
  intros Hx H. destruct (ilog2_spec x Hx) as (Hl & _).
  apply (Qpower_lt_compat_l_inv 2); [|reflexivity].
  apply Qle_lt_trans with x; assumption.
Qed.

Lemma ilog2_ge (x : Q) (e : Z) : pow2 e <= x -> (e <= ilog2 x)%Z.
Proof.
  intros H.
  assert (Hx : 0 < x) by (pose proof (pow2_pos e); lra).
  destruct (ilog2_spec x Hx) as (_ & Hh).
  assert (e < ilog2 x + 1)%Z; [|lia].
  apply (Qpower_lt_compat_l_inv 2); [|reflexivity].
  apply Qle_lt_trans with x; assumption.
Qed.


Lemma Qabs_positive (x : Q) : 0 < x -> Qabs x == x.
Proof. intros H. apply Qabs_pos. lra. Qed.

Lemma ulp_exponent_comp (x y : Q) :
  0 < x -> x == y -> ulp_exponent x = ulp_exponent y.
Proof.
  intros Hx E. unfold ulp_exponent. rewrite (ilog2_comp x y Hx E).
  reflexivity.
Qed.

(** The rounding of a positive number: its multiple of [pow2 e] that is
    nearest to it, for the exponent [e] of its unit in the last place. *)
Lemma round53_pos (x : Q) :
  0 < x ->
  round53 x
  == inject_Z (nearest_even (x / pow2 (ulp_exponent x)))
     * pow2 (ulp_exponent x).
Proof.
  intros Hx. unfold round53.
  assert (H0 : Qeq_bool x 0 = false).
  { destruct (Qeq_bool x 0) eqn:E; [|reflexivity].
    apply Qeq_bool_eq in E. lra. }
  assert (H1 : Qle_bool 0 x = true) by (apply Qle_bool_iff; lra).
  rewrite H0, H1. cbv zeta.
  pose proof (Qabs_positive x Hx) as Ea.
  assert (Hax : 0 < Qabs x) by (rewrite Ea; exact Hx).
  rewrite (ulp_exponent_comp (Qabs x) x Hax Ea).
  assert (Eq : Qabs x / pow2 (ulp_exponent x) == x / pow2 (ulp_exponent x))
    by (rewrite Ea; reflexivity).
  rewrite (nearest_even_comp _ _ Eq). reflexivity.
Qed.

Lemma round53_comp (x y : Q) : x == y -> round53 x == round53 y.
Proof.
  intros E. unfold round53.
  assert (E0 : Qeq_bool x 0 = Qeq_bool y 0).
  { destruct (Qeq_bool x 0) eqn:Hx, (Qeq_bool y 0) eqn:Hy; try reflexivity.
    - apply Qeq_bool_eq in Hx. rewrite E in Hx.
      apply Qeq_eq_bool in Hx. congruence.
    - apply Qeq_bool_eq in Hy. rewrite <- E in Hy.
      apply Qeq_eq_bool in Hy. congruence. }
  rewrite <- E0. destruct (Qeq_bool x 0) eqn:Hx; [reflexivity|].
  assert (Hnz : ~ x == 0) by (apply Qeq_bool_neq; exact Hx).
  assert (Hax : 0 < Qabs x).
  { destruct (Qlt_le_dec 0 x) as [H | H].
    - rewrite (Qabs_pos x) by lra. exact H.
    - rewrite (Qabs_neg x H).
      destruct (Qle_lt_or_eq _ _ H) as [H' | H']; [lra | contradiction]. }
  assert (Ea : Qabs x == Qabs y) by (rewrite E; reflexivity).
  cbv zeta.
  rewrite (ulp_exponent_comp _ _ Hax Ea).
  assert (Eq : Qabs x / pow2 (ulp_exponent (Qabs y))
               == Qabs y / pow2 (ulp_exponent (Qabs y)))
    by (rewrite Ea; reflexivity).
  rewrite (nearest_even_comp _ _ Eq).
  assert (E1 : Qle_bool 0 x = Qle_bool 0 y).
  { destruct (Qle_bool 0 x) eqn:H1, (Qle_bool 0 y) eqn:H2; try reflexivity.
    - apply Qle_bool_iff in H1. rewrite E in H1.
      apply Qle_bool_iff in H1. congruence.
    - apply Qle_bool_iff in H2. rewrite <- E in H2.
      apply Qle_bool_iff in H2. congruence. }
  rewrite E1. reflexivity.
Qed.

#[global] Instance round53_wd : Proper (Qeq ==> Qeq) round53.
Proof. intros x y E. apply round53_comp. exact E. Qed.

(** Below [pow2 53] the exponent is not positive, and from [pow2 (-1022)]
    on it is that of the binade. *)
Lemma ulp_exponent_le (x : Q) (k : Z) :
  0 < x -> x < pow2 (k + 53) -> (-1074 <= k)%Z -> (ulp_exponent x <= k)%Z.
Proof.
  intros Hx H Hk. unfold ulp_exponent.
  pose proof (ilog2_lt x (k + 53) Hx H). lia.
Qed.

Lemma ulp_exponent_normal (x : Q) :
  pow2 (-1022) <= x -> ulp_exponent x = (ilog2 x - 52)%Z.
Proof.
  intros H. unfold ulp_exponent. pose proof (ilog2_ge x (-1022) H). lia.
Qed.

(** A number that is a whole multiple of [pow2 e0], for an [e0] that is
    at least its ulp_exponent, is a binary64 value: rounding leaves it. *)
Lemma round53_representable (x : Q) (m e0 : Z) :
  0 < x ->
  x == inject_Z m * pow2 e0 ->
  (ulp_exponent x <= e0)%Z ->
  round53 x == x.
Proof.
  intros Hx E He. rewrite (round53_pos x Hx).
  set (e := ulp_exponent x) in *.
  assert (Ediv : x / pow2 e == inject_Z (m * 2 ^ (e0 - e))).
  { rewrite inject_Z_mult, <- (pow2_nonneg (e0 - e)) by lia.
    rewrite pow2_minus, E. pose proof (pow2_pos e). field. lra. }
  rewrite (nearest_even_integer _ _ Ediv).
  rewrite inject_Z_mult, <- (pow2_nonneg (e0 - e)) by lia.
  rewrite pow2_minus, E. pose proof (pow2_pos e). field. lra.
Qed.

(** Rounding does not cross a whole number below [pow2 53]. *)
Lemma round53_ge (x : Q) (n : Z) :
  0 < x -> x < pow2 53 -> inject_Z n <= x -> inject_Z n <= round53 x.
Proof.
  intros Hx Hhi Hn. rewrite (round53_pos x Hx).
  assert (He : (ulp_exponent x <= 0)%Z)
    by (apply ulp_exponent_le; [assumption.. | lia]).
  set (e := ulp_exponent x) in *.
  pose proof (pow2_pos e) as Hp.
  assert (En : inject_Z n == inject_Z (n * 2 ^ (0 - e)) * pow2 e).
  { rewrite inject_Z_mult, <- (pow2_nonneg (0 - e)) by lia.
    rewrite pow2_minus. change (pow2 0) with 1. field. lra. }
  rewrite En. apply Qmult_le_compat_r; [|lra].
  rewrite <- Zle_Qle. apply nearest_even_ge.
  apply Qle_shift_div_l; [exact Hp|]. rewrite <- En. exact Hn.
Qed.

Lemma round53_le (x : Q) (n : Z) :
  0 < x -> x < pow2 53 -> x <= inject_Z n -> round53 x <= inject_Z n.
Proof.
  intros Hx Hhi Hn. rewrite (round53_pos x Hx).
  assert (He : (ulp_exponent x <= 0)%Z)
    by (apply ulp_exponent_le; [assumption.. | lia]).
  set (e := ulp_exponent x) in *.
  pose proof (pow2_pos e) as Hp.
  assert (En : inject_Z n == inject_Z (n * 2 ^ (0 - e)) * pow2 e).
  { rewrite inject_Z_mult, <- (pow2_nonneg (0 - e)) by lia.
    rewrite pow2_minus. change (pow2 0) with 1. field. lra. }
  rewrite En. apply Qmult_le_compat_r; [|lra].
  rewrite <- Zle_Qle. apply nearest_even_le.
  apply Qle_shift_div_r; [exact Hp|]. rewrite <- En. exact Hn.
Qed.

(** A number that lies more than half a unit of its last place below a
    whole number is rounded to less than that whole number. *)
Lemma round53_lt (x : Q) (n : Z) :
  0 < x -> x < pow2 53 ->
  x + pow2 (ulp_exponent x) / 2 < inject_Z n ->
  round53 x < inject_Z n.
Proof.
  intros Hx Hhi Hn. rewrite (round53_pos x Hx).
  assert (He : (ulp_exponent x <= 0)%Z)
    by (apply ulp_exponent_le; [assumption.. | lia]).
  set (e := ulp_exponent x) in *.
  pose proof (pow2_pos e) as Hp.
  assert (En : inject_Z n == inject_Z (n * 2 ^ (0 - e)) * pow2 e).
  { rewrite inject_Z_mult, <- (pow2_nonneg (0 - e)) by lia.
    rewrite pow2_minus. change (pow2 0) with 1. field. lra. }
  rewrite En. apply Qmult_lt_compat_r; [exact Hp|].
  rewrite <- Zlt_Qlt. apply nearest_even_lt.
  apply Qlt_shift_div_r; [exact Hp|].
  assert (E2 : (inject_Z (n * 2 ^ (0 - e)) - (1 # 2)) * pow2 e
               == inject_Z (n * 2 ^ (0 - e)) * pow2 e - pow2 e / 2)
    by field.
  rewrite E2, <- En. lra.
Qed.

(** The error of a rounding is at most half a unit of the last place,
    which in the normal range is at most the fraction [2^-53] of the
    number. *)
Lemma round53_error (x : Q) :
  0 < x ->
  x - pow2 (ulp_exponent x) / 2 <= round53 x <= x + pow2 (ulp_exponent x) / 2.
Proof.
  intros Hx. rewrite (round53_pos x Hx).
  set (e := ulp_exponent x).
  pose proof (pow2_pos e) as Hp.
  pose proof (nearest_even_error (x / pow2 e)) as (Hlo & Hhi).
  assert (E1 : (x / pow2 e - (1 # 2)) * pow2 e == x - pow2 e / 2)
    by (field; lra).
  assert (E2 : (x / pow2 e + (1 # 2)) * pow2 e == x + pow2 e / 2)
    by (field; lra).
  rewrite <- E1, <- E2.
  split; apply Qmult_le_compat_r; lra.
Qed.

Lemma ulp_normal (x : Q) :
  pow2 (-1022) <= x -> pow2 (ulp_exponent x) <= x * pow2 (-52).
Proof.
  intros H. rewrite (ulp_exponent_normal x H).
  assert (Hx : 0 < x) by (pose proof (pow2_pos (-1022)); lra).
  destruct (ilog2_spec x Hx) as (Hl & _).
  unfold Z.sub. rewrite pow2_plus.
  apply Qmult_le_compat_r; [exact Hl|].
  apply Qlt_le_weak, pow2_pos.
Qed.

Lemma inject_Z_lt_pow2_53 (z : Z) : (z < 2 ^ 53)%Z -> inject_Z z < pow2 53.
Proof.
  intros H. rewrite (pow2_nonneg 53) by lia. rewrite <- Zlt_Qlt. exact H.
Qed.

Lemma round53_zero (x : Q) : x == 0 -> round53 x == 0.
Proof.
  intros E. unfold round53.
  destruct (Qeq_bool x 0) eqn:H; [reflexivity|].
  apply Qeq_bool_neq in H. contradiction.
Qed.

(** A positive whole number below [2^53] is a binary64 value. *)
Lemma round53_int (z : Z) :
  (0 < z)%Z -> (z < 2 ^ 53)%Z -> round53 (inject_Z z) == inject_Z z.
Proof.
  intros H0 H.
  assert (Hz : 0 < inject_Z z)
    by (change 0 with (inject_Z 0); rewrite <- Zlt_Qlt; exact H0).
  apply (round53_representable _ z 0 Hz).
  - change (pow2 0) with 1. ring.
  - apply ulp_exponent_le; [exact Hz | apply inject_Z_lt_pow2_53, H | lia].
Qed.

Lemma round53_whole (z : Z) :
  (0 <= z)%Z -> (z < 2 ^ 53)%Z -> round53 (inject_Z z) == inject_Z z.
Proof.
  intros H0 H. destruct (Z.eq_dec z 0) as [E | E].
  - subst z. apply round53_zero. reflexivity.
  - apply round53_int; lia.
Qed.

(** So is a half of a whole number below [2^53]. *)
Lemma round53_halves (m : Z) :
  (0 <= m)%Z -> (m < 2 ^ 53)%Z ->
  round53 (inject_Z m / 2) == inject_Z m / 2.
Proof.
  intros H0 H. destruct (Z.eq_dec m 0) as [E | E].
  - subst m. rewrite (round53_zero (inject_Z 0 / 2)); reflexivity.
  - assert (Hm : 0 < inject_Z m)
      by (change 0 with (inject_Z 0); rewrite <- Zlt_Qlt; lia).
    assert (Hx : 0 < inject_Z m / 2) by (apply Qlt_shift_div_l; lra).
    apply (round53_representable _ m (-1) Hx).
    + change (pow2 (-1)) with (1 # 2). field.
    + apply ulp_exponent_le; [exact Hx | | lia].
      change (-1 + 53)%Z with 52%Z.
      pose proof (inject_Z_lt_pow2_53 m H) as H53.
      assert (E53 : pow2 53 == 2 * pow2 52) by (apply (pow2_succ 52)).
      apply Qlt_shift_div_r; lra.
Qed.

Lemma round53_relative (x : Q) :
  pow2 (-1022) <= x ->
  x * (1 - pow2 (-53)) <= round53 x /\ round53 x <= x * (1 + pow2 (-53)).
Proof.
  intros H.
  assert (Hx : 0 < x) by (pose proof (pow2_pos (-1022)); lra).
  pose proof (round53_error x Hx) as [Hlo Hhi].
  pose proof (ulp_normal x H) as Hulp.
  assert (E : x * pow2 (-53) == x * pow2 (-52) / 2).
  { rewrite (pow2_pred (-52) : pow2 (-53) == _). field. }
  assert (E1 : x * (1 - pow2 (-53)) == x - x * pow2 (-53)) by ring.
  assert (E2 : x * (1 + pow2 (-53)) == x + x * pow2 (-53)) by ring.
  rewrite E1, E2, E.
  set (t := x * pow2 (-52)) in *. set (w := pow2 (ulp_exponent x)) in *.
  clearbody t w. clear E E1 E2 H.
  assert (Ew : w / 2 == w * (1 # 2)) by field.
  assert (Et : t / 2 == t * (1 # 2)) by field.
  split; lra.
Qed.

(** The same with an absolute bound on the number. *)
Lemma round53_near (x bound : Q) :
  pow2 (-1022) <= x -> x <= bound ->
  x - bound * pow2 (-53) <= round53 x /\ round53 x <= x + bound * pow2 (-53).
Proof.
  intros H Hb. destruct (round53_relative x H) as [Hlo Hhi].
  pose proof (pow2_pos (-53)) as Hu.
  assert (Hm : x * pow2 (-53) <= bound * pow2 (-53))
    by (apply Qmult_le_compat_r; lra).
  assert (E1 : x * (1 - pow2 (-53)) == x - x * pow2 (-53)) by ring.
  assert (E2 : x * (1 + pow2 (-53)) == x + x * pow2 (-53)) by ring.
  rewrite E1 in Hlo. rewrite E2 in Hhi.
  set (xu := x * pow2 (-53)) in *. set (bu := bound * pow2 (-53)) in *.
  clearbody xu bu. split; lra.
Qed.

Lemma one_is_normal (x : Q) : 1 <= x -> pow2 (-1022) <= x.
Proof.
  intros H. apply Qle_trans with 1; [|exact H].
  change 1 with (pow2 0). apply pow2_le. lia.
Qed.

End Float64Facts.

(** ** The rate profile and the audio rate *)

Module DspFacts.

Import Py Dsp.
Local Open Scope Q_scope.

Lemma Qle_div_iff (a b c : Q) : 0 < c -> (b <= a / c <-> b * c <= a).
Proof.
  intros Hc. split; intros H.
  - assert (E : a == a / c * c) by (field; lra).
    rewrite E. apply Qmult_le_compat_r; lra.
  - apply Qle_shift_div_l; assumption.
Qed.

Lemma inject_Z_pos (d : Z) : (1 <= d)%Z -> 0 < inject_Z d.
Proof.
  intros H. change 0 with (inject_Z 0). rewrite <- Zlt_Qlt. lia.
Qed.

(** The loop stops, with enough fuel, at a decimation that still
    satisfies the bound while the next one does not. *)
Lemma get_decimation_loop_stops (input_rate output_rate : Q) (bound : Z) :
  0 < output_rate ->
  input_rate < output_rate * inject_Z bound ->
  forall (fuel : nat) (d : Z),
    (1 <= d)%Z ->
    output_rate * inject_Z d <= input_rate ->
    (Z.to_nat (bound - d) <= fuel)%nat ->
    exists d' : Z,
      get_decimation_loop fuel input_rate output_rate d = Some d'
      /\ (d <= d')%Z
      /\ output_rate * inject_Z d' <= input_rate
      /\ input_rate < output_rate * inject_Z (d' + 1).
Proof.
  intros Hout Hbound fuel.
  induction fuel as [|fuel IH]; intros d Hd Hinv Hfuel.
  - exfalso.
    assert (Hlt : inject_Z d < inject_Z bound).
    { apply Qnot_le_lt. intros Hge.
      assert (output_rate * inject_Z bound <= output_rate * inject_Z d).
      { rewrite !(Qmult_comm output_rate).
        apply Qmult_le_compat_r; lra. }
      lra. }
    rewrite <- Zlt_Qlt in Hlt. lia.
  - simpl.
    destruct (Qle_bool output_rate (input_rate / inject_Z (d + 1))) eqn:Hc.
    + apply Qle_bool_iff in Hc.
      apply Qle_div_iff in Hc; [|apply inject_Z_pos; lia].
      destruct (IH (d + 1)%Z) as (d' & Hrun & Hle & Hinv' & Hnext);
        [lia | exact Hc | |].
      * assert (Hlt : inject_Z (d + 1) < inject_Z bound).
        { apply Qnot_le_lt. intros Hge.
          assert (output_rate * inject_Z bound
                  <= output_rate * inject_Z (d + 1)).
          { rewrite !(Qmult_comm output_rate).
            apply Qmult_le_compat_r; lra. }
          lra. }
        rewrite <- Zlt_Qlt in Hlt. lia.
      * exists d'. repeat split; try assumption. lia.
    + exists d. repeat split; try assumption; try lia.
      apply Qnot_le_lt. intros Hge.
      assert (Hc' : Qle_bool output_rate (input_rate / inject_Z (d + 1)) = true).
      { apply Qle_bool_iff. apply Qle_div_iff; [apply inject_Z_pos; lia|].
        exact Hge. }
      congruence.
Qed.

(** Every positive pair of rates has an integer bound on their ratio. *)
Lemma ratio_bound (input_rate output_rate : Q) :
  0 < output_rate ->
  input_rate < output_rate * inject_Z (Qfloor (input_rate / output_rate) + 1).
Proof.
  intros Hout.
  pose proof (Qlt_floor (input_rate / output_rate)) as H.
  assert (E : input_rate == output_rate * (input_rate / output_rate))
    by (field; lra).
  rewrite E at 1.
  rewrite !(Qmult_comm output_rate).
  apply Qmult_lt_compat_r; assumption.
Qed.


(** C2.  The audio rate is 48000 when the primary demodulator is one of
    dmr, dstar, nxdn, ysf; otherwise 12000 when the secondary
    demodulator is one of ft8, wspr, jt65, jt9, ft4; otherwise the
    configured output rate. *)
Theorem get_audio_rate_by_kind (self : dsp) :
  let digital_voice :=
    In (demodulator self) ["dmr"; "dstar"; "nxdn"; "ysf"]%string in
  let weak_signal :=
    exists k, secondary_demodulator self = Some k
              /\ In k ["ft8"; "wspr"; "jt65"; "jt9"; "ft4"]%string in
  (digital_voice /\ get_audio_rate self = 48000)
  \/ (~ digital_voice /\ weak_signal /\ get_audio_rate self = 12000)
  \/ (~ digital_voice /\ ~ weak_signal
      /\ get_audio_rate self = output_rate self).
Proof.
  intros digital_voice weak_signal. subst digital_voice weak_signal.
  unfold get_audio_rate, isDigitalVoice, isWsjtMode, get_demodulator,
    get_secondary_demodulator, get_output_rate, str_in.
  destruct (existsb (String.eqb (demodulator self))
              ["dmr"; "dstar"; "nxdn"; "ysf"]%string) eqn:Hdv.
  - left. split; [|reflexivity].
    apply existsb_exists in Hdv. destruct Hdv as (x & Hin & Heq).
    apply String.eqb_eq in Heq. subst x. exact Hin.
  - right.
    assert (Hn : ~ In (demodulator self) ["dmr"; "dstar"; "nxdn"; "ysf"]%string).
    { intros Hin.
      assert (existsb (String.eqb (demodulator self))
                ["dmr"; "dstar"; "nxdn"; "ysf"]%string = true).
      { apply existsb_exists. exists (demodulator self).
        split; [exact Hin | apply String.eqb_refl]. }
      congruence. }
    destruct (secondary_demodulator self) as [k|] eqn:Hsec.
    + destruct (existsb (String.eqb k)
                  ["ft8"; "wspr"; "jt65"; "jt9"; "ft4"]%string) eqn:Hws.
      * left. split; [exact Hn|]. split; [|reflexivity].
        exists k. split; [reflexivity|].
        apply existsb_exists in Hws. destruct Hws as (x & Hin & Heq).
        apply String.eqb_eq in Heq. subst x. exact Hin.
      * right. split; [exact Hn|]. split; [|reflexivity].
        intros (k' & Hk & Hin). injection Hk as <-.
        assert (existsb (String.eqb k)
                  ["ft8"; "wspr"; "jt65"; "jt9"; "ft4"]%string = true).
        { apply existsb_exists. exists k.
          split; [exact Hin | apply String.eqb_refl]. }
        congruence.
    + right. split; [exact Hn|]. split; [|reflexivity].
      intros (k' & Hk & _). discriminate.
Qed.

End DspFacts.

(** ** The rate profile as the floats have it *)

Module DspFloatFacts.

Import Float64 Float64Facts DspFloat.
Local Open Scope Q_scope.

Lemma not_overflows (r : Q) : 0 <= r -> r < pow2 53 -> overflows r = false.
Proof.
  intros H0 H. unfold overflows.
  destruct (Qle_bool (pow2 1024) (Qabs r)) eqn:E; [|reflexivity].
  apply Qle_bool_iff in E. rewrite (Qabs_pos r H0) in E.
  pose proof (pow2_lt 53 1024 ltac:(lia)). lra.
Qed.

Section WholeRates.

Variables input_rate output_rate : Z.
Hypothesis Hout : (0 < output_rate)%Z.
Hypothesis Hle : (output_rate <= input_rate)%Z.
Hypothesis Hmax : (input_rate < 2 ^ 53)%Z.

Lemma quotient_range (d : Z) :
  (1 <= d)%Z ->
  0 < inject_Z input_rate / inject_Z d
  /\ inject_Z input_rate / inject_Z d <= inject_Z input_rate
  /\ inject_Z input_rate < pow2 53.
Proof.
  intros Hd.
  assert (HI : 0 < inject_Z input_rate)
    by (change 0 with (inject_Z 0); rewrite <- Zlt_Qlt; lia).
  assert (HD : 1 <= inject_Z d)
    by (change 1 with (inject_Z 1); rewrite <- Zle_Qle; lia).
  split; [|split].
  - apply Qlt_shift_div_l; lra.
  - apply Qle_shift_div_r; [lra|].
    rewrite <- (Qmult_1_r (inject_Z input_rate)) at 1.
    rewrite !(Qmult_comm (inject_Z input_rate)).
    apply Qmult_le_compat_r; lra.
  - apply inject_Z_lt_pow2_53, Hmax.
Qed.

(** The division of the loop: no overflow, and the comparison with the
    output rate comes out as on exact rationals. *)
Lemma loop_test (d : Z) :
  (1 <= d)%Z ->
  (output_rate * d <= input_rate)%Z ->
  exists r : Q,
    truediv (PyInt input_rate) (PyInt (d + 1)) = Ok (Finite r)
    /\ ge (Finite r) (PyInt output_rate)
       = Qle_bool (inject_Z output_rate)
           (inject_Z input_rate / inject_Z (d + 1)).
Proof.
  intros Hd Hinv.
  destruct (quotient_range (d + 1) ltac:(lia)) as (Hq0 & HqI & HI).
  set (q := inject_Z input_rate / inject_Z (d + 1)) in *.
  assert (HD : 0 < inject_Z (d + 1))
    by (change 0 with (inject_Z 0); rewrite <- Zlt_Qlt; lia).
  assert (Hq53 : q < pow2 53) by lra.
  assert (Hr0 : 0 <= round53 q).
  { apply Qle_trans with (inject_Z 0); [apply Qle_refl|].
    apply round53_ge; [assumption.. |]. change (inject_Z 0) with 0. lra. }
  assert (HrI : round53 q <= inject_Z input_rate)
    by (apply round53_le; assumption).
  exists (round53 q). split.
  - unfold truediv.
    assert (Hnz : (d + 1 =? 0)%Z = false) by (apply Z.eqb_neq; lia).
    rewrite Hnz. fold q.
    rewrite not_overflows by lra. reflexivity.
  - cbn [ge].
    destruct (Qle_bool (inject_Z output_rate) q) eqn:Hc.
    + apply Qle_bool_iff in Hc. apply Qle_bool_iff.
      apply round53_ge; assumption.
    + destruct (Qle_bool (inject_Z output_rate) (round53 q)) eqn:Hc';
        [|reflexivity].
      exfalso. apply Qle_bool_iff in Hc'.
      assert (Hlt : q < inject_Z output_rate).
      { apply Qnot_le_lt. intros H. apply Qle_bool_iff in H. congruence. }
      assert (Hstrict : round53 q < inject_Z output_rate); [|lra].
      apply round53_lt; [assumption.. |].
      (* the gap to the output rate is a whole part of the divisor *)
      assert (Hgap : (input_rate + 1 <= output_rate * (d + 1))%Z).
      { assert (input_rate < output_rate * (d + 1))%Z; [|lia].
        rewrite Zlt_Qlt, inject_Z_mult.
        apply (Qmult_lt_compat_r _ _ (inject_Z (d + 1)) HD) in Hlt.
        assert (Eq : q * inject_Z (d + 1) == inject_Z input_rate)
          by (unfold q; field; lra).
        rewrite Eq in Hlt. exact Hlt. }
      assert (HgapQ : inject_Z input_rate + 1
                      <= inject_Z output_rate * inject_Z (d + 1)).
      { rewrite <- inject_Z_mult.
        change 1 with (inject_Z 1) at 1. rewrite <- inject_Z_plus.
        rewrite <- Zle_Qle. exact Hgap. }
      (* q is at least one half *)
      assert (Hhalf : 1 # 2 <= q).
      { unfold q. apply Qle_shift_div_l; [exact HD|].
        assert (Hd2 : (d + 1 <= 2 * input_rate)%Z) by nia.
        assert (inject_Z (d + 1) <= 2 * inject_Z input_rate).
        { change 2 with (inject_Z 2). rewrite <- inject_Z_mult.
          rewrite <- Zle_Qle. exact Hd2. }
        lra. }
      assert (Hnorm : pow2 (-1022) <= q).
      { apply Qle_trans with (1 # 2); [|exact Hhalf].
        change (1 # 2) with (pow2 (-1)). apply pow2_le. lia. }
      pose proof (ulp_normal q Hnorm) as Hulp.
      (* half a unit in the last place of q is less than 1 / (d + 1),
         which is at most output_rate - q *)
      assert (Hq : q * inject_Z (d + 1) == inject_Z input_rate)
        by (unfold q; field; lra).
      assert (H53 : q * pow2 (-52) / 2 * inject_Z (d + 1) < 1).
      { assert (E : q * pow2 (-52) / 2 * inject_Z (d + 1)
                    == inject_Z input_rate * (pow2 (-52) / 2))
          by (rewrite <- Hq; field).
        rewrite E.
        assert (E2 : pow2 (-52) / 2 == / pow2 53).
        { rewrite <- (pow2_pred (-52)). apply (pow2_opp 53). }
        rewrite E2. pose proof (pow2_pos 53).
        apply Qlt_shift_div_r; [assumption | lra]. }
      apply (Qmult_lt_r _ _ (inject_Z (d + 1)) HD).
      assert (E3 : (q + pow2 (ulp_exponent q) / 2) * inject_Z (d + 1)
                   == inject_Z input_rate
                      + pow2 (ulp_exponent q) / 2 * inject_Z (d + 1))
        by (rewrite <- Hq; ring).
      rewrite E3.
      assert (pow2 (ulp_exponent q) / 2 * inject_Z (d + 1)
              <= q * pow2 (-52) / 2 * inject_Z (d + 1)).
      { apply Qmult_le_compat_r; [|lra].
        apply Qmult_le_compat_r; [exact Hulp | discriminate]. }
      lra.
Qed.


(** On whole rates the loop on floats takes the turns of the loop on exact
    rationals. *)
Lemma loop_agrees (fuel : nat) :
  forall d : Z,
    (1 <= d)%Z ->
    (output_rate * d <= input_rate)%Z ->
    get_decimation_loop fuel (PyInt input_rate) (PyInt output_rate) d
    = match Dsp.get_decimation_loop fuel (inject_Z input_rate)
              (inject_Z output_rate) d with
      | Some d' => Ok d'
      | None => OutOfFuel
      end.
Proof.
  induction fuel as [|fuel IH]; intros d Hd Hinv; [reflexivity|].
  destruct (loop_test d Hd Hinv) as (r & Hdiv & Hge).
  cbn [get_decimation_loop Dsp.get_decimation_loop].
  rewrite Hdiv. cbn [bind]. rewrite Hge.
  destruct (Qle_bool (inject_Z output_rate)
              (inject_Z input_rate / inject_Z (d + 1))) eqn:Hc;
    [|reflexivity].
  apply IH; [lia|].
  apply Qle_bool_iff in Hc.
  apply DspFacts.Qle_div_iff in Hc; [|apply DspFacts.inject_Z_pos; lia].
  rewrite Zle_Qle, inject_Z_mult. exact Hc.
Qed.

End WholeRates.


Lemma Qeq_bool_false (x : Q) : 0 < x -> Qeq_bool x 0 = false.
Proof.
  intros H. destruct (Qeq_bool x 0) eqn:E; [|reflexivity].
  apply Qeq_bool_eq in E. lra.
Qed.

(** The second division of [get_decimation]: a float of at least the
    whole divisor, divided by it. *)
Lemma fraction_division (q : Q) (output_rate : Z) (bound : Z) :
  (0 < output_rate)%Z -> (output_rate < 2 ^ 53)%Z -> (bound < 2 ^ 53)%Z ->
  inject_Z output_rate <= q -> q <= inject_Z bound ->
  exists f : Q,
    truediv (PyFloat (Finite q)) (PyInt output_rate) = Ok (Finite f)
    /\ f == round53 (q / inject_Z output_rate)
    /\ q / inject_Z output_rate * (1 - pow2 (-53)) <= f
    /\ f <= q / inject_Z output_rate * (1 + pow2 (-53)).
Proof.
  intros Hout Hmax Hbound Hlo Hhi.
  assert (HO : 0 < inject_Z output_rate)
    by (apply DspFacts.inject_Z_pos; lia).
  assert (H1 : 1 <= inject_Z output_rate)
    by (change 1 with (inject_Z 1); rewrite <- Zle_Qle; lia).
  pose proof (round53_int output_rate Hout Hmax) as EO.
  set (x := q / inject_Z output_rate).
  assert (Hx1 : 1 <= x).
  { unfold x. apply Qle_shift_div_l; [exact HO | lra]. }
  assert (Hxq : x <= q).
  { unfold x. apply Qle_shift_div_r; [exact HO|].
    rewrite <- (Qmult_1_r q) at 1. rewrite !(Qmult_comm q).
    apply Qmult_le_compat_r; lra. }
  pose proof (inject_Z_lt_pow2_53 bound Hbound) as Hb53.
  assert (Hr1 : inject_Z 1 <= round53 x)
    by (apply round53_ge; [lra | lra | exact Hx1]).
  assert (Hrb : round53 x <= inject_Z bound)
    by (apply round53_le; lra).
  exists (round53 (q / round53 (inject_Z output_rate))).
  assert (E : round53 (q / round53 (inject_Z output_rate)) == round53 x).
  { unfold x. rewrite EO. reflexivity. }
  split; [|split; [exact E|]].
  - unfold truediv, to_float, bind.
    rewrite (not_overflows (round53 (inject_Z output_rate)))
      by (rewrite EO; first [lra | apply inject_Z_lt_pow2_53, Hmax]).
    unfold float_div.
    rewrite Qeq_bool_false by (rewrite EO; exact HO).
    rewrite not_overflows; [reflexivity | |].
    + rewrite E. change (inject_Z 1) with 1 in Hr1. lra.
    + rewrite E. lra.
  - rewrite E. apply round53_relative. apply one_is_normal, Hx1.
Qed.

(** C1.  For whole rates with [0 < output_rate <= input_rate < 2^53],
    [get_decimation] returns (it needs finitely many turns of its loop)
    a decimation [d >= 1] with [input_rate / d >= output_rate] and
    [input_rate / (d + 1) < output_rate] as exact quotients, which is the
    largest integer with the first property and the decimation of the
    version on exact rationals; the fraction is the float
    [(input_rate / d) / output_rate], each of the two divisions rounded
    to the nearest float, which lies within the factors [(1 - 2^-53)^2]
    and [(1 + 2^-53)^2] of the exact quotient.  For the rates 250000 and
    11025 the decimation is 22 and the fraction, the float
    4641929114997419 / 2^52, lies between 1.0307 and 1.0308. *)
Theorem get_decimation_largest (input_rate output_rate : Z) :
  (0 < output_rate)%Z ->
  (output_rate <= input_rate)%Z ->
  (input_rate < 2 ^ 53)%Z ->
  (exists fuel0 : nat, forall fuel : nat, (fuel0 <= fuel)%nat ->
     exists (d : Z) (fraction intermediate_rate : Q),
       get_decimation fuel (PyInt input_rate) (PyInt output_rate)
       = Ok (d, Finite fraction, Finite intermediate_rate)
       /\ (1 <= d)%Z
       /\ inject_Z output_rate <= inject_Z input_rate / inject_Z d
       /\ inject_Z input_rate / inject_Z (d + 1) < inject_Z output_rate
       /\ (forall d' : Z,
             (1 <= d')%Z ->
             inject_Z output_rate <= inject_Z input_rate / inject_Z d' ->
             (d' <= d)%Z)
       /\ intermediate_rate == round53 (inject_Z input_rate / inject_Z d)
       /\ fraction
          == round53 (round53 (inject_Z input_rate / inject_Z d)
                      / inject_Z output_rate)
       /\ inject_Z input_rate / inject_Z d / inject_Z output_rate
          * (1 - pow2 (-53)) * (1 - pow2 (-53)) <= fraction
       /\ fraction
          <= inject_Z input_rate / inject_Z d / inject_Z output_rate
             * (1 + pow2 (-53)) * (1 + pow2 (-53))
       /\ Dsp.get_decimation fuel (inject_Z input_rate)
            (inject_Z output_rate)
          = Dsp.Ok (d,
                    inject_Z input_rate / inject_Z d / inject_Z output_rate,
                    inject_Z input_rate / inject_Z d))
  /\ (exists fraction intermediate_rate : Q,
        get_decimation 22 (PyInt 250000) (PyInt 11025)
        = Ok (22%Z, Finite fraction, Finite intermediate_rate)
        /\ fraction == 4641929114997419 # 4503599627370496
        /\ 10307 # 10000 < fraction
        /\ fraction < 10308 # 10000).
Proof.
  intros Hout Hle Hmax. split.
  - set (I := inject_Z input_rate). set (O := inject_Z output_rate).
    assert (HO : 0 < O) by (apply DspFacts.inject_Z_pos; lia).
    set (bound := (Qfloor (I / O) + 1)%Z).
    exists (Z.to_nat (bound - 1)). intros fuel Hfuel.
    destruct (DspFacts.get_decimation_loop_stops I O bound HO
                (DspFacts.ratio_bound I O HO) fuel 1%Z)
      as (d & Hrun & Hd & Hinv & Hnext); [lia | | exact Hfuel |].
    { change (inject_Z 1) with 1. rewrite Qmult_1_r.
      unfold I, O. rewrite <- Zle_Qle. exact Hle. }
    assert (HD : 0 < inject_Z d) by (apply DspFacts.inject_Z_pos; lia).
    assert (Hq : O <= I / inject_Z d)
      by (apply DspFacts.Qle_div_iff; [exact HD | exact Hinv]).
    destruct (quotient_range input_rate output_rate Hout Hle Hmax d Hd)
      as (Hq0 & HqI & HI); fold I in Hq0, HqI, HI.
    set (q := I / inject_Z d) in *.
    assert (Hq53 : q < pow2 53)
      by (apply inject_Z_lt_pow2_53 in Hmax; fold I in Hmax; lra).
    assert (Hr_lo : O <= round53 q) by (apply round53_ge; assumption).
    assert (Hr_hi : round53 q <= I) by (apply round53_le; assumption).
    destruct (fraction_division (round53 q) output_rate input_rate Hout
                ltac:(lia) Hmax Hr_lo Hr_hi)
      as (f & Hf & Ef & Hf_lo & Hf_hi).
    exists d, f, (round53 q).
    split.
    { unfold get_decimation.
      rewrite (loop_agrees input_rate output_rate Hout Hle Hmax fuel 1%Z)
        by lia.
      fold I O. rewrite Hrun. cbn [bind].
      assert (Hdiv : truediv (PyInt input_rate) (PyInt d)
                     = Ok (Finite (round53 q))).
      { unfold truediv.
        assert (Hnz : (d =? 0)%Z = false) by (apply Z.eqb_neq; lia).
        rewrite Hnz. fold I. fold q.
        rewrite not_overflows; [reflexivity | | lra].
        apply Qle_trans with O; lra. }
      rewrite Hdiv. cbn [bind]. rewrite Hf. reflexivity. }
    split; [exact Hd|]. split; [exact Hq|]. split; [|split].
    + apply Qlt_shift_div_r; [apply DspFacts.inject_Z_pos; lia|]. exact Hnext.
    + intros d' Hd' Hb.
      apply DspFacts.Qle_div_iff in Hb; [|apply DspFacts.inject_Z_pos; lia].
      assert (Hlt : inject_Z d' < inject_Z (d + 1)).
      { apply Qnot_le_lt. intros Hge.
        assert (O * inject_Z (d + 1) <= O * inject_Z d').
        { rewrite !(Qmult_comm O). apply Qmult_le_compat_r; lra. }
        lra. }
      rewrite <- Zlt_Qlt in Hlt. lia.
    + split; [reflexivity|]. split; [exact Ef|].
      assert (H1 : 1 <= O)
        by (unfold O; change 1 with (inject_Z 1); rewrite <- Zle_Qle; lia).
      assert (Hqn : pow2 (-1022) <= q) by (apply one_is_normal; lra).
      destruct (round53_relative q Hqn) as [Hq_lo Hq_hi].
      pose proof (pow2_pos (-53)) as Hu.
      assert (Hu1 : pow2 (-53) < 1)
        by (change 1 with (pow2 0); apply pow2_lt; lia).
      set (u := pow2 (-53)) in *.
      assert (Einv : forall a : Q, a / O == a * / O) by (intros a; reflexivity).
      assert (HinvO : 0 <= / O) by (apply Qlt_le_weak, Qinv_lt_0_compat, HO).
      assert (Hx_lo : q / O * (1 - u) <= round53 q / O).
      { assert (E1 : q / O * (1 - u) == q * (1 - u) * / O) by (field; lra).
        rewrite E1, Einv. apply Qmult_le_compat_r; assumption. }
      assert (Hx_hi : round53 q / O <= q / O * (1 + u)).
      { assert (E1 : q / O * (1 + u) == q * (1 + u) * / O) by (field; lra).
        rewrite E1, Einv. apply Qmult_le_compat_r; assumption. }
      split; [|split].
      * apply Qle_trans with (round53 q / O * (1 - u)); [|exact Hf_lo].
        apply Qmult_le_compat_r; [exact Hx_lo | lra].
      * apply Qle_trans with (round53 q / O * (1 + u)); [exact Hf_hi|].
        apply Qmult_le_compat_r; [exact Hx_hi | lra].
      * unfold Dsp.get_decimation. fold I O. rewrite Hrun.
        rewrite (Qeq_bool_false O HO). reflexivity.
  - eexists _, _. split; [vm_compute; reflexivity|].
    split; [vm_compute; reflexivity|]. split; vm_compute; reflexivity.
Qed.

Lemma get_decimation_largest_witness :
  (0 < 250000)%Z /\ (11025 <= 250000)%Z /\ (250000 < 2 ^ 53)%Z
  /\ exists fuel0 : nat, forall fuel : nat, (fuel0 <= fuel)%nat ->
       exists (d : Z) (fraction intermediate_rate : Q),
         get_decimation fuel (PyInt 250000) (PyInt 11025)
         = Ok (d, Finite fraction, Finite intermediate_rate)
         /\ (1 <= d)%Z
         /\ inject_Z 11025 <= inject_Z 250000 / inject_Z d
         /\ inject_Z 250000 / inject_Z (d + 1) < inject_Z 11025.
Proof.
  split; [reflexivity|]. split; [discriminate|]. split; [reflexivity|].
  destruct (get_decimation_largest 250000 11025) as [H _];
    [reflexivity | discriminate | reflexivity |].
  destruct H as [fuel0 H]. exists fuel0. intros fuel Hfuel.
  destruct (H fuel Hfuel) as (d & f & i & H1 & H2 & H3 & H4 & _).
  exists d, f, i. repeat split; assumption.
Defined.

(** C1 as the specification states it fails on rates of [2^53] and more.
    For the whole rates 27021597764222975 and [2^53] the exact quotient by
    3 is a third below [2^53]; the division rounds it to [2^53], the loop
    takes the decimation 3, and the input rate over the decimation
    returned is below the output rate.  The fraction returned is 1. *)
Lemma get_decimation_rounds_up :
  (0 < 2 ^ 53 <= 27021597764222975)%Z
  /\ (exists fraction intermediate_rate : Q,
        get_decimation 3 (PyInt 27021597764222975) (PyInt (2 ^ 53))
        = Ok (3%Z, Finite fraction, Finite intermediate_rate)
        /\ fraction == 1
        /\ intermediate_rate == inject_Z (2 ^ 53))
  /\ inject_Z 27021597764222975 / inject_Z 3 < inject_Z (2 ^ 53)
  /\ Dsp.get_decimation 3 (inject_Z 27021597764222975) (inject_Z (2 ^ 53))
     = Dsp.Ok (2%Z,
               inject_Z 27021597764222975 / inject_Z 2 / inject_Z (2 ^ 53),
               inject_Z 27021597764222975 / inject_Z 2).
Proof.
  split; [lia|]. split.
  - eexists _, _. split; [vm_compute; reflexivity|].
    split; vm_compute; reflexivity.
  - split; [vm_compute; reflexivity|]. reflexivity.
Qed.

End DspFloatFacts.


(** ** The stages of the primary chain, and the setters *)

Module ChainFacts.

Import Py Dsp.
Local Open Scope string_scope.
Local Open Scope list_scope.

Lemma has_stage_In (stage : string) (stages : list string) :
  has_stage stage stages = true <-> In stage stages.
Proof.
  unfold has_stage. rewrite existsb_exists. split.
  - intros (x & Hin & Heq). apply String.eqb_eq in Heq. subst x. exact Hin.
  - intros Hin. exists stage. split; [exact Hin | apply String.eqb_refl].
Qed.

Lemma Qneq_bool_true (a b : Q) : Qneq_bool a b = true <-> ~ (a == b)%Q.
Proof.
  unfold Qneq_bool. destruct (Qeq_bool a b) eqn:E; simpl.
  - apply Qeq_bool_eq in E. split; [discriminate | tauto].
  - apply Qeq_bool_neq in E. tauto.
Qed.

(** The chain of a demodulating kind has the fractional stage exactly
    when the test of [last_decimation] in [chain] succeeds. *)
Lemma chain_has_fractional_stage (self : dsp) (which : string) (ld : Q) :
  In which ["nfm"; "am"; "ssb"; "dmr"; "dstar"; "nxdn"; "ysf"] ->
  last_decimation self = Some ld ->
  exists stages,
    chain self which = Ok stages
    /\ has_stage fractional_stage stages = Qneq_bool ld 1.
Proof.
  intros Hwhich Hld. unfold chain. rewrite Hld.
  generalize (csdr_dynamic_bufsize self) (csdr_through self)
    (truthy (secondary_demodulator self)) (Qneq_bool ld 1)
    (audio_compression self =? "adpcm")
    (isWsjtMode self None
     && Qneq_bool (get_audio_rate self) (get_output_rate self))%bool.
  intros b1 b2 b3 b4 b5 b6.
  repeat (destruct Hwhich as [<- | Hwhich];
          [eexists; split; [reflexivity|] |]);
    [.. | contradiction].
  all: vm_compute.
  all: destruct b1, b2, b3, b4, b5, b6; reflexivity.
Qed.

(** C6.  For each of the kinds nfm, am, ssb, dmr, dstar, nxdn and ysf,
    and once the rate profile has been computed, [chain] returns a list
    of stages that contains the fractional decimator if and only if
    [last_decimation] differs from 1. *)
Theorem chain_fractional_stage_iff (self : dsp) (which : string) (ld : Q) :
  In which ["nfm"; "am"; "ssb"; "dmr"; "dstar"; "nxdn"; "ysf"] ->
  last_decimation self = Some ld ->
  exists stages,
    chain self which = Ok stages
    /\ (In "csdr fractional_decimator_ff {last_decimation}" stages
        <-> ~ (ld == 1)%Q).
Proof.
  intros Hwhich Hld.
  destruct (chain_has_fractional_stage self which ld Hwhich Hld)
    as (stages & Hchain & Hhas).
  exists stages. split; [exact Hchain|].
  rewrite <- Qneq_bool_true, <- Hhas. symmetry. apply has_stage_In.
Qed.

Lemma chain_fractional_stage_iff_witness :
  exists stages,
    chain (with_decimation 22 (250000 # 242550) init) "nfm" = Ok stages
    /\ (In "csdr fractional_decimator_ff {last_decimation}" stages
        <-> ~ (250000 # 242550 == 1)%Q).
Proof.
  apply (chain_fractional_stage_iff
           (with_decimation 22 (250000 # 242550) init) "nfm").
  - simpl. left. reflexivity.
  - reflexivity.
Defined.

(** C5.  On a running chain whose squelch channel is open,
    [set_squelch_level s] stores [s] in [squelch_level] and writes one
    line to the channel: the value 0 when the primary demodulator is
    one of dmr, dstar, nxdn, ysf, and [s] otherwise. *)
Theorem set_squelch_level_writes (s : Q) (self : dsp) (written : list line) :
  running self = true ->
  squelch_pipe_file self = Some written ->
  exists self',
    set_squelch_level s self = Ok self'
    /\ squelch_level self' = s
    /\ (In (demodulator self) ["dmr"; "dstar"; "nxdn"; "ysf"] ->
        squelch_pipe_file self' = Some (written ++ [PercentG 0]))
    /\ (~ In (demodulator self) ["dmr"; "dstar"; "nxdn"; "ysf"] ->
        squelch_pipe_file self' = Some (written ++ [PercentG s])).
Proof.
  intros Hrun Hpipe.
  unfold set_squelch_level. simpl. rewrite Hrun, Hpipe.
  eexists. split; [reflexivity|]. split; [reflexivity|].
  unfold isDigitalVoice, get_demodulator, str_in. simpl demodulator.
  change (existsb (String.eqb (demodulator self))
            ["dmr"; "dstar"; "nxdn"; "ysf"])
    with (has_stage (demodulator self) ["dmr"; "dstar"; "nxdn"; "ysf"]).
  pose proof (has_stage_In (demodulator self)
                ["dmr"; "dstar"; "nxdn"; "ysf"]) as HIn.
  destruct (has_stage (demodulator self) ["dmr"; "dstar"; "nxdn"; "ysf"]).
  - split; [reflexivity|]. intros Hn. exfalso. apply Hn.
    apply (proj1 HIn). reflexivity.
  - split; [|reflexivity]. intros Hin. apply (proj2 HIn) in Hin.
    discriminate.
Qed.

Lemma set_squelch_level_writes_witness :
  exists self',
    set_squelch_level (-150)
      (with_squelch_pipe_file (Some [])
         (with_running true (with_demodulator "dmr" init)))
    = Ok self'
    /\ squelch_level self' = (-150)%Q
    /\ squelch_pipe_file self' = Some [PercentG 0].
Proof.
  destruct (set_squelch_level_writes (-150)
              (with_squelch_pipe_file (Some [])
                 (with_running true (with_demodulator "dmr" init)))
              [] eq_refl eq_refl)
    as (self' & Hset & Hlevel & Hdv & _).
  exists self'. split; [exact Hset|]. split; [exact Hlevel|].
  apply Hdv. simpl. left. reflexivity.
Defined.

Lemma opt_str_eqb_refl (a : option string) : opt_str_eqb a a = true.
Proof. destruct a; simpl; [apply String.eqb_refl | reflexivity]. Qed.

(** C10.  [set_demodulator k] on an object whose primary demodulator
    is already [k] returns the object as it was: no attribute changes,
    the rate profile is not computed again (the call returns even
    without fuel for the loop of [get_decimation]) and nothing happens
    to the process group.  The same holds for
    [set_secondary_demodulator]. *)
Theorem set_same_demodulator_noop (fuel : nat) (self : dsp) :
  set_demodulator fuel (demodulator self) self = Ok self
  /\ set_secondary_demodulator fuel (secondary_demodulator self) self
     = Ok self.
Proof.
  unfold set_demodulator, set_secondary_demodulator,
    get_secondary_demodulator.
  rewrite String.eqb_refl, opt_str_eqb_refl. split; reflexivity.
Qed.

(** A change of kind is not a no-op: on a running chain it computes the
    rate profile for the new kind and restarts the process group. *)
Example set_other_demodulator_restarts :
  exists s0 s1 s2,
    calculate_decimation 30 init = Ok s0
    /\ start s0 = Ok s1
    /\ processes s1 <> []
    /\ set_demodulator 30 "dmr" s1 = Ok s2
    /\ demodulator s2 = "dmr"
    /\ decimation s1 = Some 22%Z
    /\ decimation s2 = Some 5%Z
    /\ List.length (processes s2) = 3%nat.
Proof.
  do 3 eexists.
  split; [vm_compute; reflexivity|].
  split; [vm_compute; reflexivity|].
  split; [discriminate|].
  split; [vm_compute; reflexivity|].
  repeat split.
Qed.

End ChainFacts.

(** ** The chopper: rotation times and the order of the hand-over *)

Module ChopperFacts.

Import Float64 Float64Facts Chopper ChopperClock.
Local Open Scope Z_scope.

Lemma int_of_Q_nonneg (x : Q) : (0 <= x)%Q -> Py.int_of_Q x = Qfloor x.
Proof.
  destruct x as [num den]. unfold Qle, Py.int_of_Q, Qfloor. simpl.
  intros H. apply Z.quot_div_nonneg; lia.
Qed.

Lemma round_half_even_integer (x : Q) (z : Z) :
  (x == inject_Z z)%Q -> round_half_even x = z.
Proof.
  intros E. unfold round_half_even.
  assert (Hf : Qfloor x = z) by (rewrite (Qfloor_comp _ _ E); apply Qfloor_Z).
  rewrite Hf.
  destruct (Qcompare_spec (x - inject_Z z) (1 # 2)) as [He | Hl | Hg].
  - exfalso. rewrite E in He. lra.
  - reflexivity.
  - exfalso. rewrite E in Hg. lra.
Qed.

Lemma inject_Z_sub (a b : Z) : (inject_Z (a - b) == inject_Z a - inject_Z b)%Q.
Proof. unfold Z.sub. rewrite inject_Z_plus, inject_Z_opp. reflexivity. Qed.

Lemma Qfloor_between (x : Q) (k : Z) :
  (inject_Z k <= x)%Q -> (x < inject_Z (k + 1))%Q -> Qfloor x = k.
Proof.
  intros Hlo Hhi.
  pose proof (Qfloor_le x) as H1. pose proof (Qlt_floor x) as H2.
  assert (H3 : (inject_Z (Qfloor x) < inject_Z (k + 1))%Q) by lra.
  assert (H4 : (inject_Z k < inject_Z (Qfloor x + 1))%Q) by lra.
  rewrite <- Zlt_Qlt in H3, H4. lia.
Qed.

(** The rounding errors met below are far smaller than a nanosecond. *)
Lemma rounding_is_small : (3600 * pow2 (-53) <= 1 # 1000000000000)%Q.
Proof. vm_compute. discriminate. Qed.

Lemma nanosecond_is_normal : (pow2 (-1022) <= 1 # 1000000000)%Q.
Proof.
  apply Qle_trans with (pow2 (-30)); [apply pow2_le; lia|].
  vm_compute. discriminate.
Qed.

(** The quotient of the time since the top of the hour by the interval,
    as the floats have it, truncates to the number of whole intervals:
    the time is a whole number of microseconds, so the quotient is a
    whole number or far from one. *)
Lemma quotient_truncates (interval : Q) (n delta : Z) :
  (1 <= interval)%Q -> (interval <= 120)%Q ->
  (interval * 1000000 == inject_Z n)%Q ->
  0 <= delta < 3600000000 ->
  (round53 (inject_Z (delta / n) * interval)
   == inject_Z (delta / n) * interval)%Q ->
  Py.int_of_Q (round53 (total_seconds delta / interval)) = delta / n.
Proof.
  intros HI1 HI2 Hn Hd Hrep.
  assert (Hn0 : 1000000 <= n).
  { rewrite Zle_Qle, <- Hn. change (inject_Z 1000000) with 1000000%Q. lra. }
  pose proof (Z.div_mod delta n ltac:(lia)) as Hdm.
  pose proof (Z.mod_pos_bound delta n ltac:(lia)) as Hr.
  set (k := delta / n) in *. set (r := delta mod n) in *.
  assert (Hk : 0 <= k < 3600).
  { split; [apply Z.div_pos; lia | apply Z.div_lt_upper_bound; lia]. }
  assert (HkQ : (0 <= inject_Z k)%Q /\ (inject_Z k + 1 <= 3600)%Q).
  { split.
    - change 0%Q with (inject_Z 0). rewrite <- Zle_Qle. lia.
    - change 1%Q with (inject_Z 1). change 3600%Q with (inject_Z 3600).
      rewrite <- inject_Z_plus, <- Zle_Qle. lia. }
  destruct HkQ as [Hk0 Hk1].
  unfold total_seconds. set (x := (inject_Z delta / 1000000)%Q).
  assert (Ex : (x == inject_Z k * interval + inject_Z r * (1 # 1000000))%Q).
  { unfold x. rewrite Hdm, inject_Z_plus, inject_Z_mult, <- Hn. field. }
  set (kI := (inject_Z k * interval)%Q) in *.
  destruct (Z.eq_dec r 0) as [Hr0 | Hr0].
  - assert (Exk : (x == kI)%Q) by (rewrite Ex, Hr0; ring).
    assert (EX : (round53 x == kI)%Q) by (rewrite Exk; exact Hrep).
    assert (EY : (round53 x / interval == inject_Z k)%Q).
    { rewrite EX. unfold kI. field. lra. }
    assert (Eq : (round53 (round53 x / interval) == inject_Z k)%Q).
    { rewrite EY. apply round53_whole; lia. }
    rewrite int_of_Q_nonneg by (rewrite Eq; exact Hk0).
    rewrite (Qfloor_comp _ _ Eq). apply Qfloor_Z.
  - assert (Hr1 : (1 <= inject_Z r)%Q)
      by (change 1%Q with (inject_Z 1); rewrite <- Zle_Qle; lia).
    assert (Hr2 : (inject_Z r <= interval * 1000000 - 1)%Q).
    { rewrite Hn. change 1%Q with (inject_Z 1).
      rewrite <- inject_Z_sub, <- Zle_Qle. lia. }
    assert (HkI : (0 <= kI)%Q) by (apply Qmult_le_0_compat; lra).
    assert (HkI2 : (kI + interval <= 3600 * interval)%Q).
    { assert (E : (kI + interval == (inject_Z k + 1) * interval)%Q)
        by (unfold kI; ring).
      rewrite E. apply Qmult_le_compat_r; lra. }
    pose proof rounding_is_small as Hsmall.
    pose proof nanosecond_is_normal as Hnano.
    set (eps := (3600 * pow2 (-53))%Q) in *.
    assert (Hx3600 : (x <= 3600)%Q).
    { unfold x. apply Qle_shift_div_r; [reflexivity|].
      change (3600 * 1000000)%Q with (inject_Z 3600000000).
      rewrite <- Zle_Qle. lia. }
    destruct (round53_near x 3600) as [HX_lo HX_hi]; [lra | exact Hx3600 |].
    fold eps in HX_lo, HX_hi.
    set (X := round53 x) in *.
    set (delta9 := (1 # 1000000000)%Q).
    assert (HY_lo : (inject_Z k + delta9 <= X / interval)%Q).
    { apply Qle_shift_div_l; [lra|].
      assert (E : ((inject_Z k + delta9) * interval
                   == kI + delta9 * interval)%Q) by (unfold kI; ring).
      rewrite E. unfold delta9. lra. }
    assert (HY_hi : (X / interval <= inject_Z k + 1 - delta9)%Q).
    { apply Qle_shift_div_r; [lra|].
      assert (E : ((inject_Z k + 1 - delta9) * interval
                   == kI + interval - delta9 * interval)%Q)
        by (unfold kI; ring).
      rewrite E. unfold delta9. lra. }
    set (Y := (X / interval)%Q) in *.
    destruct (round53_near Y 3600) as [Hq_lo Hq_hi];
      [unfold delta9 in *; lra | unfold delta9 in *; lra |].
    fold eps in Hq_lo, Hq_hi.
    assert (Hq0 : (inject_Z k <= round53 Y)%Q) by (unfold delta9 in *; lra).
    assert (Hq1 : (round53 Y < inject_Z (k + 1))%Q).
    { rewrite inject_Z_plus. change (inject_Z 1) with 1%Q.
      unfold delta9 in *. lra. }
    rewrite int_of_Q_nonneg by lra.
    apply Qfloor_between; assumption.
Qed.

(** [timedelta(seconds = s)] for a number of seconds that is a whole
    number of microseconds. *)
Lemma timedelta_of_whole_microseconds (s : Q) (z : Z) :
  (0 <= s)%Q -> (s * 1000000 == inject_Z z)%Q ->
  timedelta_of_seconds s = z.
Proof.
  intros Hs Hz. unfold timedelta_of_seconds.
  rewrite (int_of_Q_nonneg s Hs).
  pose proof (Qfloor_le s) as H1. pose proof (Qlt_floor s) as H2.
  set (w := Qfloor s) in *.
  rewrite inject_Z_plus in H2. change (inject_Z 1) with 1%Q in H2.
  assert (E : ((s - inject_Z w) * 1000000 == inject_Z (z - w * 1000000))%Q).
  { rewrite inject_Z_sub, inject_Z_mult, <- Hz.
    change (inject_Z 1000000) with 1000000%Q. ring. }
  assert (Hm : 0 <= z - w * 1000000 < 1000000).
  { split.
    - rewrite Zle_Qle. rewrite <- E. change (inject_Z 0) with 0%Q. lra.
    - rewrite Zlt_Qlt. rewrite <- E. change (inject_Z 1000000) with 1000000%Q.
      lra. }
  rewrite (round_half_even_integer _ (z - w * 1000000)); [lia|].
  rewrite E. apply round53_whole; lia.
Qed.

(** Where the offset of local time is the same for two days around the
    second [c] of the epoch, [_mktime] takes that offset off, for a local
    time within the hour around [c]. *)
Lemma _mktime_constant_offset (tz : timezone) (off c t : Z) :
  (forall u : Z, c - 172800 <= u <= c + 172800 -> tz u = off) ->
  -86400 <= off <= 86400 ->
  c - 3600 <= t - off <= c + 3600 ->
  _mktime tz t = t - off.
Proof.
  intros Htz Hoff Ht. unfold _mktime, local.
  rewrite (Htz t) by lia.
  replace (t + off - t) with off by lia.
  rewrite (Htz (t - off)) by lia.
  replace (t - off + off) with t by lia.
  rewrite Z.eqb_refl.
  rewrite (Htz (t - off - 24 * 3600)) by lia.
  replace (t - off - 24 * 3600 + off - (t - off - 24 * 3600)) with off by lia.
  rewrite Z.eqb_refl. reflexivity.
Qed.

(** [timestamp] of a local time on a whole or half second, after 1970. *)
Lemma timestamp_constant_offset (tz : timezone) (off c : Z) (t : datetime) :
  (forall u : Z, c - 172800 <= u <= c + 172800 -> tz u = off) ->
  -86400 <= off <= 86400 ->
  c - 3600 <= t / 1000000 - off <= c + 3600 ->
  0 <= t / 1000000 - off < 2 ^ 52 ->
  t mod 500000 = 0 ->
  (timestamp tz t == inject_Z (t - off * 1000000) / 1000000)%Q.
Proof.
  intros Htz Hoff Ht Hpos Hhalf. unfold timestamp.
  rewrite (_mktime_constant_offset tz off c _ Htz Hoff Ht).
  pose proof (Z.div_mod t 1000000 ltac:(lia)) as Hdm.
  pose proof (Z.mod_pos_bound t 1000000 ltac:(lia)) as Hus.
  set (s := t / 1000000) in *. set (us := t mod 1000000) in *.
  rewrite (round53_whole (s - off)) by lia.
  assert (Hus2 : us = 0 \/ us = 500000).
  { pose proof (Z.div_mod t 500000 ltac:(lia)) as H5. rewrite Hhalf in H5.
    pose proof (Z.div_mod (t / 500000) 2 ltac:(lia)) as H2.
    pose proof (Z.mod_pos_bound (t / 500000) 2 ltac:(lia)) as Hb.
    assert (E : 500000 * ((t / 500000) mod 2) = us).
    { unfold us. apply (Z.mod_unique t 1000000 (t / 500000 / 2)); lia. }
    lia. }
  assert (Et : (inject_Z (t - off * 1000000) / 1000000
                == inject_Z (s - off) + inject_Z us * (1 # 1000000))%Q).
  { rewrite Hdm at 1.
    rewrite !inject_Z_sub, !inject_Z_plus, !inject_Z_mult.
    change (inject_Z 1000000) with 1000000%Q. field. }
  rewrite Et.
  destruct Hus2 as [E | E]; rewrite E.
  - assert (E0 : (round53 (inject_Z 0 / 1000000) == 0)%Q)
      by (apply round53_zero; reflexivity).
    rewrite E0. 
    assert (E1 : (inject_Z (s - off) + 0 == inject_Z (s - off))%Q) by ring.
    assert (E2 : (inject_Z (s - off) + inject_Z 0 * (1 # 1000000)
                  == inject_Z (s - off))%Q) by ring.
    rewrite E1, E2. apply round53_whole; lia.
  - assert (E0 : (round53 (inject_Z 500000 / 1000000) == inject_Z 1 / 2)%Q).
    { assert (Eh : (inject_Z 500000 / 1000000 == inject_Z 1 / 2)%Q)
        by reflexivity.
      rewrite Eh. apply round53_halves; lia. }
    rewrite E0.
    assert (E1 : (inject_Z (s - off) + inject_Z 1 / 2
                  == inject_Z (2 * (s - off) + 1) / 2)%Q).
    { rewrite inject_Z_plus, inject_Z_mult. field. }
    assert (E2 : (inject_Z (s - off) + inject_Z 500000 * (1 # 1000000)
                  == inject_Z (2 * (s - off) + 1) / 2)%Q).
    { rewrite inject_Z_plus, inject_Z_mult. 
      change (inject_Z 500000 * (1 # 1000000))%Q with (500000 # 1000000)%Q.
      field. }
    rewrite E1, E2. apply round53_halves; lia.
Qed.


(** The intervals of the five choppers: whole or half seconds between
    one second and two minutes, whose multiples up to an hour are
    floats. *)
Lemma class_interval_facts (c : chopper_class) (n : Z) :
  (class_interval c * 1000000 == inject_Z n)%Q ->
  (1 <= class_interval c)%Q /\ (class_interval c <= 120)%Q
  /\ (exists m : Z, n = 500000 * m /\ 2 <= m <= 240)
  /\ (exists m : Z, 3600000000 = m * n)
  /\ (forall j : Z, 0 <= j <= 3600 ->
        (round53 (inject_Z j * class_interval c)
         == inject_Z j * class_interval c)%Q).
Proof.
  intros Hn.
  assert (Hwhole : forall (i j : Z),
            0 < i <= 120 -> 0 <= j <= 3600 ->
            (round53 (inject_Z j * inject_Z i) == inject_Z j * inject_Z i)%Q).
  { intros i j Hi Hj. rewrite <- inject_Z_mult.
    apply round53_whole; [nia|].
    apply Z.le_lt_trans with (3600 * 120); [nia | reflexivity]. }
  destruct c; cbn [class_interval] in *.
  - assert (E : n = 15000000)
      by (apply eq_sym, inject_Z_injective; rewrite <- Hn; reflexivity).
    subst n. split; [discriminate|]. split; [discriminate|].
    split; [exists 30; lia|]. split; [exists 240; reflexivity|].
    intros j Hj. apply (Hwhole 15 j); lia.
  - assert (E : n = 120000000)
      by (apply eq_sym, inject_Z_injective; rewrite <- Hn; reflexivity).
    subst n. split; [discriminate|]. split; [discriminate|].
    split; [exists 240; lia|]. split; [exists 30; reflexivity|].
    intros j Hj. apply (Hwhole 120 j); lia.
  - assert (E : n = 60000000)
      by (apply eq_sym, inject_Z_injective; rewrite <- Hn; reflexivity).
    subst n. split; [discriminate|]. split; [discriminate|].
    split; [exists 120; lia|]. split; [exists 60; reflexivity|].
    intros j Hj. apply (Hwhole 60 j); lia.
  - assert (E : n = 60000000)
      by (apply eq_sym, inject_Z_injective; rewrite <- Hn; reflexivity).
    subst n. split; [discriminate|]. split; [discriminate|].
    split; [exists 120; lia|]. split; [exists 60; reflexivity|].
    intros j Hj. apply (Hwhole 60 j); lia.
  - assert (E : n = 7500000)
      by (apply eq_sym, inject_Z_injective; rewrite <- Hn; reflexivity).
    subst n. split; [discriminate|]. split; [discriminate|].
    split; [exists 15; lia|]. split; [exists 480; reflexivity|].
    intros j Hj.
    assert (E : (inject_Z j * (75 # 10) == inject_Z (15 * j) / 2)%Q).
    { rewrite inject_Z_mult. change (inject_Z 15) with 15%Q. field. }
    rewrite E. apply round53_halves; [lia|].
    apply Z.le_lt_trans with (15 * 3600); [lia | reflexivity].
Qed.

(** Where the offset of local time does not change around [now], the
    result of [getNextDecodingTime] is the next multiple of the interval
    after the top of the local hour, taken back to the epoch. *)
Lemma getNextDecodingTime_constant_offset (tz : timezone)
    (c : chopper_class) (n off now : Z) :
  (class_interval c * 1000000 == inject_Z n)%Q ->
  constant_offset tz off now ->
  in_calendar now ->
  let local_now := now + off * 1000000 in
  let zeroed := replace_to_hour local_now in
  0 < n
  /\ (getNextDecodingTime tz (class_interval c) now
      == inject_Z (zeroed + ((local_now - zeroed) / n + 1) * n
                   - off * 1000000) / 1000000)%Q.
Proof.
  intros Hn [Hoff Htz] Hcal local_now zeroed.
  destruct (class_interval_facts c n Hn)
    as (HI1 & HI2 & (m & Hm & Hm2) & _ & Hrep).
  unfold in_calendar in Hcal.
  assert (Hn0 : 0 < n) by lia.
  split; [exact Hn0|].
  unfold getNextDecodingTime.
  assert (Enow : datetime_now tz now = local_now).
  { unfold datetime_now, local, local_now.
    rewrite (Htz (now / 1000000)) by lia.
    pose proof (Z.div_mod now 1000000 ltac:(lia)). lia. }
  rewrite Enow. fold zeroed.
  set (delta := local_now - zeroed).
  assert (Hdelta : 0 <= delta < 3600000000).
  { unfold delta, zeroed, replace_to_hour.
    pose proof (Z.mod_pos_bound local_now 3600000000 ltac:(lia)). lia. }
  assert (Hk : 0 <= delta / n < 3600).
  { split; [apply Z.div_pos; lia | apply Z.div_lt_upper_bound; lia]. }
  rewrite (quotient_truncates (class_interval c) n delta HI1 HI2 Hn Hdelta)
    by (apply Hrep; lia).
  set (k := delta / n) in *.
  set (seconds := round53 (inject_Z (k + 1) * class_interval c)).
  assert (Es : (seconds == inject_Z (k + 1) * class_interval c)%Q)
    by (apply Hrep; lia).
  assert (Etd : timedelta_of_seconds seconds = (k + 1) * n).
  { apply timedelta_of_whole_microseconds.
    - rewrite Es. apply Qmult_le_0_compat; [|lra].
      change 0%Q with (inject_Z 0). rewrite <- Zle_Qle. lia.
    - rewrite Es, inject_Z_mult, <- Hn. ring. }
  rewrite Etd.
  pose proof (Z.div_mod delta n ltac:(lia)) as Hdm.
  pose proof (Z.mod_pos_bound delta n Hn0) as Hr.
  fold k in Hdm. set (r := delta mod n) in *.
  set (t := zeroed + (k + 1) * n).
  assert (Et : t - off * 1000000 = now + (n - r)).
  { unfold t. unfold delta, local_now in Hdm. unfold local_now in *. lia. }
  assert (Ediv : t / 1000000 - off = (now + (n - r)) / 1000000).
  { rewrite <- Et.
    replace (t - off * 1000000) with (t + (- off) * 1000000) by ring.
    rewrite Z.div_add by lia. ring. }
  assert (Hlo : now / 1000000 <= (now + (n - r)) / 1000000)
    by (apply Z.div_le_mono; lia).
  assert (Hhi : (now + (n - r)) / 1000000 <= now / 1000000 + 120).
  { replace (now / 1000000 + 120) with ((now + 120 * 1000000) / 1000000)
      by (rewrite Z.div_add by lia; reflexivity).
    apply Z.div_le_mono; lia. }
  assert (Hnow0 : 0 <= now / 1000000 < 253370764800).
  { split; [apply Z.div_pos; lia | apply Z.div_lt_upper_bound; lia]. }
  apply (timestamp_constant_offset tz off (now / 1000000) t).
  - exact Htz.
  - exact Hoff.
  - rewrite Ediv. lia.
  - rewrite Ediv. split; [lia|].
    apply Z.le_lt_trans with (253370764800 + 120); [lia | reflexivity].
  - unfold t, zeroed, replace_to_hour.
    pose proof (Z.div_mod local_now 3600000000 ltac:(lia)) as Hh.
    replace (local_now - local_now mod 3600000000 + (k + 1) * n)
      with ((7200 * (local_now / 3600000000) + (k + 1) * m) * 500000)
      by (rewrite Hm; lia).
    apply Z.mod_mul. lia.
Qed.


(** The intervals of the five choppers are positive whole numbers of
    microseconds. *)
Lemma class_interval_microseconds (c : chopper_class) :
  exists n : Z,
    (0 < class_interval c)%Q /\ (class_interval c * 1000000 == inject_Z n)%Q.
Proof.
  destruct c; simpl;
    [exists 15000000 | exists 120000000 | exists 60000000
     | exists 60000000 | exists 7500000];
    split; reflexivity.
Qed.




Lemma pop_last (q : list string) (file : string) :
  pop (q ++ [file]) = Some (file, q).
Proof.
  unfold pop. rewrite rev_app_distr. simpl. rewrite rev_involutive.
  reflexivity.
Qed.

Lemma handed_app (self : chopper) (o : obs) :
  flat_map (fun o => match o with Handed _ f => [f] | Sealed _ _ => [] end)
    (history self ++ [o])
  = handed self ++ match o with Handed _ f => [f] | Sealed _ _ => [] end.
Proof.
  unfold handed. rewrite flat_map_app. simpl. rewrite app_nil_r.
  reflexivity.
Qed.

(** [decode] hands over the file at the end of the queue. *)
Lemma decode_pops_last (self : chopper) (q : list string) (file : string) :
  fileQueue self = q ++ [file] ->
  fileQueue (decode self) = q
  /\ handed (decode self) = handed self ++ [file].
Proof.
  intros Hq. unfold decode. rewrite Hq, pop_last. simpl. split.
  - reflexivity.
  - unfold handed at 1. simpl. apply handed_app.
Qed.

(** As many [decode] calls as there are pending files hand all of them
    over, the last of the queue first. *)
Lemma decode_times_reverses (q : list string) :
  forall self : chopper,
    fileQueue self = q ->
    fileQueue (decode_times (List.length q) self) = []
    /\ handed (decode_times (List.length q) self) = handed self ++ rev q.
Proof.
  induction q as [|file q IH] using rev_ind; intros self Hq.
  - simpl. rewrite app_nil_r. split; [exact Hq | reflexivity].
  - rewrite length_app. simpl. rewrite Nat.add_comm. simpl.
    destruct (decode_pops_last self q file Hq) as (Hq' & Hh).
    destruct (IH (decode self) Hq') as (Hempty & Hrest).
    split; [exact Hempty|].
    rewrite Hrest, Hh, rev_app_distr, <- app_assoc. reflexivity.
Qed.

(** C3, as the code has it.  [switchFiles] puts the sealed file at the
    end of the queue, so the queue is in the order of rotation, and
    [decode] takes the file at the end: when several sealed files are
    pending, successive calls of [decode] hand them to decoders in the
    reverse of the order of rotation, the most recently sealed first. *)
Theorem decode_hands_latest_first (self : chopper) :
  (forall (tz : timezone) (now : Z) (stamp : string),
     fileQueue (switchFiles tz now stamp self)
     = fileQueue self ++ [wavefilename self])
  /\ handed (decode_times (List.length (fileQueue self)) self)
     = handed self ++ rev (fileQueue self)
  /\ fileQueue (decode_times (List.length (fileQueue self)) self) = [].
Proof.
  split; [intros tz now stamp; reflexivity|].
  destruct (decode_times_reverses (fileQueue self) self eq_refl)
    as (Hempty & Hrev).
  split; assumption.
Qed.

(** C3, as the specification states it, fails: a chopper whose reading
    loop is held up over two rotations has two sealed files pending, and
    the two calls of [decode] that follow hand over the file sealed at
    second 30 before the file sealed at second 15. *)
Lemma dispatch_follows_rotation_fails :
  ~ (forall calls : list call,
       dispatch_follows_rotation
         (history
            (after_calls (fixed_offset 0) calls
               (init (fixed_offset 0) Ft8Chopper "/tmp" "1" "200101_000000"
                  0)))).
Proof.
  intros H.
  specialize (H [SwitchFiles 15000000 "200101_000015";
                 SwitchFiles 30000000 "200101_000030"; Decode; Decode]
                15000000 30000000
                "/tmp/openwebrx-wsjtchopper-1-200101_000000.wav"%string
                "/tmp/openwebrx-wsjtchopper-1-200101_000015.wav"%string).
  vm_compute in H.
  assert (Hlt : (3 < 2)%nat).
  { apply H.
    - left. reflexivity.
    - right. left. reflexivity.
    - reflexivity.
    - discriminate.
    - discriminate. }
  lia.
Qed.

End ChopperFacts.

(** ** Greedy repetition in the patterns *)

Module ReFacts.

Import PyStr Re.
Local Open Scope list_scope.

Section Repetition.

Context {A : Type}.
Variable k : str -> option A.
Variable c : N -> bool.

(** A set taken exactly once. *)
Lemma once_hit (ch : N) (s : str) :
  c ch = true -> repetition k c 1 (Some 1%nat) (ch :: s) 0 = k s.
Proof.
  intros Hc. simpl. rewrite Hc. simpl.
  destruct s as [|ch' s']; simpl.
  - destruct (k []); reflexivity.
  - rewrite andb_false_r. destruct (k (ch' :: s')); reflexivity.
Qed.

Lemma once_miss (ch : N) (s : str) :
  c ch = false -> repetition k c 1 (Some 1%nat) (ch :: s) 0 = None.
Proof. intros Hc. simpl. rewrite Hc. reflexivity. Qed.

Lemma once_empty : repetition k c 1 (Some 1%nat) [] 0 = None.
Proof. reflexivity. Qed.

(** A set taken exactly twice. *)
Lemma twice_hit (a b : N) (s : str) :
  c a = true -> c b = true ->
  repetition k c 2 (Some 2%nat) (a :: b :: s) 0 = k s.
Proof.
  intros Ha Hb. simpl. rewrite Ha, Hb. simpl.
  destruct s as [|ch' s']; simpl.
  - destruct (k []); reflexivity.
  - rewrite andb_false_r. destruct (k (ch' :: s')); reflexivity.
Qed.

(** When the rest of the pattern fails after every further character, an
    unbounded repetition stops where it stands. *)
Lemma unbounded_stops (lo : nat) :
  forall (s : str) (n : nat),
    (forall t, proper_suffix t s -> k t = None) ->
    repetition k c lo None s n = if Nat.leb lo n then k s else None.
Proof.
  induction s as [|ch s IH]; intros n Hfail.
  - reflexivity.
  - simpl. destruct (c ch); simpl; [|reflexivity].
    rewrite IH.
    + rewrite (Hfail s).
      * destruct (Nat.leb lo (S n)); reflexivity.
      * exists [ch]. split; [discriminate | reflexivity].
    + intros t (u & Hu & Hs). apply Hfail.
      exists (ch :: u). split; [discriminate|]. rewrite Hs. reflexivity.
Qed.

(** An unbounded repetition gives up the characters it took until the
    rest of the pattern matches: if that happens first after [pre], the
    match is the one found there. *)
Lemma unbounded_backtracks (lo : nat) (r : A) (s : str) :
  k s = Some r ->
  (forall t, proper_suffix t s -> k t = None) ->
  forall (pre : str) (n : nat),
    forallb c pre = true ->
    (lo <= n + List.length pre)%nat ->
    repetition k c lo None (pre ++ s) n = Some r.
Proof.
  intros Hk Hfail pre.
  induction pre as [|ch pre IH]; intros n Hpre Hlo.
  - simpl app. rewrite unbounded_stops by exact Hfail.
    simpl in Hlo. rewrite Nat.add_0_r in Hlo.
    apply Nat.leb_le in Hlo. rewrite Hlo. exact Hk.
  - simpl in Hpre. apply andb_true_iff in Hpre. destruct Hpre as (Hch & Hpre).
    simpl. rewrite Hch. simpl.
    rewrite (IH (S n) Hpre); [reflexivity|]. simpl in Hlo. lia.
Qed.

(** An unbounded repetition keeps all the characters of the set that it
    finds when the rest of the pattern matches after them. *)
Lemma unbounded_takes_all (lo : nat) (r : A) (s : str) :
  k s = Some r ->
  forall (pre : str) (n : nat),
    forallb c pre = true ->
    (lo <= n + List.length pre)%nat ->
    match s with [] => True | ch :: _ => c ch = false end ->
    repetition k c lo None (pre ++ s) n = Some r.
Proof.
  intros Hk pre.
  induction pre as [|ch pre IH]; intros n Hpre Hlo Hnext.
  - simpl in *. rewrite Nat.add_0_r in Hlo. apply Nat.leb_le in Hlo.
    destruct s as [|ch s]; simpl; rewrite Hlo.
    + exact Hk.
    + rewrite Hnext. simpl. exact Hk.
  - simpl in Hpre. apply andb_true_iff in Hpre. destruct Hpre as (Hch & Hpre).
    simpl. rewrite Hch. simpl.
    rewrite (IH (S n) Hpre); [reflexivity | simpl in Hlo; lia | exact Hnext].
Qed.

(** An unbounded repetition fails when the rest of the pattern fails
    wherever the repetition may stop. *)
Lemma unbounded_fails (lo : nat) :
  forall (s : str) (n : nat),
    (forall t u, s = u ++ t -> k t = None) ->
    repetition k c lo None s n = None.
Proof.
  intros s n Hfail. rewrite unbounded_stops.
  - rewrite (Hfail s []) by reflexivity. destruct (Nat.leb lo n); reflexivity.
  - intros t (u & _ & Hs). exact (Hfail t u Hs).
Qed.

End Repetition.

End ReFacts.

(** ** The parser *)

Module ParserFacts.

Import PyStr Re ReFacts Parser ParserUpdates.
Local Open Scope list_scope.

Ltac class_facts :=
  unfold isspace, upper_or_digit, A_to_R, zero_to_nine, dot, between in *;
  repeat rewrite ?orb_true_iff, ?andb_true_iff, ?orb_false_iff,
    ?andb_false_iff, ?negb_true_iff, ?negb_false_iff,
    ?N.leb_le, ?N.leb_gt, ?N.eqb_eq, ?N.eqb_neq in *;
  lia.

Lemma upper_or_digit_not_space (c : N) : upper_or_digit c = true -> isspace c = false.
Proof. intros H. class_facts. Qed.

Lemma space_not_upper_or_digit (c : N) : isspace c = true -> upper_or_digit c = false.
Proof. intros H. class_facts. Qed.

Lemma A_to_R_upper (c : N) : A_to_R c = true -> upper_or_digit c = true.
Proof. intros H. class_facts. Qed.

Lemma digit_upper_or_digit (c : N) : zero_to_nine c = true -> upper_or_digit c = true.
Proof. intros H. class_facts. Qed.

Lemma once_space_fails_on_word {A : Type} (k : str -> option A) (word t u : str) :
  forallb upper_or_digit word = true ->
  word = u ++ t ->
  repetition k isspace 1 (Some 1%nat) t 0 = None.
Proof.
  intros Hword ->. rewrite forallb_app in Hword.
  apply andb_true_iff in Hword. destruct Hword as (_ & Ht).
  destruct t as [|x t]; [reflexivity|].
  simpl in Ht. apply andb_true_iff in Ht. destruct Ht as (Hx & _).
  apply once_miss. apply upper_or_digit_not_space. exact Hx.
Qed.

(** A text that ends in a white space, a call sign, a white space and a
    locator, with no line feed before them, matches [locator_pattern];
    group 1 is the call sign and group 2 the locator. *)
Lemma locator_pattern_matches (prefix callsign : str) (w1 w2 a b c d : N) :
  forallb dot prefix = true -> isspace w1 = true ->
  callsign <> [] -> forallb upper_or_digit callsign = true ->
  isspace w2 = true ->
  A_to_R a = true -> A_to_R b = true ->
  zero_to_nine c = true -> zero_to_nine d = true ->
  exists m,
    match_ locator_pattern (prefix ++ [w1] ++ callsign ++ [w2] ++ [a; b; c; d]) = Some m
    /\ group m 1 = callsign /\ group m 2 = [a; b; c; d].
Proof.
  intros Hprefix Hw1 Hne Hcall Hw2 Ha Hb Hc Hd.
  unfold match_, locator_pattern, star, once, plus, twice.
  cbn [run].
  eexists. split.
  - apply unbounded_backtracks with (s := [w1] ++ callsign ++ [w2] ++ [a; b; c; d]).
    + simpl app. rewrite once_hit by exact Hw1.
      apply unbounded_takes_all with (s := [w2; a; b; c; d]).
      * rewrite once_hit by exact Hw2.
        rewrite twice_hit by assumption.
        rewrite twice_hit by assumption.
        reflexivity.
      * exact Hcall.
      * destruct callsign; [contradiction | simpl; lia].
      * apply space_not_upper_or_digit. exact Hw2.
    + intros t (u & Hu & Hs).
      destruct u as [|w u]; [contradiction|].
      simpl in Hs. injection Hs as _ Hs.
      assert (Hloc : forallb upper_or_digit [a; b; c; d] = true).
      { simpl. rewrite (A_to_R_upper a Ha), (A_to_R_upper b Hb),
          (digit_upper_or_digit c Hc), (digit_upper_or_digit d Hd).
        reflexivity. }
      apply app_eq_app in Hs. destruct Hs as (l & [(Hcs & Ht) | (Hu' & Ht)]).
      * destruct l as [|x l].
        -- simpl in Ht. subst t.
           rewrite once_hit by exact Hw2.
           apply unbounded_fails. intros t' u' Ht'.
           apply once_space_fails_on_word with (word := [a; b; c; d]) (u := u');
             assumption.
        -- subst t. simpl. apply once_miss. apply upper_or_digit_not_space.
           rewrite Hcs, forallb_app in Hcall.
           apply andb_true_iff in Hcall. destruct Hcall as (_ & Hl).
           simpl in Hl. apply andb_true_iff in Hl. tauto.
      * destruct l as [|x l].
        -- simpl in Ht. subst t.
           rewrite once_hit by exact Hw2.
           apply unbounded_fails. intros t' u' Ht'.
           apply once_space_fails_on_word with (word := [a; b; c; d]) (u := u');
             assumption.
        -- simpl in Ht. injection Ht as _ Ht.
           apply once_space_fails_on_word with (word := [a; b; c; d]) (u := l);
             assumption.
    + exact Hprefix.
    + simpl. lia.
  - split.
    + unfold group, close, open. simpl.
      rewrite length_app. simpl List.length. rewrite Nat.add_sub.
      rewrite firstn_app, Nat.sub_diag, firstn_all. simpl. apply app_nil_r.
    + reflexivity.
Qed.

Lemma str_eqb_eq (x y : str) : str_eqb x y = true <-> x = y.
Proof.
  revert y. induction x as [|a x IH]; intros [|b y]; simpl;
    try (split; [discriminate | discriminate]); [tauto|].
  rewrite andb_true_iff, N.eqb_eq, IH. split.
  - intros (-> & ->). reflexivity.
  - intros E. injection E as -> ->. split; reflexivity.
Qed.

(** *** The locator RR73 *)

Section Appends.

Context {Band : Type} (P : event Band -> Prop).

Lemma appends_ret {A : Type} (a : A) : appends P (ret a).
Proof.
  intros evs. exists []. rewrite app_nil_r.
  split; [reflexivity | constructor].
Qed.

Lemma appends_raise {A : Type} (e : exn) : appends P (raise (A := A) e).
Proof.
  intros evs. exists []. rewrite app_nil_r.
  split; [reflexivity | constructor].
Qed.

Lemma appends_or_raise {A : Type} (e : exn) (x : option A) :
  appends P (or_raise e x).
Proof. destruct x; [apply appends_ret | apply appends_raise]. Qed.

Lemma appends_emit (ev : event Band) : P ev -> appends P (emit ev).
Proof.
  intros H evs. exists [ev]. split; [reflexivity|].
  constructor; [exact H | constructor].
Qed.

Lemma appends_bind {A B : Type} (m : M Band A) (k : A -> M Band B) :
  appends P m -> (forall a, appends P (k a)) -> appends P (bind m k).
Proof.
  intros Hm Hk evs. unfold bind.
  destruct (Hm evs) as (new1 & E1 & H1).
  destruct (m evs) as [[e|a] evs1]; simpl in E1; subst evs1.
  - exists new1. split; [reflexivity | exact H1].
  - destruct (Hk a (evs ++ new1)) as (new2 & E2 & H2).
    exists (new1 ++ new2). rewrite E2, app_assoc.
    split; [reflexivity | apply Forall_app; split; assumption].
Qed.

Lemma appends_except (body handler : M Band unit) :
  appends P body -> appends P handler ->
  appends P (except_ValueError body handler).
Proof.
  intros Hb Hh evs. unfold except_ValueError.
  destruct (Hb evs) as (new1 & E1 & H1).
  destruct (body evs) as [[e|a] evs1]; simpl in E1; subst evs1.
  - destruct e.
    all: try (exists new1; split; [reflexivity | exact H1]).
    destruct (Hh (evs ++ new1)) as (new2 & E2 & H2).
    exists (new1 ++ new2). rewrite E2, app_assoc.
    split; [reflexivity | apply Forall_app; split; assumption].
  - exists new1. split; [reflexivity | exact H1].
Qed.

Lemma appends_parse_timestamp (today : Z) (instring : str)
    (dateformat : string) :
  appends P (parse_timestamp today instring dateformat).
Proof.
  unfold parse_timestamp. apply appends_bind; [apply appends_or_raise|].
  intros [[h m] s]. apply appends_ret.
Qed.

End Appends.

Lemma appends_parseLocator {Band : Type} (self : parser Band)
    (msg mode : str) :
  appends not_RR73 (parseLocator self msg mode).
Proof.
  unfold parseLocator.
  destruct (match_ locator_pattern msg) as [m|]; [|apply appends_ret].
  destruct (str_eqb (group m 2) (lit "RR73")) eqn:E; [apply appends_ret|].
  apply appends_emit. simpl. intros Hrr.
  apply str_eqb_eq in Hrr. congruence.
Qed.

Lemma appends_parseWsprMessage {Band : Type} (self : parser Band)
    (msg : str) :
  appends RR73_only_for_WSPR (parseWsprMessage self msg).
Proof.
  unfold parseWsprMessage.
  destruct (match_ wspr_splitter_pattern msg) as [m|]; [|apply appends_ret].
  apply appends_emit. simpl. intros _. reflexivity.
Qed.

Lemma appends_weaken {Band A : Type} (P Q : event Band -> Prop)
    (m : M Band A) :
  (forall ev, P ev -> Q ev) -> appends P m -> appends Q m.
Proof.
  intros HPQ Hm evs. destruct (Hm evs) as (new & E & H).
  exists new. split; [exact E|].
  apply Forall_impl with (P := P); assumption.
Qed.

Lemma not_RR73_weaken {Band : Type} (ev : event Band) :
  not_RR73 ev -> RR73_only_for_WSPR ev.
Proof.
  destruct ev as [callsign [locator] mode band | |]; simpl; [|trivial..].
  intros H Hrr. contradiction.
Qed.

(** A line of a jt9 decoder never sends the locator RR73 to the map. *)
Lemma appends_parse_from_jt9 {Band : Type} (today : Z) (self : parser Band)
    (msg : str) :
  appends not_RR73 (parse_from_jt9 today self msg).
Proof.
  unfold parse_from_jt9. cbv zeta.
  apply appends_bind; [apply appends_or_raise|]. intros c19.
  apply appends_bind; [apply appends_parse_timestamp|]. intros timestamp.
  apply appends_bind; [apply appends_parseLocator|]. intros _.
  apply appends_bind; [apply appends_or_raise|]. intros db.
  apply appends_bind; [apply appends_or_raise|]. intros dt.
  apply appends_bind; [apply appends_or_raise|]. intros freq.
  apply appends_ret.
Qed.

Lemma appends_parse_from_wsprd {Band : Type} (today : Z)
    (self : parser Band) (msg : str) :
  appends RR73_only_for_WSPR (parse_from_wsprd today self msg).
Proof.
  unfold parse_from_wsprd. cbv zeta.
  apply appends_bind; [apply appends_parseWsprMessage|]. intros _.
  apply appends_bind; [apply appends_parse_timestamp|]. intros timestamp.
  apply appends_bind; [apply appends_or_raise|]. intros db.
  apply appends_bind; [apply appends_or_raise|]. intros dt.
  apply appends_bind; [apply appends_or_raise|]. intros freq.
  apply appends_bind; [apply appends_or_raise|]. intros drift.
  apply appends_ret.
Qed.

Lemma appends_parse {Band : Type} (today : Z) (self : parser Band)
    (data : list byte) :
  appends RR73_only_for_WSPR (parse today self data).
Proof.
  unfold parse.
  apply appends_except; [|apply appends_emit; exact I].
  apply appends_bind; [apply appends_or_raise|]. intros msg. cbv zeta.
  destruct (startswith (rstrip msg) (lit "<DecodeFinished>"));
    [apply appends_ret|].
  destruct (startswith (rstrip msg) (lit " EOF on input file"));
    [apply appends_ret|].
  apply appends_bind; [apply appends_or_raise|]. intros c21.
  apply appends_bind.
  { destruct (in_list c21 (keys modes)); [apply appends_ret|].
    apply appends_bind; [apply appends_or_raise|]. intros c19.
    apply appends_ret. }
  intros marked.
  apply appends_bind; [|intros out; apply appends_emit; exact I].
  destruct marked.
  - apply (appends_weaken not_RR73); [apply not_RR73_weaken|].
    apply appends_parse_from_jt9.
  - apply appends_parse_from_wsprd.
Qed.

(** C9.  For a payload that ends in a call sign and a grid locator as
    [locator_pattern] reads them, [parseLocator] sends no update to the
    map when the locator is RR73, and exactly one update, with that call
    sign and locator, when it is any other locator.  For every payload
    at all, [parseLocator] sends either nothing or one update whose
    locator is not RR73.  So no line that [parse] reads as a line of a
    jt9 decoder sends the locator RR73 to the map, and whatever the line
    an update with the locator RR73 that [parse] sends has the mode
    WSPR: it comes from [parseWsprMessage], which leaves no locator
    out. *)
Theorem parseLocator_updates_map {Band : Type} (self : parser Band)
    (mode prefix callsign : str) (w1 w2 a b c d : N)
    (evs : list (event Band)) :
  forallb dot prefix = true ->
  isspace w1 = true ->
  callsign <> [] ->
  forallb upper_or_digit callsign = true ->
  isspace w2 = true ->
  A_to_R a = true -> A_to_R b = true ->
  zero_to_nine c = true -> zero_to_nine d = true ->
  let locator := [a; b; c; d] in
  let msg := prefix ++ [w1] ++ callsign ++ [w2] ++ locator in
  (locator = lit "RR73" ->
   parseLocator self msg mode evs = (inr tt, evs))
  /\ (locator <> lit "RR73" ->
      parseLocator self msg mode evs
      = (inr tt,
         evs ++ [UpdateLocation callsign (LocatorLocation locator) mode
                   (band self)]))
  /\ (forall msg' : str,
        parseLocator self msg' mode evs = (inr tt, evs)
        \/ exists callsign' locator',
             locator' <> lit "RR73"
             /\ parseLocator self msg' mode evs
                = (inr tt,
                   evs ++ [UpdateLocation callsign'
                             (LocatorLocation locator') mode (band self)]))
  /\ (forall (today : Z) (line : str),
        exists new : list (event Band),
          snd (parse_from_jt9 today self line evs) = evs ++ new
          /\ Forall not_RR73 new)
  /\ (forall (today : Z) (data : list byte),
        exists new : list (event Band),
          snd (parse today self data evs) = evs ++ new
          /\ Forall RR73_only_for_WSPR new).
Proof.
  intros Hprefix Hw1 Hne Hcall Hw2 Ha Hb Hc Hd locator msg.
  destruct (locator_pattern_matches prefix callsign w1 w2 a b c d
              Hprefix Hw1 Hne Hcall Hw2 Ha Hb Hc Hd)
    as (m & Hm & Hg1 & Hg2).
  fold locator in Hm, Hg2. fold msg in Hm.
  split; [|split; [|split; [|split]]];
    [| | | intros today line; apply appends_parse_from_jt9
     | intros today data; apply appends_parse].
  - intros Hrr. unfold parseLocator. rewrite Hm, Hg2.
    apply str_eqb_eq in Hrr. rewrite Hrr. reflexivity.
  - intros Hrr. unfold parseLocator. rewrite Hm, Hg1, Hg2.
    destruct (str_eqb locator (lit "RR73")) eqn:E.
    + apply str_eqb_eq in E. contradiction.
    + reflexivity.
  - intros msg'. unfold parseLocator.
    destruct (match_ locator_pattern msg') as [m'|]; [|left; reflexivity].
    destruct (str_eqb (group m' 2) (lit "RR73")) eqn:E; [left; reflexivity|].
    right. exists (group m' 1), (group m' 2). split; [|reflexivity].
    intros Hrr. apply str_eqb_eq in Hrr. congruence.
Qed.

Lemma parseLocator_updates_map_witness :
  parseLocator (mk_parser None tt) (lit "CQ EA7MJ IM66") (lit "FT8") []
  = (inr tt,
     [UpdateLocation (lit "EA7MJ") (LocatorLocation (lit "IM66")) (lit "FT8")
        tt]).
Proof.
  destruct (parseLocator_updates_map (mk_parser None tt) (lit "FT8")
              (lit "CQ") (lit "EA7MJ") 32 32 73 77 54 54 []
              eq_refl eq_refl ltac:(discriminate) eq_refl eq_refl
              eq_refl eq_refl eq_refl eq_refl)
    as (_ & Hupdate & _).
  apply Hupdate. discriminate.
Defined.

(** C9 as the specification states it fails on a line of wsprd: the
    payload "G02CWT RR73 23" holds a call sign and the locator RR73, and
    [parse] sends the update to the map, with the mode WSPR, before it
    hands the record to the handler. *)
Lemma parse_wspr_sends_RR73 :
  parse 0 (mk_parser None tt)
    (list_byte_of_string "0052 -29  2.6   0.001486  0  G02CWT RR73 23") []
  = (inr tt,
     [ UpdateLocation (lit "G02CWT") (LocatorLocation (lit "RR73"))
         (lit "WSPR") tt;
       WriteWsjtMessage
         [ ("timestamp"%string,
            VInt ((0 * 86400 + 0 * 3600 + 52 * 60 + 0) * 1000));
           ("db"%string, VFloat (Finite (-29)));
           ("dt"%string, VFloat (Finite (13 # 5)));
           ("freq"%string, VFloat (Finite (743 # 500000)));
           ("drift"%string, VInt 0);
           ("mode"%string, VStr (lit "WSPR"));
           ("msg"%string, VStr (lit "G02CWT RR73 23")) ] ]).
Proof. vm_compute. reflexivity. Qed.

(** C8.  The line "222100 -15 -0.0  508 ~  CQ EA7MJ IM66" is parsed
    without an exception into one record for the handler: its time stamp
    is 22:21:00 of today's date read as UTC, in milliseconds; db is
    -15.0, freq is 508, mode is FT8 and msg is "CQ EA7MJ IM66".  The map
    is told of EA7MJ in IM66 before that. *)
Theorem parse_ft8_sample {Band : Type} (today : Z) (self : parser Band) :
  parse today self
    (list_byte_of_string "222100 -15 -0.0  508 ~  CQ EA7MJ IM66") []
  = (inr tt,
     [ UpdateLocation (lit "EA7MJ") (LocatorLocation (lit "IM66"))
         (lit "FT8") (band self);
       WriteWsjtMessage
         [ ("timestamp"%string,
            VInt ((today * 86400 + 22 * 3600 + 21 * 60 + 0) * 1000));
           ("db"%string, VFloat (Finite (-15)));
           ("dt"%string, VFloat NegZero);
           ("freq"%string, VInt 508);
           ("mode"%string, VStr (lit "FT8"));
           ("msg"%string, VStr (lit "CQ EA7MJ IM66")) ] ]).
Proof. reflexivity. Qed.

(** The handler of [parse] catches every [ValueError]: an exception
    that leaves [parse] is an [IndexError]. *)
Lemma parse_raises_only_IndexError {Band : Type} (today : Z)
    (self : parser Band) (data : list byte) (evs : list (event Band))
    (e : exn) :
  fst (parse today self data evs) = inl e -> e = IndexError.
Proof.
  unfold parse, except_ValueError.
  match goal with
  | |- fst (match ?body with _ => _ end) = _ -> _ =>
      destruct body as [[[|]|[]] evs']
  end; simpl; intros H; congruence.
Qed.

(** C4 fails on the code.  A blank line of decoder output, the single
    byte of a line feed, makes [parse] raise [IndexError]: the text is
    empty once stripped, the look at its character 21 fails, and the
    handler of [parse] only catches [ValueError]. *)
Theorem parse_blank_line_raises {Band : Type} (today : Z)
    (self : parser Band) (evs : list (event Band)) :
  parse today self [x0a] evs = (inl IndexError, evs).
Proof. reflexivity. Qed.

(** The same happens for every line that is not one of the two known
    debug messages and whose text, once stripped, is shorter than 22
    characters. *)
Lemma parse_short_line_raises {Band : Type} (today : Z)
    (self : parser Band) (data : list byte) (msg : str)
    (evs : list (event Band)) :
  decode data = Some msg ->
  (List.length (rstrip msg) <= 21)%nat ->
  startswith (rstrip msg) (lit "<DecodeFinished>") = false ->
  startswith (rstrip msg) (lit " EOF on input file") = false ->
  parse today self data evs = (inl IndexError, evs).
Proof.
  intros Hdec Hlen Hd Heof.
  unfold parse, except_ValueError, bind. rewrite Hdec. simpl.
  rewrite Hd, Heof.
  assert (Hitem : item (rstrip msg) 21 = None).
  { unfold item. rewrite (proj2 (nth_error_None _ _)); [reflexivity | lia]. }
  rewrite Hitem. reflexivity.
Qed.

End ParserFacts.

(** ** The frames of the WebSocket connection *)

Module WebSocketFacts.

Import PyStr WebSocket WebSocketLoop.
Local Open Scope Z_scope.
Local Open Scope list_scope.

Lemma some_eq {A : Type} (a b : A) : Some a = Some b -> a = b.
Proof. intros E. congruence. Qed.

Lemma inr_snd {E A B : Type} (a c : A) (b d : B) :
  @inr E (A * B) (a, b) = inr (c, d) -> b = d.
Proof. intros H. congruence. Qed.

Lemma int_of_byte_range (b : byte) : 0 <= int_of_byte b <= 255.
Proof.
  unfold int_of_byte. pose proof (Byte.to_N_bounded b). lia.
Qed.

Lemma byte_of_int_of_byte (b : byte) : byte_of_int (int_of_byte b) = Some b.
Proof.
  unfold byte_of_int, int_of_byte.
  destruct (Z.of_N (to_N b) <? 0) eqn:E; [apply Z.ltb_lt in E; lia|].
  rewrite N2Z.id. apply Byte.of_to_N.
Qed.

(** An [int] of [range(256)] is an element of a [bytes] object. *)
Lemma byte_of_int_some (x : Z) :
  0 <= x <= 255 ->
  exists b : byte, byte_of_int x = Some b /\ int_of_byte b = x.
Proof.
  intros Hx. unfold byte_of_int.
  destruct (x <? 0) eqn:E; [apply Z.ltb_lt in E; lia|].
  destruct (Byte.of_N (Z.to_N x)) as [b|] eqn:Hb.
  - exists b. split; [reflexivity|].
    unfold int_of_byte. rewrite (Byte.to_of_N _ Hb). lia.
  - apply Byte.of_N_None_iff in Hb. lia.
Qed.

Lemma byte_of_int_none (x : Z) : x < 0 \/ 255 < x -> byte_of_int x = None.
Proof.
  intros Hx. unfold byte_of_int.
  destruct (x <? 0) eqn:E; [reflexivity|].
  apply Z.ltb_ge in E. apply Byte.of_N_None_iff. lia.
Qed.

Lemma land_255 (x : Z) : Z.land x 255 = x mod 256.
Proof. change 255 with (Z.ones 8). apply Z.land_ones. lia. Qed.

Lemma land_255_range (x : Z) : 0 <= Z.land x 255 <= 255.
Proof.
  rewrite land_255. pose proof (Z.mod_pos_bound x 256 ltac:(lia)). lia.
Qed.

Lemma first_byte_value (opcode : Z) :
  Z.lor 128 (Z.land opcode 15) = 128 + opcode mod 16.
Proof.
  change 15 with (Z.ones 4). rewrite Z.land_ones by lia.
  change (2 ^ 4) with 16.
  pose proof (Z.mod_pos_bound opcode 16 ltac:(lia)) as H.
  assert (E : opcode mod 16 = 0 \/ opcode mod 16 = 1 \/ opcode mod 16 = 2
              \/ opcode mod 16 = 3 \/ opcode mod 16 = 4 \/ opcode mod 16 = 5
              \/ opcode mod 16 = 6 \/ opcode mod 16 = 7 \/ opcode mod 16 = 8
              \/ opcode mod 16 = 9 \/ opcode mod 16 = 10 \/ opcode mod 16 = 11
              \/ opcode mod 16 = 12 \/ opcode mod 16 = 13
              \/ opcode mod 16 = 14 \/ opcode mod 16 = 15) by lia.
  repeat (destruct E as [-> | E]; [reflexivity|]). rewrite E. reflexivity.
Qed.

(** For a size that is not negative [get_header] returns a header. *)
Lemma get_header_some (size opcode : Z) :
  0 <= size ->
  exists header : list byte,
    get_header size opcode = Some header
    /\ List.length header
       = (if size <=? 125 then 2%nat
          else if size <=? 65535 then 4%nat else 10%nat)
    /\ byte_at header 0 = Some (128 + opcode mod 16).
Proof.
  intros Hsize. unfold get_header. rewrite first_byte_value.
  pose proof (Z.mod_pos_bound opcode 16 ltac:(lia)) as Hop.
  destruct (byte_of_int_some (128 + opcode mod 16) ltac:(lia))
    as (b0 & Hb0 & Hv0).
  change (2 ^ 16 - 1) with 65535.
  destruct (65535 <? size) eqn:Hbig; [|destruct (125 <? size) eqn:Hmid].
  + apply Z.ltb_lt in Hbig.
    assert (H1 : (size <=? 125) = false) by (apply Z.leb_gt; lia).
    assert (H2 : (size <=? 65535) = false) by (apply Z.leb_gt; lia).
    rewrite H1, H2. cbn [bytes]. rewrite Hb0.
    destruct (byte_of_int_some _ (land_255_range (Z.shiftr size 56))) as (c7 & -> & _).
    destruct (byte_of_int_some _ (land_255_range (Z.shiftr size 48))) as (c6 & -> & _).
    destruct (byte_of_int_some _ (land_255_range (Z.shiftr size 40))) as (c5 & -> & _).
    destruct (byte_of_int_some _ (land_255_range (Z.shiftr size 32))) as (c4 & -> & _).
    destruct (byte_of_int_some _ (land_255_range (Z.shiftr size 24))) as (c3 & -> & _).
    destruct (byte_of_int_some _ (land_255_range (Z.shiftr size 16))) as (c2 & -> & _).
    destruct (byte_of_int_some _ (land_255_range (Z.shiftr size 8))) as (c1 & -> & _).
    destruct (byte_of_int_some _ (land_255_range size)) as (c0 & -> & _).
    eexists. split; [reflexivity|]. split; [reflexivity|].
    unfold byte_at. simpl. rewrite Hv0. reflexivity.
  + apply Z.ltb_ge in Hbig. apply Z.ltb_lt in Hmid.
    assert (H1 : (size <=? 125) = false) by (apply Z.leb_gt; lia).
    assert (H2 : (size <=? 65535) = true) by (apply Z.leb_le; lia).
    rewrite H1, H2. cbn [bytes]. rewrite Hb0.
    destruct (byte_of_int_some _ (land_255_range (Z.shiftr size 8))) as (c1 & -> & _).
    destruct (byte_of_int_some _ (land_255_range size)) as (c0 & -> & _).
    eexists. split; [reflexivity|]. split; [reflexivity|].
    unfold byte_at. simpl. rewrite Hv0. reflexivity.
  + apply Z.ltb_ge in Hmid.
    assert (H1 : (size <=? 125) = true) by (apply Z.leb_le; lia).
    rewrite H1. cbn [bytes]. rewrite Hb0.
    destruct (byte_of_int_some size ltac:(lia)) as (c0 & -> & _).
    eexists. split; [reflexivity|]. split; [reflexivity|].
    unfold byte_at. simpl. rewrite Hv0. reflexivity.
Qed.

(** X21.  [get_header] returns a header of 2, 4 or 10 bytes for every size
    that is not negative, and raises [ValueError] for a negative one.
    The first byte has the FIN bit, no reserved bit, and the low four
    bits of the opcode. *)
Theorem get_header_shape (size opcode : Z) :
  (0 <= size ->
   exists header : list byte,
     get_header size opcode = Some header
     /\ List.length header
        = (if size <=? 125 then 2%nat
           else if size <=? 65535 then 4%nat else 10%nat)
     /\ byte_at header 0 = Some (128 + opcode mod 16))
  /\ (size < 0 -> get_header size opcode = None).
Proof.
  split; [apply get_header_some|].
  intros Hneg. unfold get_header.
    change (2 ^ 16 - 1) with 65535.
    assert (H1 : (65535 <? size) = false) by (apply Z.ltb_ge; lia).
    assert (H2 : (125 <? size) = false) by (apply Z.ltb_ge; lia).
    rewrite H1, H2. cbn [bytes].
    rewrite (byte_of_int_none size) by lia.
    destruct (byte_of_int (Z.lor 128 (Z.land opcode 15))); reflexivity.
Qed.

(** A length byte up to 125 is the length itself and has no mask bit. *)
Lemma length_byte_short (h1 : byte) :
  int_of_byte h1 <= 125 ->
  Z.land (int_of_byte h1) 127 = int_of_byte h1
  /\ Z.land (int_of_byte h1) 128 = 0.
Proof.
  destruct h1; cbv; intros H;
    first [split; reflexivity | exfalso; apply H; reflexivity].
Qed.

(** A frame without mask whose length byte is at most 125. *)
Lemma read_frame_short (h0 h1 : byte) (rfile : list byte) :
  int_of_byte h1 <= 125 ->
  read_frame (h0 :: h1 :: rfile)
  = deliver (Z.land (int_of_byte h0) 15)
      (firstn (Z.to_nat (int_of_byte h1)) rfile)
      (skipn (Z.to_nat (int_of_byte h1)) rfile).
Proof.
  intros Hlen.
  destruct (length_byte_short h1 Hlen) as (Hl & Hm).
  unfold read_frame, read, deliver.
  change (firstn 2 (h0 :: h1 :: rfile)) with [h0; h1].
  change (skipn 2 (h0 :: h1 :: rfile)) with rfile.
  change (byte_at [h0; h1] 0) with (Some (int_of_byte h0)).
  change (byte_at [h0; h1] 1) with (Some (int_of_byte h1)).
  cbn [or_raise bind]. rewrite Hl, Hm.
  assert (E : (int_of_byte h1 =? 126) = false) by (apply Z.eqb_neq; lia).
  rewrite E. change (negb (Z.shiftr 0 7 =? 0)) with false.
  cbn [bind].
  destruct (Z.land (int_of_byte h0) 15 =? 1); [|reflexivity].
  destruct (decode _); reflexivity.
Qed.

(** A frame without mask whose length byte is 126: the length is in the
    next two bytes. *)
Lemma read_frame_extended (h0 h2 h3 : byte) (rfile : list byte) :
  let n := Z.to_nat (Z.shiftl (int_of_byte h2) 8 + int_of_byte h3) in
  read_frame (h0 :: x7e :: h2 :: h3 :: rfile)
  = deliver (Z.land (int_of_byte h0) 15) (firstn n rfile) (skipn n rfile).
Proof.
  intros n. unfold read_frame, read, deliver.
  change (firstn 2 (h0 :: x7e :: h2 :: h3 :: rfile)) with [h0; x7e].
  change (skipn 2 (h0 :: x7e :: h2 :: h3 :: rfile)) with (h2 :: h3 :: rfile).
  change (byte_at [h0; x7e] 0) with (Some (int_of_byte h0)).
  change (byte_at [h0; x7e] 1) with (Some 126).
  cbn [or_raise bind].
  change (Z.land 126 127 =? 126) with true.
  change (negb (Z.shiftr (Z.land 126 128) 7 =? 0)) with false.
  cbv iota.
  change (firstn 2 (h2 :: h3 :: rfile)) with [h2; h3].
  change (skipn 2 (h2 :: h3 :: rfile)) with rfile.
  change (byte_at [h2; h3] 0) with (Some (int_of_byte h2)).
  change (byte_at [h2; h3] 1) with (Some (int_of_byte h3)).
  cbn [or_raise bind]. fold n.
  destruct (Z.land (int_of_byte h0) 15 =? 1); [|reflexivity].
  destruct (decode _); reflexivity.
Qed.

(** A frame without mask whose length byte is 127 is read as a frame of
    127 bytes. *)
Lemma read_frame_127 (h0 : byte) (rfile : list byte) :
  read_frame (h0 :: x7f :: rfile)
  = deliver (Z.land (int_of_byte h0) 15) (firstn 127 rfile) (skipn 127 rfile).
Proof.
  unfold read_frame, read, deliver.
  change (firstn 2 (h0 :: x7f :: rfile)) with [h0; x7f].
  change (skipn 2 (h0 :: x7f :: rfile)) with rfile.
  change (byte_at [h0; x7f] 0) with (Some (int_of_byte h0)).
  change (byte_at [h0; x7f] 1) with (Some 127).
  cbn [or_raise bind].
  change (Z.land 127 127 =? 126) with false.
  change (negb (Z.shiftr (Z.land 127 128) 7 =? 0)) with false.
  change (Z.land 127 127) with 127.
  cbv iota. cbn [bind].
  change (Z.to_nat 127) with 127%nat.
  destruct (Z.land (int_of_byte h0) 15 =? 1); [|reflexivity].
  destruct (decode _); reflexivity.
Qed.

Lemma firstn_exact {A : Type} (l r : list A) :
  firstn (List.length l) (l ++ r) = l.
Proof.
  rewrite firstn_app, Nat.sub_diag, firstn_all. simpl. apply app_nil_r.
Qed.

Lemma skipn_exact {A : Type} (l r : list A) :
  skipn (List.length l) (l ++ r) = r.
Proof.
  rewrite skipn_app, Nat.sub_diag, skipn_all. reflexivity.
Qed.

(** The two length bytes of the extended form give the size back. *)
Lemma extended_length (size : Z) (c1 c0 : byte) :
  0 <= size <= 65535 ->
  int_of_byte c1 = Z.land (Z.shiftr size 8) 255 ->
  int_of_byte c0 = Z.land size 255 ->
  Z.shiftl (int_of_byte c1) 8 + int_of_byte c0 = size.
Proof.
  intros Hs H1 H0. rewrite H1, H0, !land_255.
  rewrite Z.shiftr_div_pow2, Z.shiftl_mul_pow2 by lia.
  change (2 ^ 8) with 256. Z.to_euclidean_division_equations. lia.
Qed.

(** The header of a frame with the opcode of binary data, as [send]
    builds it for a payload of up to 65535 bytes, followed by that
    payload, is read as the payload. *)
Lemma read_frame_of_header (opcode size : Z) (header payload rest : list byte) :
  0 <= opcode <= 15 ->
  Z.of_nat (List.length payload) = size ->
  size <= 65535 ->
  get_header size opcode = Some header ->
  read_frame (header ++ payload ++ rest) = deliver opcode payload rest.
Proof.
  intros Hop Hlen Hsize Hh.
  assert (Hsz : 0 <= size) by lia.
  unfold get_header in Hh. rewrite first_byte_value in Hh.
  rewrite (Z.mod_small opcode 16) in Hh by lia.
  change (2 ^ 16 - 1) with 65535 in Hh.
  replace (65535 <? size) with false in Hh by (symmetry; apply Z.ltb_ge; lia).
  destruct (byte_of_int_some (128 + opcode) ltac:(lia)) as (b0 & Hb0 & Hv0).
  assert (Hland : Z.land (int_of_byte b0) 15 = opcode).
  { rewrite Hv0. change 15 with (Z.ones 4). rewrite Z.land_ones by lia.
    change (2 ^ 4) with 16. Z.to_euclidean_division_equations. lia. }
  destruct (125 <? size) eqn:Hmid.
  - apply Z.ltb_lt in Hmid. cbn [bytes] in Hh. rewrite Hb0 in Hh.
    change (byte_of_int 126) with (Some x7e) in Hh.
    destruct (byte_of_int_some _ (land_255_range (Z.shiftr size 8)))
      as (c1 & Hc1 & Hv1).
    destruct (byte_of_int_some _ (land_255_range size)) as (c0 & Hc0 & Hv0').
    rewrite Hc1, Hc0 in Hh. apply some_eq in Hh. subst header.
    cbn [app]. rewrite read_frame_extended. cbv zeta.
    rewrite (extended_length size c1 c0) by (assumption || lia).
    rewrite Hland, <- Hlen, Nat2Z.id, firstn_exact, skipn_exact.
    reflexivity.
  - apply Z.ltb_ge in Hmid. cbn [bytes] in Hh. rewrite Hb0 in Hh.
    destruct (byte_of_int_some size ltac:(lia)) as (c0 & Hc0 & Hv0').
    rewrite Hc0 in Hh. apply some_eq in Hh. subst header.
    cbn [app]. rewrite read_frame_short by lia.
    rewrite Hland, Hv0', <- Hlen, Nat2Z.id, firstn_exact, skipn_exact.
    reflexivity.
Qed.

(** *** UTF-8 *)

Ltac n_arith := zify; Z.to_euclidean_division_equations; lia.

(** The steps of the decoder on a sequence of one, two, three and four
    bytes. *)
Lemma utf8_decode_1 (b0 : N) (r : list N) :
  (b0 <? 128)%N = true ->
  utf8_decode (b0 :: r) = option_map (cons b0) (utf8_decode r).
Proof. intros H. simpl. rewrite H. reflexivity. Qed.

Lemma utf8_decode_2 (b0 b1 : N) (r : list N) :
  (194 <= b0 <= 223)%N -> (128 <= b1 <= 191)%N ->
  utf8_decode (b0 :: b1 :: r)
  = option_map (cons ((b0 - 192) * 64 + (b1 - 128))%N) (utf8_decode r).
Proof.
  intros H0 H1. simpl. unfold continuation, between.
  replace (b0 <? 128)%N with false by (symmetry; apply N.ltb_ge; lia).
  replace (194 <=? b0)%N with true by (symmetry; apply N.leb_le; lia).
  replace (b0 <=? 223)%N with true by (symmetry; apply N.leb_le; lia).
  replace (128 <=? b1)%N with true by (symmetry; apply N.leb_le; lia).
  replace (b1 <=? 191)%N with true by (symmetry; apply N.leb_le; lia).
  reflexivity.
Qed.

Lemma utf8_decode_3 (b0 b1 b2 : N) (r : list N) :
  (224 <= b0 <= 239)%N ->
  ((if (b0 =? 224)%N then 160 else 128) <= b1)%N ->
  (b1 <= (if (b0 =? 237)%N then 159 else 191))%N ->
  (128 <= b2 <= 191)%N ->
  utf8_decode (b0 :: b1 :: b2 :: r)
  = option_map (cons ((b0 - 224) * 4096 + (b1 - 128) * 64 + (b2 - 128))%N)
      (utf8_decode r).
Proof.
  intros H0 H1 H1' H2. simpl. unfold continuation, between.
  replace (b0 <? 128)%N with false by (symmetry; apply N.ltb_ge; lia).
  replace (b0 <=? 223)%N with false by (symmetry; apply N.leb_gt; lia).
  rewrite andb_false_r.
  replace (224 <=? b0)%N with true by (symmetry; apply N.leb_le; lia).
  replace (b0 <=? 239)%N with true by (symmetry; apply N.leb_le; lia).
  apply N.leb_le in H1. apply N.leb_le in H1'. rewrite H1, H1'.
  replace (128 <=? b2)%N with true by (symmetry; apply N.leb_le; lia).
  replace (b2 <=? 191)%N with true by (symmetry; apply N.leb_le; lia).
  reflexivity.
Qed.

Lemma utf8_decode_4 (b0 b1 b2 b3 : N) (r : list N) :
  (240 <= b0 <= 244)%N ->
  ((if (b0 =? 240)%N then 144 else 128) <= b1)%N ->
  (b1 <= (if (b0 =? 244)%N then 143 else 191))%N ->
  (128 <= b2 <= 191)%N -> (128 <= b3 <= 191)%N ->
  utf8_decode (b0 :: b1 :: b2 :: b3 :: r)
  = option_map
      (cons ((b0 - 240) * 262144 + (b1 - 128) * 4096 + (b2 - 128) * 64
             + (b3 - 128))%N)
      (utf8_decode r).
Proof.
  intros H0 H1 H1' H2 H3. simpl. unfold continuation, between.
  replace (b0 <? 128)%N with false by (symmetry; apply N.ltb_ge; lia).
  replace (b0 <=? 223)%N with false by (symmetry; apply N.leb_gt; lia).
  rewrite andb_false_r.
  replace (b0 <=? 239)%N with false by (symmetry; apply N.leb_gt; lia).
  rewrite andb_false_r.
  replace (240 <=? b0)%N with true by (symmetry; apply N.leb_le; lia).
  replace (b0 <=? 244)%N with true by (symmetry; apply N.leb_le; lia).
  apply N.leb_le in H1. apply N.leb_le in H1'. rewrite H1, H1'.
  replace (128 <=? b2)%N with true by (symmetry; apply N.leb_le; lia).
  replace (b2 <=? 191)%N with true by (symmetry; apply N.leb_le; lia).
  replace (128 <=? b3)%N with true by (symmetry; apply N.leb_le; lia).
  replace (b3 <=? 191)%N with true by (symmetry; apply N.leb_le; lia).
  reflexivity.
Qed.

Lemma utf8_decode_encode_char (c : N) (bs : list N) :
  utf8_encode_char c = Some bs ->
  forall r : list N,
    utf8_decode (bs ++ r) = option_map (cons c) (utf8_decode r).
Proof.
  unfold utf8_encode_char, between.
  destruct (c <? 128)%N eqn:H1.
  { intros E r. apply some_eq in E. subst bs. apply utf8_decode_1. exact H1. }
  apply N.ltb_ge in H1.
  destruct (c <? 2048)%N eqn:H2.
  { apply N.ltb_lt in H2. intros E r. apply some_eq in E. subst bs.
    etransitivity; [apply utf8_decode_2; n_arith|].
    do 2 f_equal. n_arith. }
  apply N.ltb_ge in H2.
  destruct (c <? 65536)%N eqn:H3.
  { apply N.ltb_lt in H3.
    destruct ((55296 <=? c) && (c <=? 57343))%N%bool eqn:Hs; [discriminate|].
    assert (Hns : ~ (55296 <= c <= 57343)%N).
    { intros (Ha & Hb). apply N.leb_le in Ha. apply N.leb_le in Hb.
      rewrite Ha, Hb in Hs. discriminate. }
    intros E r. apply some_eq in E. subst bs.
    etransitivity; [apply utf8_decode_3|].
    - n_arith.
    - destruct (N.eqb_spec (224 + c / 4096) 224) as [E0|E0]; n_arith.
    - destruct (N.eqb_spec (224 + c / 4096) 237) as [E0|E0]; n_arith.
    - n_arith.
    - do 2 f_equal. n_arith. }
  apply N.ltb_ge in H3.
  destruct (c <? 1114112)%N eqn:H4; [|discriminate].
  apply N.ltb_lt in H4. intros E r. apply some_eq in E. subst bs.
  etransitivity; [apply utf8_decode_4|].
  - n_arith.
  - destruct (N.eqb_spec (240 + c / 262144) 240) as [E0|E0]; n_arith.
  - destruct (N.eqb_spec (240 + c / 262144) 244) as [E0|E0]; n_arith.
  - n_arith.
  - n_arith.
  - do 2 f_equal. n_arith.
Qed.

Lemma utf8_decode_encode (s : str) (ns : list N) :
  utf8_encode s = Some ns -> utf8_decode ns = Some s.
Proof.
  revert ns. induction s as [|c s IH]; intros ns E; simpl in E.
  - injection E as <-. reflexivity.
  - destruct (utf8_encode_char c) as [bs|] eqn:Hc; [|discriminate].
    destruct (utf8_encode s) as [r|] eqn:Hs; [|discriminate].
    injection E as <-.
    rewrite (utf8_decode_encode_char c bs Hc), (IH r eq_refl). reflexivity.
Qed.

(** The elements of a [bytes] object built from a list of [int]s are
    those [int]s. *)
Lemma bytes_elements (l : list Z) (bs : list byte) :
  bytes l = Some bs -> map int_of_byte bs = l.
Proof.
  revert bs. induction l as [|x l IH]; intros bs E; simpl in E.
  - injection E as <-. reflexivity.
  - destruct (byte_of_int x) as [b|] eqn:Hb; [|discriminate].
    destruct (bytes l) as [r|] eqn:Hr; [|discriminate].
    injection E as <-. simpl. rewrite (IH r eq_refl). f_equal.
    unfold byte_of_int in Hb. destruct (x <? 0) eqn:Hx; [discriminate|].
    apply Z.ltb_ge in Hx. unfold int_of_byte.
    rewrite (Byte.to_of_N _ Hb). lia.
Qed.

Lemma bytes_length (l : list Z) (bs : list byte) :
  bytes l = Some bs -> List.length bs = List.length l.
Proof.
  intros E. rewrite <- (bytes_elements l bs E). symmetry. apply length_map.
Qed.

Lemma decode_bytes_of_utf8 (s : str) (ns : list N) (data : list byte) :
  utf8_encode s = Some ns ->
  bytes (map Z.of_N ns) = Some data ->
  decode data = Some s.
Proof.
  intros Hs E. unfold decode. apply bytes_elements in E.
  assert (Hn : map Byte.to_N data = ns).
  { transitivity (map Z.to_N (map int_of_byte data)).
    - rewrite map_map. apply map_ext. intros b. unfold int_of_byte.
      symmetry. apply N2Z.id.
    - rewrite E, map_map.
      rewrite (map_ext _ (fun x => x)) by (intros; apply N2Z.id).
      apply map_id. }
  rewrite Hn. apply utf8_decode_encode. exact Hs.
Qed.

(** What [str.encode] produces, [bytes.decode] reads back: encoding and
    decoding in UTF-8 is the identity on every string that can be
    encoded. *)
Theorem decode_encode (s : str) (data : list byte) :
  encode s = Some data -> decode data = Some s.
Proof.
  unfold encode. intros E.
  destruct (utf8_encode s) as [ns|] eqn:Hs; [|discriminate].
  exact (decode_bytes_of_utf8 s ns data Hs E).
Qed.

Lemma decode_encode_witness :
  decode [xc3; xa9; x41] = Some [233%N; 65%N].
Proof.
  apply (decode_encode [233%N; 65%N] [xc3; xa9; x41]). reflexivity.
Defined.


(** Each turn of the loop consumes at least the two bytes of a header. *)
Lemma read_frame_consumes (rfile rest : list byte) (h : handled) :
  read_frame rfile = inr (h, rest) ->
  (List.length rest + 2 <= List.length rfile)%nat.
Proof.
  destruct rfile as [|h0 [|h1 r]]; [discriminate | discriminate |].
  unfold read_frame, read.
  change (firstn 2 (h0 :: h1 :: r)) with [h0; h1].
  change (skipn 2 (h0 :: h1 :: r)) with r.
  change (byte_at [h0; h1] 0) with (Some (int_of_byte h0)).
  change (byte_at [h0; h1] 1) with (Some (int_of_byte h1)).
  cbn [or_raise bind].
  set (len := Z.land (int_of_byte h1) 127).
  set (mask := negb (Z.shiftr (Z.land (int_of_byte h1) 128) 7 =? 0)).
  set (opcode := Z.land (int_of_byte h0) 15).
  assert (Htail : forall (length : Z) (rfile : list byte),
             (let '(masking_key, rfile0) :=
                if mask then (firstn 4 rfile, skipn 4 rfile) else ([], rfile) in
              data <-
                (if mask
                 then
                   ints <-
                     or_raise IndexError
                       (xor_with_key masking_key 0
                          (firstn (Z.to_nat length) rfile0)) ;;
                   or_raise ValueError (bytes ints)
                 else inr (firstn (Z.to_nat length) rfile0)) ;;
              (if opcode =? 1
               then
                 message <- or_raise ValueError (decode data) ;;
                 inr (HandleTextMessage message,
                      skipn (Z.to_nat length) rfile0)
               else
                 if opcode =? 2
                 then inr (HandleBinaryMessage data,
                           skipn (Z.to_nat length) rfile0)
                 else
                   if opcode =? 8
                   then inr (HandleClose, skipn (Z.to_nat length) rfile0)
                   else inr (LogWarning opcode,
                             skipn (Z.to_nat length) rfile0)))
             = inr (h, rest) ->
             (List.length rest <= List.length rfile)%nat).
  { intros length rfile. destruct mask.
    - destruct (xor_with_key _ _ _); [|discriminate]. cbn [or_raise bind].
      destruct (bytes _); [|discriminate]. cbn [or_raise bind].
      destruct (opcode =? 1);
        [match goal with |- context [decode ?d] => destruct (decode d) end;
           [|discriminate]
        |destruct (opcode =? 2); [|destruct (opcode =? 8)]];
        cbn [or_raise bind]; intros E; apply inr_snd in E; subst rest;
        rewrite !length_skipn; lia.
    - cbn [bind].
      destruct (opcode =? 1);
        [match goal with |- context [decode ?d] => destruct (decode d) end;
           [|discriminate]
        |destruct (opcode =? 2); [|destruct (opcode =? 8)]];
        cbn [or_raise bind]; intros E; apply inr_snd in E; subst rest;
        rewrite !length_skipn; lia. }
  destruct (len =? 126).
  - destruct (byte_at (firstn 2 r) 0); [|discriminate].
    destruct (byte_at (firstn 2 r) 1); [|discriminate].
    cbn [or_raise bind]. intros E. apply Htail in E.
    rewrite length_skipn in E. simpl. lia.
  - cbn [bind]. intros E. apply Htail in E. simpl. lia.
Qed.


(** *** What [send] writes, [read_loop] reads *)

Lemma bytes_some (l : list Z) :
  Forall (fun x => 0 <= x <= 255) l -> exists bs, bytes l = Some bs.
Proof.
  induction 1 as [|x l Hx _ (bs & IH)].
  - exists []. reflexivity.
  - destruct (byte_of_int_some x Hx) as (b & Hb & _).
    exists (b :: bs). simpl. rewrite Hb, IH. reflexivity.
Qed.

(** The bytes of one encoded code point: between one and four, each in
    [range(256)], and a single byte exactly for ASCII. *)
Lemma utf8_encode_char_bytes (c : N) (bs : list N) :
  utf8_encode_char c = Some bs ->
  Forall (fun x => 0 <= Z.of_N x <= 255) bs
  /\ (1 <= List.length bs)%nat
  /\ (List.length bs = 1%nat <-> (c <? 128)%N = true).
Proof.
  unfold utf8_encode_char, between.
  destruct (c <? 128)%N eqn:H1.
  { intros E. apply some_eq in E. subst bs. apply N.ltb_lt in H1.
    split; [repeat constructor; lia|]. simpl. split; [lia | tauto]. }
  apply N.ltb_ge in H1.
  destruct (c <? 2048)%N eqn:H2.
  { apply N.ltb_lt in H2. intros E. apply some_eq in E. subst bs.
    split; [repeat constructor; n_arith|].
    simpl. split; [lia|]. split; [lia | discriminate]. }
  apply N.ltb_ge in H2.
  destruct (c <? 65536)%N eqn:H3.
  { apply N.ltb_lt in H3.
    destruct ((55296 <=? c) && (c <=? 57343))%N%bool; [discriminate|].
    intros E. apply some_eq in E. subst bs.
    split; [repeat constructor; n_arith|].
    simpl. split; [lia|]. split; [lia | discriminate]. }
  apply N.ltb_ge in H3.
  destruct (c <? 1114112)%N eqn:H4; [|discriminate].
  apply N.ltb_lt in H4. intros E. apply some_eq in E. subst bs.
  split; [repeat constructor; n_arith|].
  simpl. split; [lia|]. split; [lia | discriminate].
Qed.

Lemma utf8_encode_bytes (s : str) (ns : list N) :
  utf8_encode s = Some ns ->
  Forall (fun x => 0 <= x <= 255) (map Z.of_N ns)
  /\ (List.length s <= List.length ns)%nat
  /\ (List.length ns = List.length s
      <-> forallb (fun c => (c <? 128)%N) s = true).
Proof.
  revert ns. induction s as [|c s IH]; intros ns E; simpl in E.
  - apply some_eq in E. subst ns. simpl. split; [constructor|].
    split; [lia | tauto].
  - destruct (utf8_encode_char c) as [bs|] eqn:Hc; [|discriminate].
    destruct (utf8_encode s) as [r|] eqn:Hs; [|discriminate].
    apply some_eq in E. subst ns.
    destruct (utf8_encode_char_bytes c bs Hc) as (Hb & Hl & Hone).
    destruct (IH r eq_refl) as (Hr & Hlr & Hall).
    rewrite map_app, length_app. split; [|split].
    + apply Forall_app. split; [|exact Hr].
      apply Forall_map. exact Hb.
    + simpl. lia.
    + simpl. rewrite andb_true_iff, <- Hone, <- Hall. lia.
Qed.

(** X23.  [send] followed by [read_loop], binary data: the frame that [send]
    builds for a [bytes] object of up to 65535 bytes is read by one turn
    of [read_loop] as that object, and the input after the frame is left
    for the next turn. *)
Theorem send_binary_read_back (b rest : list byte) :
  Z.of_nat (List.length b) <= 65535 ->
  exists frame : list byte,
    data_to_send (Binary b) = Some frame
    /\ read_frame (frame ++ rest) = inr (HandleBinaryMessage b, rest).
Proof.
  intros Hlen. unfold data_to_send.
  destruct (get_header_some (Z.of_nat (List.length b)) 2 ltac:(lia))
    as (header & Hh & _).
  rewrite Hh. exists (header ++ b). split; [reflexivity|].
  rewrite <- app_assoc.
  rewrite (read_frame_of_header 2 (Z.of_nat (List.length b)) header b rest);
    [reflexivity | lia | reflexivity | lia | exact Hh].
Qed.

Lemma send_binary_read_back_witness :
  exists frame : list byte,
    data_to_send (Binary [x01; x02; x03]) = Some frame
    /\ read_frame (frame ++ [x88; x00])
       = inr (HandleBinaryMessage [x01; x02; x03], [x88; x00]).
Proof.
  apply (send_binary_read_back [x01; x02; x03] [x88; x00]). simpl. lia.
Defined.

(** X24.  [send] followed by [read_loop], text: a [str] of up to 65535 ASCII
    characters is read back as it was sent. *)
Theorem send_ascii_text_read_back (s : str) (rest : list byte) :
  Z.of_nat (List.length s) <= 65535 ->
  forallb (fun c => (c <? 128)%N) s = true ->
  exists frame : list byte,
    data_to_send (Text s) = Some frame
    /\ read_frame (frame ++ rest) = inr (HandleTextMessage s, rest).
Proof.
  intros Hlen Hascii. unfold data_to_send, encode.
  destruct (get_header_some (Z.of_nat (List.length s)) 1 ltac:(lia))
    as (header & Hh & _).
  rewrite Hh.
  assert (Hs : exists ns, utf8_encode s = Some ns).
  { clear Hlen Hh. induction s as [|c s IH]; [exists []; reflexivity|].
    simpl in Hascii. apply andb_true_iff in Hascii.
    destruct Hascii as (Hc & Hrest). destruct (IH Hrest) as (r & Hr).
    simpl. unfold utf8_encode_char. rewrite Hc, Hr. eexists. reflexivity. }
  destruct Hs as (ns & Hs). rewrite Hs.
  destruct (utf8_encode_bytes s ns Hs) as (Hrange & _ & Hsame).
  destruct (bytes_some _ Hrange) as (payload & Hp). rewrite Hp.
  exists (header ++ payload). split; [reflexivity|].
  rewrite <- app_assoc.
  rewrite (read_frame_of_header 1 (Z.of_nat (List.length s)) header payload
             rest); [| lia | | lia | exact Hh].
  - unfold deliver. simpl Z.eqb. cbv iota.
    rewrite (decode_bytes_of_utf8 s ns payload Hs Hp). reflexivity.
  - rewrite (bytes_length _ _ Hp), length_map.
    rewrite (proj2 Hsame Hascii). reflexivity.
Qed.

Lemma send_ascii_text_read_back_witness :
  exists frame : list byte,
    data_to_send (Text (lit "CQ")) = Some frame
    /\ read_frame (frame ++ []) = inr (HandleTextMessage (lit "CQ"), []).
Proof.
  apply (send_ascii_text_read_back (lit "CQ") []);
    [simpl; lia | reflexivity].
Defined.

(** X25.  The header of a text frame carries the number of characters of the
    [str], and the payload is its UTF-8 encoding: the payload is never
    shorter than the header says, and it is as long as the header says
    exactly when every character is ASCII. *)
Theorem text_header_counts_characters (s : str) (frame : list byte) :
  data_to_send (Text s) = Some frame ->
  exists header payload : list byte,
    frame = header ++ payload
    /\ get_header (Z.of_nat (List.length s)) 1 = Some header
    /\ encode s = Some payload
    /\ (List.length s <= List.length payload)%nat
    /\ (List.length payload = List.length s
        <-> forallb (fun c => (c <? 128)%N) s = true).
Proof.
  unfold data_to_send. intros E.
  destruct (get_header (Z.of_nat (List.length s)) 1) as [header|];
    [|discriminate].
  destruct (encode s) as [payload|] eqn:Hp; [|discriminate].
  apply some_eq in E. subst frame.
  exists header, payload. split; [reflexivity|]. split; [reflexivity|].
  split; [reflexivity|].
  unfold encode in Hp.
  destruct (utf8_encode s) as [ns|] eqn:Hs; [|discriminate].
  destruct (utf8_encode_bytes s ns Hs) as (_ & Hle & Hsame).
  rewrite (bytes_length _ _ Hp), length_map. split; assumption.
Qed.

Lemma text_header_counts_characters_witness :
  exists header payload : list byte,
    [x81; x01; xc3; xa9] = header ++ payload
    /\ get_header 1 1 = Some header
    /\ encode [233%N] = Some payload
    /\ (1 <= List.length payload)%nat
    /\ (List.length payload = 1%nat <-> false = true).
Proof.
  apply (text_header_counts_characters [233%N] [x81; x01; xc3; xa9]).
  reflexivity.
Defined.

Lemma utf8_encode_char_no_surrogate (c : N) (bs : list N) :
  utf8_encode_char c = Some bs -> between 55296 57343 c = false.
Proof.
  unfold utf8_encode_char.
  destruct (between 55296 57343 c) eqn:Hsur; [|reflexivity].
  unfold between in Hsur. apply andb_true_iff in Hsur.
  destruct Hsur as (Ha & Hb). apply N.leb_le in Ha, Hb.
  replace (c <? 128)%N with false by (symmetry; apply N.ltb_ge; lia).
  replace (c <? 2048)%N with false by (symmetry; apply N.ltb_ge; lia).
  replace (c <? 65536)%N with true by (symmetry; apply N.ltb_lt; lia).
  discriminate.
Qed.

Lemma utf8_encode_no_surrogate (s : str) (ns : list N) :
  utf8_encode s = Some ns ->
  existsb (fun c => between 55296 57343 c) s = false.
Proof.
  revert ns. induction s as [|c s IH]; intros ns E; [reflexivity|].
  simpl in E |- *.
  destruct (utf8_encode_char c) as [bs|] eqn:Hc; [|discriminate].
  destruct (utf8_encode s) as [r|] eqn:Hs; [|discriminate].
  rewrite (utf8_encode_char_no_surrogate c bs Hc), (IH r eq_refl).
  reflexivity.
Qed.

(** [str.encode] raises exactly for a string with a surrogate. *)
Lemma encode_none_iff (s : str) :
  forallb (fun c => (c <? 1114112)%N) s = true ->
  (encode s = None
   <-> existsb (fun c => between 55296 57343 c) s = true).
Proof.
  intros Hmax. unfold encode.
  destruct (utf8_encode s) as [ns|] eqn:Hs.
  - destruct (utf8_encode_bytes s ns Hs) as (Hrange & _).
    destruct (bytes_some _ Hrange) as (data & ->).
    rewrite (utf8_encode_no_surrogate s ns Hs).
    split; discriminate.
  - split; [intros _ | reflexivity].
    induction s as [|c s IH]; [discriminate|].
    simpl in Hs, Hmax |- *. apply andb_true_iff in Hmax.
    destruct Hmax as (Hc & Hmax). apply orb_true_iff.
    destruct (utf8_encode_char c) as [bs|] eqn:Hbs.
    + right. destruct (utf8_encode s) as [r|]; [discriminate|].
      apply IH; [exact Hmax | reflexivity].
    + left. unfold utf8_encode_char in Hbs. rewrite Hc in Hbs.
      destruct (c <? 128)%N; [discriminate|].
      destruct (c <? 2048)%N; [discriminate|].
      destruct (c <? 65536)%N; [|discriminate].
      destruct (between 55296 57343 c); [reflexivity | discriminate].
Qed.

(** X26.  [send] raises [ValueError] for exactly the strings that hold a
    surrogate: [str.encode] refuses them, and nothing has been written
    to the socket by then. *)
Theorem send_raises_on_surrogates (written : Z) (s : str) :
  forallb (fun c => (c <? 1114112)%N) s = true ->
  (send written (Text s) = inl ValueError
   <-> existsb (fun c => between 55296 57343 c) s = true).
Proof.
  intros Hmax. unfold send, data_to_send.
  destruct (get_header_some (Z.of_nat (List.length s)) 1 ltac:(lia))
    as (header & -> & _).
  pose proof (encode_none_iff s Hmax) as Hiff.
  destruct (encode s) as [payload|].
  - split; [discriminate|]. intros H. apply Hiff in H. discriminate.
  - split; [intros _; apply Hiff|]; reflexivity.
Qed.

Lemma send_raises_on_surrogates_witness :
  send 0 (Text [65%N; 55357%N]) = inl ValueError
  <-> existsb (fun c => between 55296 57343 c) [65%N; 55357%N] = true.
Proof.
  apply (send_raises_on_surrogates 0 [65%N; 55357%N]). reflexivity.
Defined.

(** X29.  [send] writes the frame once.  After a complete write it flushes and
    does nothing else.  After an incomplete write it logs the error and
    closes: it writes the close frame, two bytes with opcode 8 and
    length 0, flushes, finishes the handler and closes the connection;
    a [read_loop] at the other end reads that frame as a close. *)
Theorem send_closes_after_incomplete_write (written : Z) (data : message)
    (frame : list byte) :
  data_to_send data = Some frame ->
  send written data
  = inr (Write frame
         :: (if written =? Z.of_nat (List.length frame) then [Flush]
             else [ Log "incomplete write! closing socket!";
                    Write [x88; x00]; Flush; Finish; ConnectionClose ]))
  /\ (forall rest : list byte,
        read_frame ([x88; x00] ++ rest) = inr (HandleClose, rest)).
Proof.
  intros Hframe. split.
  - unfold send. rewrite Hframe.
    destruct (written =? Z.of_nat (List.length frame)); reflexivity.
  - intros rest. reflexivity.
Qed.

Lemma send_closes_after_incomplete_write_witness :
  send 2 (Binary [x01; x02; x03])
  = inr [ Write [x82; x03; x01; x02; x03];
          Log "incomplete write! closing socket!";
          Write [x88; x00]; Flush; Finish; ConnectionClose ].
Proof.
  apply (send_closes_after_incomplete_write 2 (Binary [x01; x02; x03])
           [x82; x03; x01; x02; x03]).
  reflexivity.
Defined.


(** X27.  [read_loop] does not know the 64-bit form of the length that
    [get_header] uses above 65535 bytes: the frame that [send] builds
    for a larger [bytes] object is read as a frame of 127 bytes, which
    start with the eight bytes of the length. *)
Theorem long_frame_is_misread (b rest : list byte) :
  65535 < Z.of_nat (List.length b) ->
  exists (frame data rest' : list byte),
    data_to_send (Binary b) = Some frame
    /\ read_frame (frame ++ rest) = inr (HandleBinaryMessage data, rest')
    /\ List.length data = 127%nat
    /\ data <> b.
Proof.
  intros Hlen. unfold data_to_send, get_header.
  change (2 ^ 16 - 1) with 65535.
  replace (65535 <? Z.of_nat (List.length b)) with true
    by (symmetry; apply Z.ltb_lt; lia).
  cbn [bytes].
  change (byte_of_int (Z.lor 128 (Z.land 2 15))) with (Some x82).
  change (byte_of_int 127) with (Some x7f).
  set (size := Z.of_nat (List.length b)) in *.
  destruct (byte_of_int_some _ (land_255_range (Z.shiftr size 56))) as (c7 & -> & _).
  destruct (byte_of_int_some _ (land_255_range (Z.shiftr size 48))) as (c6 & -> & _).
  destruct (byte_of_int_some _ (land_255_range (Z.shiftr size 40))) as (c5 & -> & _).
  destruct (byte_of_int_some _ (land_255_range (Z.shiftr size 32))) as (c4 & -> & _).
  destruct (byte_of_int_some _ (land_255_range (Z.shiftr size 24))) as (c3 & -> & _).
  destruct (byte_of_int_some _ (land_255_range (Z.shiftr size 16))) as (c2 & -> & _).
  destruct (byte_of_int_some _ (land_255_range (Z.shiftr size 8))) as (c1 & -> & _).
  destruct (byte_of_int_some _ (land_255_range size)) as (c0 & -> & _).
  set (tail := c7 :: c6 :: c5 :: c4 :: c3 :: c2 :: c1 :: c0 :: b ++ rest).
  exists ([x82; x7f; c7; c6; c5; c4; c3; c2; c1; c0] ++ b),
    (firstn 127 tail), (skipn 127 tail).
  split; [reflexivity|]. split; [|split].
  - rewrite <- app_assoc. cbn [app]. fold tail.
    rewrite read_frame_127. reflexivity.
  - apply firstn_length_le. unfold tail. simpl. rewrite length_app. lia.
  - intros E. apply (f_equal (@List.length byte)) in E.
    rewrite firstn_length_le in E;
      [| unfold tail; simpl; rewrite length_app; lia].
    lia.
Qed.

Lemma long_frame_is_misread_witness :
  exists (frame data rest' : list byte),
    data_to_send (Binary (repeat x00 (Z.to_nat 65536))) = Some frame
    /\ read_frame (frame ++ []) = inr (HandleBinaryMessage data, rest')
    /\ List.length data = 127%nat
    /\ data <> repeat x00 (Z.to_nat 65536).
Proof.
  apply (long_frame_is_misread (repeat x00 (Z.to_nat 65536)) []).
  rewrite repeat_length. lia.
Defined.

(** *** Masked frames *)

Lemma lxor_byte_range (x y : Z) :
  0 <= x <= 255 -> 0 <= y <= 255 -> 0 <= Z.lxor x y <= 255.
Proof.
  intros Hx Hy.
  assert (Hn : 0 <= Z.lxor x y) by (apply Z.lxor_nonneg; lia).
  split; [exact Hn|].
  destruct (Z.eq_dec (Z.lxor x y) 0) as [E|E]; [lia|].
  assert (Hlog : Z.log2 (Z.lxor x y) < 8).
  { pose proof (Z.log2_lxor x y ltac:(lia) ltac:(lia)) as Hmax.
    assert (Z.log2 x < 8).
    { destruct (Z.eq_dec x 0) as [->|]; [reflexivity|].
      apply Z.log2_lt_pow2; lia. }
    assert (Z.log2 y < 8).
    { destruct (Z.eq_dec y 0) as [->|]; [reflexivity|].
      apply Z.log2_lt_pow2; lia. }
    lia. }
  apply Z.log2_lt_pow2 in Hlog; lia.
Qed.

(** Masking twice with the same key gives the data back. *)
Lemma xor_with_key_twice (key : list byte) :
  List.length key = 4%nat ->
  forall (data : list byte) (index : nat),
  exists (ints : list Z) (masked : list byte),
    xor_with_key key index data = Some ints
    /\ bytes ints = Some masked
    /\ List.length masked = List.length data
    /\ exists ints' : list Z,
         xor_with_key key index masked = Some ints'
         /\ bytes ints' = Some data.
Proof.
  intros Hkey data.
  induction data as [|b data IH]; intros index.
  - exists [], []. repeat split. exists []. split; reflexivity.
  - destruct (IH (S index)) as (ints & masked & Hx & Hb & Hl & ints' & Hx' & Hb').
    assert (Hk : exists k, nth_error key (index mod 4) = Some k).
    { destruct (nth_error key (index mod 4)) as [k|] eqn:E; [eauto|].
      apply nth_error_None in E.
      pose proof (Nat.mod_upper_bound index 4 ltac:(lia)). lia. }
    destruct Hk as (k & Hk).
    pose proof (int_of_byte_range b) as Rb.
    pose proof (int_of_byte_range k) as Rk.
    destruct (byte_of_int_some _ (lxor_byte_range _ _ Rb Rk))
      as (m & Hm & Hmv).
    exists (Z.lxor (int_of_byte b) (int_of_byte k) :: ints), (m :: masked).
    cbn [xor_with_key bytes]. unfold byte_at. rewrite Hk. cbn [option_map].
    rewrite Hx, Hm, Hb. cbn [option_map].
    split; [reflexivity|]. split; [reflexivity|].
    split; [simpl; lia|].
    exists (int_of_byte b :: ints').
    rewrite Hx'. cbn [option_map bytes]. rewrite Hmv.
    rewrite Z.lxor_assoc, Z.lxor_nilpotent, Z.lxor_0_r.
    rewrite byte_of_int_of_byte, Hb'. split; reflexivity.
Qed.

(** A length byte with the mask bit and a length of at most 125. *)
Lemma length_byte_masked (h1 : byte) :
  128 <= int_of_byte h1 <= 253 ->
  Z.land (int_of_byte h1) 127 = int_of_byte h1 - 128
  /\ Z.shiftr (Z.land (int_of_byte h1) 128) 7 = 1.
Proof.
  destruct h1; cbv; intros [H1 H2];
    first [split; reflexivity
          | exfalso; apply H1; reflexivity
          | exfalso; apply H2; reflexivity].
Qed.

(** X28.  A frame that a client masked with a key of four bytes is handed on
    without the mask: for a payload of up to 125 bytes, the frame made of
    a header with the opcode of binary data, the key and the masked
    payload is read as the payload. *)
Theorem masked_frame_is_unmasked (h0 h1 : byte) (key payload rest : list byte) :
  List.length key = 4%nat ->
  Z.of_nat (List.length payload) <= 125 ->
  Z.land (int_of_byte h0) 15 = 2 ->
  int_of_byte h1 = 128 + Z.of_nat (List.length payload) ->
  exists (ints : list Z) (masked : list byte),
    xor_with_key key 0 payload = Some ints
    /\ bytes ints = Some masked
    /\ read_frame (h0 :: h1 :: key ++ masked ++ rest)
       = inr (HandleBinaryMessage payload, rest).
Proof.
  intros Hkey Hlen Hop Hh1.
  destruct (xor_with_key_twice key Hkey payload 0)
    as (ints & masked & Hx & Hb & Hl & ints' & Hx' & Hb').
  exists ints, masked. split; [exact Hx|]. split; [exact Hb|].
  destruct (length_byte_masked h1 ltac:(lia)) as (Hland & Hmask).
  unfold read_frame, read.
  change (firstn 2 (h0 :: h1 :: key ++ masked ++ rest)) with [h0; h1].
  change (skipn 2 (h0 :: h1 :: key ++ masked ++ rest))
    with (key ++ masked ++ rest).
  change (byte_at [h0; h1] 0) with (Some (int_of_byte h0)).
  change (byte_at [h0; h1] 1) with (Some (int_of_byte h1)).
  cbn [or_raise bind]. rewrite Hland, Hmask, Hop.
  replace (int_of_byte h1 - 128 =? 126) with false
    by (symmetry; apply Z.eqb_neq; lia).
  change (negb (1 =? 0)) with true. cbn [bind].
  assert (F4 : firstn 4 (key ++ masked ++ rest) = key)
    by (rewrite <- Hkey; apply firstn_exact).
  assert (S4 : skipn 4 (key ++ masked ++ rest) = masked ++ rest)
    by (rewrite <- Hkey; apply skipn_exact).
  rewrite F4, S4.
  replace (Z.to_nat (int_of_byte h1 - 128)) with (List.length masked) by lia.
  rewrite firstn_exact, skipn_exact, Hx'. cbn [or_raise bind].
  rewrite Hb'. reflexivity.
Qed.

Lemma masked_frame_is_unmasked_witness :
  exists (ints : list Z) (masked : list byte),
    xor_with_key [x01; x02; x03; x04] 0 [x41; x42] = Some ints
    /\ bytes ints = Some masked
    /\ read_frame (x82 :: x82 :: [x01; x02; x03; x04] ++ masked ++ [])
       = inr (HandleBinaryMessage [x41; x42], []).
Proof.
  apply (masked_frame_is_unmasked x82 x82 [x01; x02; x03; x04] [x41; x42] []);
    [reflexivity | simpl; lia | reflexivity | reflexivity].
Defined.

(** *** The loop *)

(** Unmasking does not raise: the key has four bytes, or the input ended
    within it and no payload is left. *)
Lemma unmasking_succeeds (rfile : list byte) (n : nat) :
  exists (ints : list Z) (data : list byte),
    xor_with_key (firstn 4 rfile) 0 (firstn n (skipn 4 rfile)) = Some ints
    /\ bytes ints = Some data.
Proof.
  destruct (Nat.le_gt_cases 4 (List.length rfile)) as [H | H].
  - destruct (xor_with_key_twice (firstn 4 rfile)
                ltac:(rewrite length_firstn; lia)
                (firstn n (skipn 4 rfile)) 0)
      as (ints & masked & H1 & H2 & _).
    exists ints, masked. split; assumption.
  - rewrite (skipn_all2 rfile) by lia. rewrite firstn_nil.
    exists [], []. split; reflexivity.
Qed.

(** A turn of the loop: the header is cut short by the end of the input
    and the turn raises [IndexError], or the turn reads a frame off the
    front of the input and delivers its payload. *)
Lemma read_frame_cases (rfile : list byte) :
  (header_cut_short rfile = true /\ read_frame rfile = inl IndexError)
  \/ (header_cut_short rfile = false
      /\ exists (h0 : byte) (tl frame data rest : list byte),
           rfile = h0 :: tl
           /\ rfile = frame ++ rest
           /\ (2 <= List.length frame)%nat
           /\ read_frame rfile
              = deliver (Z.land (int_of_byte h0) 15) data rest).
Proof.
  destruct rfile as [|h0 [|h1 r]];
    [left; split; reflexivity | left; split; reflexivity |].
  unfold header_cut_short, read_frame, read.
  change (firstn 2 (h0 :: h1 :: r)) with [h0; h1].
  change (skipn 2 (h0 :: h1 :: r)) with r.
  change (byte_at [h0; h1] 0) with (Some (int_of_byte h0)).
  change (byte_at [h0; h1] 1) with (Some (int_of_byte h1)).
  cbn [or_raise bind].
  set (len := Z.land (int_of_byte h1) 127).
  set (mask := negb (Z.shiftr (Z.land (int_of_byte h1) 128) 7 =? 0)).
  set (opcode := Z.land (int_of_byte h0) 15).
  assert (Htail : forall (length : Z) (rf : list byte),
            exists (body data : list byte),
              rf = body ++ skipn (Z.to_nat length)
                            (if mask then skipn 4 rf else rf)
              /\ (let '(masking_key, rfile0) :=
                    if mask then (firstn 4 rf, skipn 4 rf) else ([], rf) in
                  data <-
                    (if mask
                     then
                       ints <-
                         or_raise IndexError
                           (xor_with_key masking_key 0
                              (firstn (Z.to_nat length) rfile0)) ;;
                       or_raise ValueError (bytes ints)
                     else inr (firstn (Z.to_nat length) rfile0)) ;;
                  (if opcode =? 1
                   then
                     message <- or_raise ValueError (decode data) ;;
                     inr (HandleTextMessage message,
                          skipn (Z.to_nat length) rfile0)
                   else
                     if opcode =? 2
                     then inr (HandleBinaryMessage data,
                               skipn (Z.to_nat length) rfile0)
                     else
                       if opcode =? 8
                       then inr (HandleClose, skipn (Z.to_nat length) rfile0)
                       else inr (LogWarning opcode,
                                 skipn (Z.to_nat length) rfile0)))
                 = deliver opcode data
                     (skipn (Z.to_nat length)
                        (if mask then skipn 4 rf else rf))).
  { intros length rf. destruct mask.
    - destruct (unmasking_succeeds rf (Z.to_nat length))
        as (ints & data & Hx & Hb).
      exists (firstn 4 rf ++ firstn (Z.to_nat length) (skipn 4 rf)), data.
      split.
      + rewrite <- app_assoc, !firstn_skipn. reflexivity.
      + rewrite Hx. cbn [or_raise bind]. rewrite Hb. cbn [or_raise bind].
        unfold deliver.
        destruct (opcode =? 1); [destruct (decode data); reflexivity|].
        reflexivity.
    - exists (firstn (Z.to_nat length) rf), (firstn (Z.to_nat length) rf).
      split.
      + rewrite firstn_skipn. reflexivity.
      + cbn [bind]. unfold deliver.
        destruct (opcode =? 1);
          [destruct (decode (firstn (Z.to_nat length) rf)); reflexivity|].
        reflexivity. }
  destruct (len =? 126) eqn:Hlen.
  - destruct r as [|a [|b r2]];
      [left; split; reflexivity | left; split; reflexivity |].
    right. split; [reflexivity|].
    change (firstn 2 (a :: b :: r2)) with [a; b].
    change (skipn 2 (a :: b :: r2)) with r2.
    change (byte_at [a; b] 0) with (Some (int_of_byte a)).
    change (byte_at [a; b] 1) with (Some (int_of_byte b)).
    cbn [or_raise bind].
    destruct (Htail (Z.shiftl (int_of_byte a) 8 + int_of_byte b) r2)
      as (body & data & Hsplit & Hrun).
    exists h0, (h1 :: a :: b :: r2), (h0 :: h1 :: a :: b :: body), data,
      (skipn (Z.to_nat (Z.shiftl (int_of_byte a) 8 + int_of_byte b))
         (if mask then skipn 4 r2 else r2)).
    split; [reflexivity|]. split; [|split; [simpl; lia | exact Hrun]].
    cbn [app]. rewrite <- Hsplit. reflexivity.
  - right. split; [reflexivity|]. cbn [bind].
    destruct (Htail len r) as (body & data & Hsplit & Hrun).
    exists h0, (h1 :: r), (h0 :: h1 :: body), data,
      (skipn (Z.to_nat len) (if mask then skipn 4 r else r)).
    split; [reflexivity|]. split; [|split; [simpl; lia | exact Hrun]].
    cbn [app]. rewrite <- Hsplit. reflexivity.
Qed.


Lemma deliver_returns (opcode : Z) (data rfile rest : list byte)
    (h : handled) :
  deliver opcode data rfile = inr (h, rest) -> rest = rfile.
Proof.
  unfold deliver.
  destruct (opcode =? 1); [destruct (decode data); [|discriminate]|];
    [|destruct (opcode =? 2); [|destruct (opcode =? 8)]];
    intros E; congruence.
Qed.

Lemma deliver_raises (opcode : Z) (data rfile : list byte) (x : exn) :
  deliver opcode data rfile = inl x -> x = ValueError /\ opcode = 1.
Proof.
  unfold deliver.
  destruct (opcode =? 1) eqn:E1.
  - apply Z.eqb_eq in E1. destruct (decode data); [discriminate|].
    intros E. split; congruence.
  - destruct (opcode =? 2); [|destruct (opcode =? 8)]; discriminate.
Qed.

(** The exception of a turn of the loop tells what went wrong. *)
Lemma read_frame_raises (rfile : list byte) (x : exn) :
  read_frame rfile = inl x ->
  (x = IndexError <-> header_cut_short rfile = true)
  /\ (x = ValueError ->
      exists (h0 : byte) (tl : list byte),
        rfile = h0 :: tl /\ Z.land (int_of_byte h0) 15 = 1).
Proof.
  intros Hx.
  destruct (read_frame_cases rfile)
    as [(Hcut & Hr) | (Hcut & h0 & tl & frame & data & rest & E & _ & _ & Hr)].
  - assert (x = IndexError) by congruence. subst x.
    split; [tauto | discriminate].
  - rewrite Hr in Hx. apply deliver_raises in Hx. destruct Hx as [-> Hop].
    split.
    + split; [discriminate | congruence].
    + intros _. exists h0, tl. split; assumption.
Qed.

Lemma read_frame_leaves_suffix (rfile rest : list byte) (h : handled) :
  read_frame rfile = inr (h, rest) ->
  exists frame : list byte,
    rfile = frame ++ rest /\ (2 <= List.length frame)%nat.
Proof.
  intros Hx.
  destruct (read_frame_cases rfile)
    as [(_ & Hr) | (_ & h0 & tl & frame & data & rest' & _ & E & Hlen & Hr)].
  - congruence.
  - rewrite Hr in Hx. apply deliver_returns in Hx. subst rest'.
    exists frame. split; assumption.
Qed.

(** X30.  On an input of finitely many bytes [read_loop] stops: it
    returns right after the first close frame, which is the last thing
    it hands to the message handler, or it raises.  When it raises, it
    has read whole frames off the front of the input and the turn on what
    is left raises: [IndexError] exactly when the end of the input cuts
    the header of the next frame short (on an empty input at once), and
    [ValueError] otherwise, which only a text frame raises, by its
    payload that is not UTF-8. *)
Theorem read_loop_ends (fuel : nat) (rfile : list byte) :
  (List.length rfile < fuel)%nat ->
  exists (hs : list handled) (e : ending),
    read_loop fuel rfile = (hs, e)
    /\ e <> OutOfFuel
    /\ ((e = Returns
         /\ exists hs', hs = hs' ++ [HandleClose] /\ ~ In HandleClose hs')
        \/ ((exists x, e = Raises x) /\ ~ In HandleClose hs))
    /\ (rfile = [] -> hs = [] /\ e = Raises IndexError)
    /\ (forall x : exn,
          e = Raises x ->
          exists frames rest : list byte,
            rfile = frames ++ rest
            /\ read_frame rest = inl x
            /\ (x = IndexError <-> header_cut_short rest = true)
            /\ (x = ValueError ->
                exists (h0 : byte) (tl : list byte),
                  rest = h0 :: tl /\ Z.land (int_of_byte h0) 15 = 1)).
Proof.
  revert rfile. induction fuel as [|fuel IH]; intros rfile Hfuel; [lia|].
  cbn [read_loop].
  destruct (read_frame rfile) as [x | [h rest]] eqn:Hframe.
  - exists [], (Raises x). split; [reflexivity|]. split; [discriminate|].
    split; [|split].
    + right. split; [eauto | intros []].
    + intros ->. vm_compute in Hframe. split; congruence.
    + intros x' Hx'. assert (x' = x) by congruence. subst x'.
      exists [], rfile. split; [reflexivity|]. split; [exact Hframe|].
      apply read_frame_raises, Hframe.
  - destruct (read_frame_leaves_suffix rfile rest h Hframe)
      as (frame & Hsplit & Hflen).
    assert (Hlen : (List.length rest + 2 <= List.length rfile)%nat)
      by (rewrite Hsplit, length_app; lia).
    assert (Hne : rfile = [] -> False) by (intros ->; simpl in Hlen; lia).
    destruct (IH rest ltac:(lia))
      as (hs & e & Hrun & Hfu & Hshape & _ & Hraise).
    assert (Hraise' : forall x : exn,
              e = Raises x ->
              exists frames rest0 : list byte,
                rfile = frames ++ rest0
                /\ read_frame rest0 = inl x
                /\ (x = IndexError <-> header_cut_short rest0 = true)
                /\ (x = ValueError ->
                    exists (h0 : byte) (tl : list byte),
                      rest0 = h0 :: tl /\ Z.land (int_of_byte h0) 15 = 1)).
    { intros x Hx. destruct (Hraise x Hx) as (frames & rest0 & E & Hr).
      exists (frame ++ frames), rest0. split; [|exact Hr].
      rewrite Hsplit, E, app_assoc. reflexivity. }
    destruct h as [m | d | | op].
    + rewrite Hrun. exists (HandleTextMessage m :: hs), e.
      split; [reflexivity|]. split; [exact Hfu|].
      split; [|split; [tauto | exact Hraise']].
      destruct Hshape as [(He & hs' & -> & Hnot) | (He & Hnot)].
      * left. split; [exact He|]. exists (HandleTextMessage m :: hs').
        split; [reflexivity|]. intros [H | H]; [discriminate | tauto].
      * right. split; [exact He|]. intros [H | H]; [discriminate | tauto].
    + rewrite Hrun. exists (HandleBinaryMessage d :: hs), e.
      split; [reflexivity|]. split; [exact Hfu|].
      split; [|split; [tauto | exact Hraise']].
      destruct Hshape as [(He & hs' & -> & Hnot) | (He & Hnot)].
      * left. split; [exact He|]. exists (HandleBinaryMessage d :: hs').
        split; [reflexivity|]. intros [H | H]; [discriminate | tauto].
      * right. split; [exact He|]. intros [H | H]; [discriminate | tauto].
    + exists [HandleClose], Returns.
      split; [reflexivity|]. split; [discriminate|].
      split; [|split; [tauto | discriminate]].
      left. split; [reflexivity|]. exists []. split; [reflexivity | intros []].
    + rewrite Hrun. exists (LogWarning op :: hs), e.
      split; [reflexivity|]. split; [exact Hfu|].
      split; [|split; [tauto | exact Hraise']].
      destruct Hshape as [(He & hs' & -> & Hnot) | (He & Hnot)].
      * left. split; [exact He|]. exists (LogWarning op :: hs').
        split; [reflexivity|]. intros [H | H]; [discriminate | tauto].
      * right. split; [exact He|]. intros [H | H]; [discriminate | tauto].
Qed.

Lemma read_loop_ends_witness :
  exists (hs : list handled) (e : ending),
    read_loop 9 [x82; x01; x09; x81; x01; xff; x88; x00] = (hs, e)
    /\ e <> OutOfFuel
    /\ (forall x : exn,
          e = Raises x ->
          exists frames rest : list byte,
            [x82; x01; x09; x81; x01; xff; x88; x00] = frames ++ rest
            /\ read_frame rest = inl x
            /\ (x = IndexError <-> header_cut_short rest = true)).
Proof.
  destruct (read_loop_ends 9 [x82; x01; x09; x81; x01; xff; x88; x00])
    as (hs & e & H1 & H2 & _ & _ & H5); [simpl; lia|].
  exists hs, e. split; [exact H1|]. split; [exact H2|].
  intros x Hx. destruct (H5 x Hx) as (frames & rest & Ha & Hb & Hc & _).
  exists frames, rest. split; [exact Ha|]. split; [exact Hb | exact Hc].
Defined.

(** *** The 64-bit form of the length *)

(** X22.  Above 65535 the header holds the size in eight bytes, most
    significant first, after the marker 127; a size of 2^64 or more is
    cut down to its low 64 bits. *)
Theorem get_header_long_size (size opcode : Z) :
  65535 < size ->
  exists (first : byte) (length_bytes : list byte),
    get_header size opcode = Some (first :: x7f :: length_bytes)
    /\ List.length length_bytes = 8%nat
    /\ big_endian length_bytes = size mod 2 ^ 64.
Proof.
  intros Hsize.
  destruct (get_header_some size opcode ltac:(lia)) as (header & Hh & _).
  unfold get_header in Hh |- *. change (2 ^ 16 - 1) with 65535 in *.
  replace (65535 <? size) with true in * by (symmetry; apply Z.ltb_lt; lia).
  cbn [bytes] in *.
  destruct (byte_of_int (Z.lor 128 (Z.land opcode 15))) as [b0|];
    [|discriminate].
  change (byte_of_int 127) with (Some x7f).
  destruct (byte_of_int_some _ (land_255_range (Z.shiftr size 56))) as (c7 & -> & V7).
  destruct (byte_of_int_some _ (land_255_range (Z.shiftr size 48))) as (c6 & -> & V6).
  destruct (byte_of_int_some _ (land_255_range (Z.shiftr size 40))) as (c5 & -> & V5).
  destruct (byte_of_int_some _ (land_255_range (Z.shiftr size 32))) as (c4 & -> & V4).
  destruct (byte_of_int_some _ (land_255_range (Z.shiftr size 24))) as (c3 & -> & V3).
  destruct (byte_of_int_some _ (land_255_range (Z.shiftr size 16))) as (c2 & -> & V2).
  destruct (byte_of_int_some _ (land_255_range (Z.shiftr size 8))) as (c1 & -> & V1).
  destruct (byte_of_int_some _ (land_255_range size)) as (c0 & -> & V0).
  exists b0, [c7; c6; c5; c4; c3; c2; c1; c0].
  split; [reflexivity|]. split; [reflexivity|].
  unfold big_endian. cbn [fold_left].
  rewrite V7, V6, V5, V4, V3, V2, V1, V0, !land_255.
  rewrite !Z.shiftr_div_pow2 by lia.
  change (2 ^ 56) with 72057594037927936.
  change (2 ^ 48) with 281474976710656.
  change (2 ^ 40) with 1099511627776.
  change (2 ^ 32) with 4294967296.
  change (2 ^ 24) with 16777216.
  change (2 ^ 16) with 65536.
  change (2 ^ 8) with 256.
  change (2 ^ 64) with 18446744073709551616.
  Z.to_euclidean_division_equations. lia.
Qed.

Lemma get_header_long_size_witness :
  exists (first : byte) (length_bytes : list byte),
    get_header 70000 2 = Some (first :: x7f :: length_bytes)
    /\ List.length length_bytes = 8%nat
    /\ big_endian length_bytes = 70000 mod 2 ^ 64.
Proof.
  apply (get_header_long_size 70000 2). lia.
Defined.

End WebSocketFacts.

(** ** csdr.py: rate profile, start and stop, control channels *)

Module DspRestFacts.

Import Py Dsp DspRest DspFacts ChainFacts.
Local Open Scope Q_scope.
Local Open Scope string_scope.
Local Open Scope list_scope.

(** *** The rate profile at its edges *)





(** The condition of the loop holds at every decimation. *)
Lemma get_decimation_loop_runs_on (input_rate output_rate : Q) :
  (output_rate <= 0)%Q -> (0 <= input_rate)%Q ->
  forall (fuel : nat) (d : Z),
    (1 <= d)%Z -> get_decimation_loop fuel input_rate output_rate d = None.
Proof.
  intros Hout Hin fuel. induction fuel as [|fuel IH]; intros d Hd.
  - reflexivity.
  - simpl.
    assert (Hc : Qle_bool output_rate (input_rate / inject_Z (d + 1)) = true).
    { apply Qle_bool_iff. apply Qle_div_iff; [apply inject_Z_pos; lia|].
      assert (0 < inject_Z (d + 1))%Q by (apply inject_Z_pos; lia).
      assert (output_rate * inject_Z (d + 1) <= 0 * inject_Z (d + 1))%Q
        by (apply Qmult_le_compat_r; lra).
      lra. }
    rewrite Hc. apply IH. lia.
Qed.

(** X3.  With an output rate of zero or less and an input rate that is not
    negative the condition of the loop never fails: no amount of fuel
    lets [get_decimation] return, and [calculate_decimation] hangs with
    it. *)
Theorem get_decimation_never_returns (input_rate output_rate : Q)
    (fuel : nat) :
  (output_rate <= 0)%Q ->
  (0 <= input_rate)%Q ->
  get_decimation fuel input_rate output_rate = OutOfFuel
  /\ (forall self : dsp,
        samp_rate self = input_rate ->
        output_rate == get_audio_rate self ->
        calculate_decimation fuel self = OutOfFuel).
Proof.
  intros Hout Hin. split.
  - unfold get_decimation.
    rewrite (get_decimation_loop_runs_on input_rate output_rate Hout Hin fuel 1)
      by lia.
    reflexivity.
  - intros self Hs Ha. unfold calculate_decimation, get_decimation.
    rewrite Hs.
    rewrite (get_decimation_loop_runs_on input_rate (get_audio_rate self))
      by (try lia; try rewrite <- Ha; assumption).
    reflexivity.
Qed.

Lemma get_decimation_never_returns_witness :
  get_decimation 1000 250000 0 = OutOfFuel.
Proof.
  apply (get_decimation_never_returns 250000 0 1000); discriminate.
Defined.


(** *** The rate profile and the chain together *)




(** *** [start], [stop] and [restart] *)

Lemma prefix_append (a x y : string) :
  prefix a x = true -> prefix a (x ++ y)%string = true.
Proof.
  revert x. induction a as [|c a IH]; intros x H.
  - destruct (x ++ y)%string; reflexivity.
  - destruct x as [|d x]; [discriminate|].
    simpl in H |- *. destruct (ascii_dec c d); [|discriminate].
    apply IH. exact H.
Qed.

Lemma contains_append_l (a x y : string) :
  contains a x = true -> contains a (x ++ y)%string = true.
Proof.
  induction x as [|d x IH]; intros H.
  - simpl in H. destruct a; [|discriminate]. destruct y; reflexivity.
  - cbn [contains] in H. cbn [append contains].
    destruct (prefix a (String d x)) eqn:Hp.
    + change (String d (x ++ y)%string) with (String d x ++ y)%string.
      rewrite (prefix_append a (String d x) y Hp). reflexivity.
    + rewrite (IH H). destruct (prefix a (String d (x ++ y)%string)); reflexivity.
Qed.

Lemma contains_append_r (a x y : string) :
  contains a y = true -> contains a (x ++ y)%string = true.
Proof.
  intros H. induction x as [|d x IH]; [exact H|].
  cbn [append contains]. rewrite IH.
  destruct (prefix a (String d (x ++ y)%string)); reflexivity.
Qed.

(** A text that occurs in a stage occurs in the command that joins the
    stages. *)
Lemma contains_concat (a sep stage : string) (stages : list string) :
  In stage stages ->
  contains a stage = true ->
  contains a (String.concat sep stages) = true.
Proof.
  intros Hin Ha. induction stages as [|x stages IH]; [contradiction|].
  destruct stages as [|y stages].
  - destruct Hin as [-> | []]. exact Ha.
  - change (String.concat sep (x :: y :: stages))
      with (x ++ sep ++ String.concat sep (y :: stages))%string.
    destruct Hin as [-> | Hin].
    + apply contains_append_l. exact Ha.
    + apply contains_append_r, contains_append_r. apply IH. exact Hin.
Qed.

(** The chain of every kind but fft has the squelch stage. *)
Lemma chain_has_squelch_stage (self : dsp) (which : string) (ld : Q) :
  which <> "fft" ->
  last_decimation self = Some ld ->
  exists stages,
    chain self which = Ok stages
    /\ In "csdr squelch_and_smeter_cc --fifo {squelch_pipe} --outfifo {smeter_pipe} 5 {smeter_report_every}"
         stages.
Proof.
  intros Hw Hld. unfold chain. rewrite Hld.
  apply String.eqb_neq in Hw. rewrite Hw.
  eexists. split; [reflexivity|].
  apply in_or_app. left. apply in_or_app. left. apply in_or_app. left.
  apply in_or_app. right. simpl. tauto.
Qed.

(** [start] on a stopped object, for every kind but fft. *)
Lemma start_stopped (self : dsp) (ld : Q) :
  running self = false ->
  demodulator self <> "fft" ->
  last_decimation self = Some ld ->
  exists (self' : dsp) (stages : list string),
    start self = Ok self'
    /\ chain self (demodulator self) = Ok stages
    /\ running self' = true
    /\ processes self' = processes self ++ [Popen stages]
    /\ squelch_level self' = squelch_level self
    /\ demodulator self' = demodulator self
    /\ chain self' (demodulator self) = Ok stages
    /\ format_arguments self' = format_arguments self
    /\ squelch_pipe_file self'
       = Some [PercentG (if isDigitalVoice self None then 0%Q
                         else squelch_level self)].
Proof.
  intros Hrun Hw Hld.
  destruct (chain_has_squelch_stage (with_running true self)
              (demodulator self) ld Hw Hld) as (stages & Hchain & Hin).
  unfold start. rewrite Hrun.
  change (demodulator (with_running true self)) with (demodulator self).
  rewrite Hchain. cbn [bind].
  rewrite (contains_concat "{squelch_pipe}" " | " _ stages Hin eq_refl).
  exists (with_squelch_pipe_file
            (Some [PercentG (if isDigitalVoice self None then 0%Q
                             else squelch_level self)])
            (with_squelch_level (squelch_level self)
               (with_squelch_pipe_file (Some [])
                  (with_processes (processes self ++ [Popen stages])
                     (with_running true self))))), stages.
  split; [reflexivity|].
  split; [exact Hchain|].
  repeat (split; [reflexivity|]).
  split; [exact Hchain | split; reflexivity].
Qed.

(** The arguments of the command of [start] are defined when the rate
    profile is there with a decimation other than 0 and neither the
    sample rate nor the FFT rate is 0. *)
Lemma format_arguments_defined (self : dsp) (d : Z) (ld : Q) :
  decimation self = Some d ->
  d <> 0%Z ->
  last_decimation self = Some ld ->
  ~ samp_rate self == 0 ->
  fft_fps self <> 0%Z ->
  format_arguments self = Ok tt.
Proof.
  intros Hd Hnz Hld Hrate Hfps.
  unfold format_arguments, fft_block_size, if_samp_rate.
  rewrite Hd, Hld.
  apply Z.eqb_neq in Hfps. rewrite Hfps.
  apply Z.eqb_neq in Hnz. rewrite Hnz.
  assert (Hq : Qeq_bool (samp_rate self / inject_Z d) 0 = false).
  { destruct (Qeq_bool (samp_rate self / inject_Z d) 0) eqn:E;
      [|reflexivity].
    apply Qeq_bool_eq in E. exfalso. apply Hrate.
    apply Z.eqb_neq in Hnz.
    assert (Hd0 : ~ inject_Z d == 0).
    { intros H. apply Hnz. unfold Qeq in H. simpl in H. lia. }
    assert (E' : samp_rate self == samp_rate self / inject_Z d * inject_Z d)
      by (field; exact Hd0).
    rewrite E', E. ring. }
  assert (Hs : Qeq_bool (samp_rate self) 0 = false).
  { destruct (Qeq_bool (samp_rate self) 0) eqn:E; [|reflexivity].
    apply Qeq_bool_eq in E. contradiction. }
  destruct (fft_averages self =? 0)%Z; cbn [bind]; rewrite Hq, Hs;
    reflexivity.
Qed.

(** X5.  [start] on a stopped object that has no secondary demodulator, for
    every kind but fft.  When the rate profile is there with a
    decimation other than 0 and neither the sample rate nor the FFT rate
    is 0, the arguments of the command are defined, the chain is
    spawned, the object is running, and the squelch channel is opened
    afresh and holds one line, the stored squelch level or, for a
    digital voice kind, 0. *)
Theorem start_pushes_squelch_level (self : dsp) (d : Z) (ld : Q) :
  running self = false ->
  demodulator self <> "fft" ->
  decimation self = Some d ->
  d <> 0%Z ->
  last_decimation self = Some ld ->
  ~ samp_rate self == 0 ->
  fft_fps self <> 0%Z ->
  truthy (secondary_demodulator self) = false ->
  exists (self' : dsp) (stages : list string),
    start self = Ok self'
    /\ format_arguments self = Ok tt
    /\ chain self (demodulator self) = Ok stages
    /\ running self' = true
    /\ processes self' = processes self ++ [Popen stages]
    /\ squelch_level self' = squelch_level self
    /\ squelch_pipe_file self'
       = Some [PercentG (if isDigitalVoice self None then 0%Q
                         else squelch_level self)].
Proof.
  intros Hrun Hw Hd Hnz Hld Hrate Hfps _.
  destruct (start_stopped self ld Hrun Hw Hld)
    as (self' & stages & H1 & H2 & H3 & H4 & H5 & _ & _ & _ & H8).
  pose proof (format_arguments_defined self d ld Hd Hnz Hld Hrate Hfps).
  exists self', stages. repeat split; assumption.
Qed.

Lemma start_pushes_squelch_level_witness :
  exists (self' : dsp) (stages : list string),
    start (with_squelch_level (-150) (with_decimation 22 (250000 # 242550) init))
    = Ok self'
    /\ format_arguments
         (with_squelch_level (-150)
            (with_decimation 22 (250000 # 242550) init))
       = Ok tt
    /\ chain (with_squelch_level (-150)
                (with_decimation 22 (250000 # 242550) init)) "nfm"
       = Ok stages
    /\ running self' = true
    /\ processes self' = [Popen stages]
    /\ squelch_level self' = (-150)%Q
    /\ squelch_pipe_file self' = Some [PercentG (-150)].
Proof.
  apply (start_pushes_squelch_level
           (with_squelch_level (-150)
              (with_decimation 22 (250000 # 242550) init))
           22%Z (250000 # 242550));
    [reflexivity | discriminate | reflexivity | discriminate | reflexivity
     | discriminate | discriminate | reflexivity].
Defined.

(** [restart] on a running object that has spawned a chain, for every
    kind but fft. *)
Lemma restart_running (self : dsp) (ld : Q) :
  running self = true ->
  processes self <> [] ->
  demodulator self <> "fft" ->
  last_decimation self = Some ld ->
  exists (self' : dsp) (stages : list string),
    restart self = Ok self'
    /\ running self' = true
    /\ processes self' = processes self ++ [Killpg; Popen stages]
    /\ demodulator self' = demodulator self
    /\ chain self' (demodulator self) = Ok stages
    /\ format_arguments self' = format_arguments self
    /\ squelch_pipe_file self'
       = Some [PercentG (if isDigitalVoice self None then 0%Q
                         else squelch_level self)].
Proof.
  intros Hrun Hproc Hw Hld.
  unfold restart. rewrite Hrun. cbn [negb].
  assert (Hstop : stop self
                  = with_processes (processes self ++ [Killpg])
                      (with_running false self)).
  { unfold stop. simpl processes.
    destruct (processes self); [contradiction | reflexivity]. }
  rewrite Hstop.
  destruct (start_stopped
              (with_processes (processes self ++ [Killpg])
                 (with_running false self)) ld eq_refl Hw Hld)
    as (self' & stages & H1 & _ & H3 & H4 & _ & H6 & H7 & Hf & H8).
  exists self', stages. split; [exact H1|]. split; [exact H3|].
  split; [|split; [exact H6 | split; [exact H7 | split; [exact Hf | exact H8]]]].
  rewrite H4. simpl processes. rewrite <- app_assoc. reflexivity.
Qed.

(** X6.  [restart] on a running object that has spawned a chain and has no
    secondary demodulator, for every kind but fft, under the conditions
    that make the arguments of the command defined: the process group is
    killed once and spawned once, the object is running again, and the
    squelch channel is a new one that holds only the line pushed by
    [start], whatever was written to the old one. *)
Theorem restart_kills_and_spawns_once (self : dsp) (d : Z) (ld : Q) :
  running self = true ->
  processes self <> [] ->
  demodulator self <> "fft" ->
  decimation self = Some d ->
  d <> 0%Z ->
  last_decimation self = Some ld ->
  ~ samp_rate self == 0 ->
  fft_fps self <> 0%Z ->
  truthy (secondary_demodulator self) = false ->
  exists (self' : dsp) (stages : list string),
    restart self = Ok self'
    /\ format_arguments (stop self) = Ok tt
    /\ running self' = true
    /\ processes self' = processes self ++ [Killpg; Popen stages]
    /\ squelch_pipe_file self'
       = Some [PercentG (if isDigitalVoice self None then 0%Q
                         else squelch_level self)].
Proof.
  intros Hrun Hproc Hw Hd Hnz Hld Hrate Hfps _.
  destruct (restart_running self ld Hrun Hproc Hw Hld)
    as (self' & stages & H1 & H2 & H3 & _ & _ & _ & H6).
  assert (Hf : format_arguments (stop self) = Ok tt).
  { apply (format_arguments_defined (stop self) d ld);
      unfold stop; destruct (processes (with_running false self));
      assumption. }
  exists self', stages. repeat split; assumption.
Qed.

Lemma restart_kills_and_spawns_once_witness :
  exists (self' : dsp) (stages : list string),
    restart (mk_dsp 250000 11025 1024 5 0 (-4000) 4000 true "none" "none"
               "dmr" false false (-150) 50 None 1 (Some 5%Z)
               (Some (250000 # 240000)) (Some [PercentG 0; PercentG 0])
               [Popen []])
    = Ok self'
    /\ format_arguments
         (stop
            (mk_dsp 250000 11025 1024 5 0 (-4000) 4000 true "none" "none"
               "dmr" false false (-150) 50 None 1 (Some 5%Z)
               (Some (250000 # 240000)) (Some [PercentG 0; PercentG 0])
               [Popen []]))
       = Ok tt
    /\ running self' = true
    /\ processes self' = [Popen []] ++ [Killpg; Popen stages]
    /\ squelch_pipe_file self' = Some [PercentG 0].
Proof.
  apply (restart_kills_and_spawns_once
           (mk_dsp 250000 11025 1024 5 0 (-4000) 4000 true "none" "none"
              "dmr" false false (-150) 50 None 1 (Some 5%Z)
              (Some (250000 # 240000)) (Some [PercentG 0; PercentG 0])
              [Popen []])
           5%Z (250000 # 240000));
    [reflexivity | discriminate | discriminate | reflexivity | discriminate
     | reflexivity | discriminate | discriminate | reflexivity].
Defined.


(** With enough fuel, [calculate_decimation] returns for positive rates
    and stores a rate profile. *)
Lemma calculate_decimation_returns (self : dsp) :
  0 < get_audio_rate self ->
  get_audio_rate self <= samp_rate self ->
  exists fuel0 : nat, forall fuel : nat, (fuel0 <= fuel)%nat ->
    exists (d : Z) (ld : Q),
      calculate_decimation fuel self = Ok (with_decimation d ld self)
      /\ (1 <= d)%Z.
Proof.
  intros Hout Hle.
  set (bound := (Qfloor (samp_rate self / get_audio_rate self) + 1)%Z).
  exists (Z.to_nat (bound - 1)). intros fuel Hfuel.
  destruct (get_decimation_loop_stops (samp_rate self) (get_audio_rate self)
              bound Hout (ratio_bound _ _ Hout) fuel 1%Z)
    as (d & Hrun & Hd1 & _); [lia | | exact Hfuel |].
  { change (inject_Z 1) with 1. lra. }
  unfold calculate_decimation, get_decimation. rewrite Hrun.
  assert (Hz : Qeq_bool (get_audio_rate self) 0 = false).
  { destruct (Qeq_bool (get_audio_rate self) 0) eqn:E; [|reflexivity].
    apply Qeq_bool_eq in E. lra. }
  rewrite Hz. cbn [bind]. eauto.
Qed.







(** *** The control channels *)

(** X8.  The channels that [try_create_pipes] creates for the primary chain of
    each kind but fft: the channels of the band filter, the shift, the
    squelch and the signal meter always; the two taps of the IF signal
    exactly when a secondary demodulator is set; the metadata channel
    exactly for dmr and ysf; the DMR control channel exactly for dmr. *)
Theorem primary_pipes_by_kind (self : dsp) (ld : Q) (pipe_base_path : string) :
  In (demodulator self) ["nfm"; "am"; "ssb"; "dmr"; "dstar"; "nxdn"; "ysf"] ->
  last_decimation self = Some ld ->
  exists command,
    command_base self = Ok command
    /\ try_create_pipes pipe_base_path pipe_names command
       = let created (name : string) (c : bool) :=
           (name, if c then Some (pipe_base_path ++ name)%string else None) in
         [ created "bpf_pipe" true;
           created "shift_pipe" true;
           created "squelch_pipe" true;
           created "smeter_pipe" true;
           created "meta_pipe"
             (str_in (Some (demodulator self)) ["dmr"; "ysf"]);
           created "iqtee_pipe" (truthy (secondary_demodulator self));
           created "iqtee2_pipe" (truthy (secondary_demodulator self));
           created "dmr_control_pipe" (demodulator self =? "dmr") ].
Proof.
  intros Hwhich Hld. unfold command_base, chain. rewrite Hld.
  generalize (csdr_dynamic_bufsize self) (csdr_through self)
    (truthy (secondary_demodulator self)) (Qneq_bool ld 1)
    (audio_compression self =? "adpcm")
    (isWsjtMode self None
     && Qneq_bool (get_audio_rate self) (get_output_rate self))%bool.
  intros b1 b2 b3 b4 b5 b6.
  unfold isDigitalVoice.
  repeat (destruct Hwhich as [<- | Hwhich];
          [eexists; split; [reflexivity|] |]);
    [.. | contradiction].
  all: destruct b1, b2, b3, b4, b5, b6; vm_compute; reflexivity.
Qed.

Lemma primary_pipes_by_kind_witness :
  exists command,
    command_base
      (with_demodulator "ysf" (with_decimation 5 (250000 # 240000) init))
    = Ok command
    /\ try_create_pipes "/tmp/openwebrx_pipe_1_" pipe_names command
       = [ ("bpf_pipe", Some "/tmp/openwebrx_pipe_1_bpf_pipe");
           ("shift_pipe", Some "/tmp/openwebrx_pipe_1_shift_pipe");
           ("squelch_pipe", Some "/tmp/openwebrx_pipe_1_squelch_pipe");
           ("smeter_pipe", Some "/tmp/openwebrx_pipe_1_smeter_pipe");
           ("meta_pipe", Some "/tmp/openwebrx_pipe_1_meta_pipe");
           ("iqtee_pipe", None);
           ("iqtee2_pipe", None);
           ("dmr_control_pipe", None) ].
Proof.
  apply (primary_pipes_by_kind
           (with_demodulator "ysf" (with_decimation 5 (250000 # 240000) init))
           (250000 # 240000) "/tmp/openwebrx_pipe_1_").
  - simpl. tauto.
  - reflexivity.
Defined.

(** X9.  The fft chain needs no rate profile and names no control channel:
    [chain] returns it whether or not [calculate_decimation] has run,
    and [try_create_pipes] sets every channel attribute to [None] for
    its command. *)
Theorem fft_chain_has_no_pipes (self : dsp) (pipe_base_path : string) :
  demodulator self = "fft" ->
  exists stages,
    chain self "fft" = Ok stages
    /\ command_base self = Ok (String.concat " | " stages)
    /\ try_create_pipes pipe_base_path pipe_names (String.concat " | " stages)
       = map (fun name => (name, None)) pipe_names.
Proof.
  intros Hwhich. unfold command_base. rewrite Hwhich. unfold chain.
  generalize (csdr_dynamic_bufsize self) (csdr_through self)
    (fft_averages self =? 0)%Z (fft_compression self =? "adpcm").
  intros b1 b2 b3 b4.
  change ("fft" =? "fft") with true. cbv iota. cbn [bind].
  eexists. split; [reflexivity|]. split; [reflexivity|].
  destruct b1, b2, b3, b4; vm_compute; reflexivity.
Qed.

Lemma fft_chain_has_no_pipes_witness :
  exists stages,
    chain (with_demodulator "fft" init) "fft" = Ok stages
    /\ command_base (with_demodulator "fft" init)
       = Ok (String.concat " | " stages)
    /\ try_create_pipes "/tmp/openwebrx_pipe_1_" pipe_names
         (String.concat " | " stages)
       = map (fun name => (name, None)) pipe_names.
Proof.
  apply (fft_chain_has_no_pipes (with_demodulator "fft" init)
           "/tmp/openwebrx_pipe_1_"); reflexivity.
Defined.

(** *** The secondary demodulator *)




(** X11.  [start_secondary_demodulator], up to the creation of its control
    channel, for a secondary demodulator that is set and a rate profile
    that is there: the shift channel is created for bpsk31 and for no
    other kind; for fft and for the WSJT modes the attribute becomes
    [None]; for every other kind [secondary_chain] returns [None] and
    the method raises [TypeError]. *)
Theorem secondary_pipes_by_kind (self : dsp) (which : string) (d : Z)
    (ld : Q) (pipe_base_path : string) :
  secondary_demodulator self = Some which ->
  which <> "" ->
  decimation self = Some d ->
  d <> 0%Z ->
  last_decimation self = Some ld ->
  start_secondary_pipes pipe_base_path self
  = if which =? "fft" then
      SecondaryPipes [("secondary_shift_pipe", None)]
    else if which =? "bpsk31" then
      SecondaryPipes
        [("secondary_shift_pipe",
          Some (pipe_base_path ++ "secondary_shift_pipe")%string)]
    else if str_in (Some which) ["ft8"; "wspr"; "jt65"; "jt9"; "ft4"] then
      SecondaryPipes [("secondary_shift_pipe", None)]
    else SecondaryTypeError.
Proof.
  intros Hsd Hne Hd Hnz Hld.
  unfold start_secondary_pipes, if_samp_rate. rewrite Hsd, Hd.
  apply Z.eqb_neq in Hnz. rewrite Hnz.
  apply String.eqb_neq in Hne. unfold truthy. rewrite Hne.
  cbn [negb]. cbv iota.
  unfold secondary_chain, isWsjtMode. rewrite Hld.
  change ("fft" =? "fft") with true. cbv iota.
  generalize (fft_compression self =? "adpcm") (Qneq_bool ld 1).
  intros b1 b2.
  destruct (which =? "fft"), (which =? "bpsk31"),
    (str_in (Some which) ["ft8"; "wspr"; "jt65"; "jt9"; "ft4"]);
    destruct b1, b2; vm_compute; reflexivity.
Qed.

Lemma secondary_pipes_by_kind_witness :
  start_secondary_pipes "/tmp/openwebrx_pipe_1_"
    (with_secondary_demodulator (Some "rtty")
       (with_decimation 22 (250000 # 242550) init))
  = SecondaryTypeError.
Proof.
  apply (secondary_pipes_by_kind
           (with_secondary_demodulator (Some "rtty")
              (with_decimation 22 (250000 # 242550) init))
           "rtty" 22 (250000 # 242550) "/tmp/openwebrx_pipe_1_");
    [reflexivity | discriminate | reflexivity | discriminate | reflexivity].
Defined.

End DspRestFacts.

(** ** owrx/wsjt.py: the queue and the schedule of the choppers *)

Module ChopperRestFacts.

Import Float64 Chopper ChopperClock ChopperHistory ChopperFacts.
Local Open Scope Z_scope.
Local Open Scope list_scope.

Lemma pop_some (l rest : list string) (file : string) :
  pop l = Some (file, rest) -> l = rest ++ [file].
Proof.
  unfold pop. intros H.
  destruct (rev l) as [|x r] eqn:E; [discriminate|].
  assert (Hx : x = file) by congruence.
  assert (Hr : rev r = rest) by congruence.
  subst. rewrite <- (rev_involutive l), E. reflexivity.
Qed.

Lemma pop_none (l : list string) : pop l = None -> l = [].
Proof.
  unfold pop. intros H.
  destruct (rev l) as [|x r] eqn:E; [|discriminate].
  rewrite <- (rev_involutive l), E. reflexivity.
Qed.

Lemma sealed_app (h : list obs) (o : obs) :
  flat_map (fun o => match o with Sealed _ f => [f] | Handed _ _ => [] end)
    (h ++ [o])
  = flat_map (fun o => match o with Sealed _ f => [f] | Handed _ _ => [] end) h
    ++ match o with Sealed _ f => [f] | Handed _ _ => [] end.
Proof. rewrite flat_map_app. simpl. rewrite app_nil_r. reflexivity. Qed.

Lemma handed_history_app (h : list obs) (o : obs) :
  flat_map (fun o => match o with Handed _ f => [f] | Sealed _ _ => [] end)
    (h ++ [o])
  = flat_map (fun o => match o with Handed _ f => [f] | Sealed _ _ => [] end) h
    ++ match o with Handed _ f => [f] | Sealed _ _ => [] end.
Proof. rewrite flat_map_app. simpl. rewrite app_nil_r. reflexivity. Qed.

Lemma switchFiles_conserves (tz : timezone) (now : Z) (stamp : string)
    (self : chopper) :
  conserved self -> conserved (switchFiles tz now stamp self).
Proof.
  unfold conserved, sealed, handed, switchFiles, _scheduleNextSwitch.
  cbn [history fileQueue]. intros H.
  rewrite sealed_app, handed_history_app, app_nil_r, app_assoc.
  apply Permutation_app_tail. exact H.
Qed.

Lemma decode_conserves (self : chopper) :
  conserved self -> conserved (decode self).
Proof.
  unfold conserved, decode. intros H.
  destruct (pop (fileQueue self)) as [[file rest]|] eqn:E; [|exact H].
  apply pop_some in E. unfold sealed, handed in *. cbn [history fileQueue].
  rewrite sealed_app, handed_history_app, app_nil_r, E in *.
  rewrite <- app_assoc.
  apply (Permutation_trans H).
  apply Permutation_app_head, Permutation_app_comm.
Qed.

Lemma after_calls_conserves (tz : timezone) (calls : list call) :
  forall self : chopper,
    conserved self -> conserved (after_calls tz calls self).
Proof.
  unfold after_calls.
  induction calls as [|c calls IH]; intros self H; [exact H|].
  simpl. apply IH. destruct c as [now stamp|]; simpl.
  - apply switchFiles_conserves, H.
  - apply decode_conserves, H.
Qed.

(** X12.  Whatever the order of the rotations and the [decode] calls that
    reach a chopper after its start, no sealed file is lost or handed
    over twice: the files sealed so far are, up to order, the files
    handed to decoders followed by the files still in the queue. *)
Theorem sealed_files_are_handed_or_pending (tz : timezone)
    (c : chopper_class) (tmp ident stamp : string) (now : Z)
    (calls : list call) :
  let self := after_calls tz calls (init tz c tmp ident stamp now) in
  Permutation (sealed self) (handed self ++ fileQueue self).
Proof.
  intros self. apply after_calls_conserves.
  unfold conserved. simpl. apply Permutation_refl.
Qed.

(** X13.  The intervals of the five choppers divide the hour, so the
    start of the hour drops out: where the offset of local time from UTC
    does not change within two days of [now], the next decoding time is
    the least time after [now] at which the local wall clock, counted
    from the origin of the calendar, shows a multiple of the interval;
    it is at most one interval away.  Where the offset is itself a
    multiple of the interval, this is the least multiple of the interval
    since the epoch that lies after [now]. *)
Theorem getNextDecodingTime_is_aligned (tz : timezone) (c : chopper_class)
    (off now : Z) :
  constant_offset tz off now ->
  in_calendar now ->
  exists n next : Z,
    (class_interval c * 1000000 == inject_Z n)%Q
    /\ (getNextDecodingTime tz (class_interval c) now
        == inject_Z next / 1000000)%Q
    /\ next = ((now + off * 1000000) / n + 1) * n - off * 1000000
    /\ now < next <= now + n
    /\ ((off * 1000000) mod n = 0 -> next = (now / n + 1) * n).
Proof.
  intros Hconst Hcal.
  destruct (class_interval_microseconds c) as (n & _ & Hn).
  destruct (class_interval_facts c n Hn) as (_ & _ & _ & (k & Hk) & _).
  destruct (getNextDecodingTime_constant_offset tz c n off now Hn Hconst Hcal)
    as (Hn0 & Hnext).
  set (local_now := now + off * 1000000) in *.
  assert (E : replace_to_hour local_now
              + ((local_now - replace_to_hour local_now) / n + 1) * n
              = (local_now / n + 1) * n).
  { unfold replace_to_hour.
    pose proof (Z.div_mod local_now 3600000000 ltac:(lia)) as Hh.
    set (h := local_now / 3600000000) in *.
    set (r := local_now mod 3600000000) in *.
    replace (local_now - (local_now - r)) with r by lia.
    assert (Hq : local_now / n = h * k + r / n).
    { rewrite Hh, Hk.
      replace (k * n * h + r) with (r + (h * k) * n) by ring.
      rewrite Z.div_add by lia. lia. }
    rewrite Hq.
    replace ((h * k + r / n + 1) * n) with (h * (k * n) + (r / n + 1) * n)
      by ring.
    rewrite <- Hk. lia. }
  rewrite E in Hnext.
  exists n, ((local_now / n + 1) * n - off * 1000000).
  split; [exact Hn|]. split; [exact Hnext|]. split; [reflexivity|].
  pose proof (Z.div_mod local_now n ltac:(lia)) as Hdm.
  pose proof (Z.mod_pos_bound local_now n Hn0) as Hmod.
  split; [unfold local_now in *; nia|].
  intros Hoff.
  apply Z.mod_divide in Hoff; [|lia]. destruct Hoff as [j Hj].
  unfold local_now. rewrite Hj, Z.div_add by lia. ring.
Qed.

Lemma getNextDecodingTime_is_aligned_witness :
  exists n next : Z,
    (class_interval Ft4Chopper * 1000000 == inject_Z n)%Q
    /\ (getNextDecodingTime (fixed_offset 3600) (class_interval Ft4Chopper)
          1698538207000000
        == inject_Z next / 1000000)%Q
    /\ next = ((1698538207000000 + 3600 * 1000000) / n + 1) * n
              - 3600 * 1000000.
Proof.
  destruct (getNextDecodingTime_is_aligned (fixed_offset 3600) Ft4Chopper
              3600 1698538207000000) as (n & next & H1 & H2 & H3 & _).
  - split; [lia | intros u _; reflexivity].
  - unfold in_calendar. lia.
  - exists n, next. split; [exact H1|]. split; [exact H2 | exact H3].
Defined.

End ChopperRestFacts.

(** ** owrx/wsjt.py: what a call of the parser can do *)

Module ParserRestFacts.

Import PyStr Re ReFacts Parser ParserOutcome ParserFacts.
Local Open Scope list_scope.

Lemma or_raise_cases {Band A : Type} (e : exn) (x : option A)
    (evs : list (event Band)) :
  or_raise e x evs = (inl e, evs)
  \/ exists a, or_raise e x evs = (inr a, evs).
Proof. destruct x as [a|]; [right; exists a|left]; reflexivity. Qed.

Lemma parse_timestamp_cases {Band : Type} (today : Z) (instring : str)
    (dateformat : string) (evs : list (event Band)) :
  parse_timestamp today instring dateformat evs = (inl ValueError, evs)
  \/ exists t, parse_timestamp today instring dateformat evs = (inr t, evs).
Proof.
  unfold parse_timestamp, bind.
  destruct (Strptime.strptime instring dateformat) as [[[h m] s]|];
    [right; eexists|left]; reflexivity.
Qed.

Lemma parseLocator_cases {Band : Type} (self : parser Band) (msg mode : str)
    (evs : list (event Band)) :
  exists updates,
    parseLocator self msg mode evs = (inr tt, evs ++ updates)
    /\ at_most_one_update self updates.
Proof.
  unfold parseLocator, at_most_one_update.
  destruct (match_ locator_pattern msg) as [m|].
  - destruct (str_eqb (group m 2) (lit "RR73")).
    + exists []. rewrite app_nil_r. split; [reflexivity | left; reflexivity].
    + eexists. split; [reflexivity|]. right. eauto.
  - exists []. rewrite app_nil_r. split; [reflexivity | left; reflexivity].
Qed.

Lemma parseWsprMessage_cases {Band : Type} (self : parser Band) (msg : str)
    (evs : list (event Band)) :
  exists updates,
    parseWsprMessage self msg evs = (inr tt, evs ++ updates)
    /\ at_most_one_update self updates.
Proof.
  unfold parseWsprMessage, at_most_one_update.
  destruct (match_ wspr_splitter_pattern msg) as [m|].
  - eexists. split; [reflexivity|]. right. eauto.
  - exists []. rewrite app_nil_r. split; [reflexivity | left; reflexivity].
Qed.

Ltac step_or_raise :=
  match goal with
  | |- context [or_raise ?e ?x ?evs] =>
      let a := fresh "a" in
      let E := fresh "E" in
      destruct (or_raise_cases e x evs) as [E | (a & E)]; rewrite E; clear E
  end.

Lemma parse_from_jt9_cases {Band : Type} (today : Z) (self : parser Band)
    (msg : str) (evs : list (event Band)) :
  exists r updates,
    parse_from_jt9 today self msg evs = (r, evs ++ updates)
    /\ at_most_one_update self updates
    /\ ((r = inl IndexError /\ updates = [])
        \/ r = inl ValueError
        \/ exists out, r = inr out /\ record_keys out).
Proof.
  unfold parse_from_jt9. unfold bind at 1.
  step_or_raise.
  { exists (inl IndexError), []. rewrite app_nil_r.
    split; [reflexivity|]. split; [left; reflexivity|]. left. tauto. }
  cbv zeta. unfold bind at 1.
  match goal with
  | |- context [parse_timestamp ?t ?s ?f ?evs] =>
      destruct (parse_timestamp_cases t s f evs) as [E | (ts & E)];
        rewrite E; clear E
  end.
  { exists (inl ValueError), []. rewrite app_nil_r.
    split; [reflexivity|]. split; [left; reflexivity|]. right. left.
    reflexivity. }
  unfold bind at 1.
  match goal with
  | |- context [parseLocator ?s ?m ?md ?evs] =>
      destruct (parseLocator_cases s m md evs) as (updates & E & Hu);
        rewrite E; clear E
  end.
  unfold bind at 1. step_or_raise.
  { exists (inl ValueError), updates. split; [reflexivity|].
    split; [exact Hu|]. right. left. reflexivity. }
  unfold bind at 1. step_or_raise.
  { exists (inl ValueError), updates. split; [reflexivity|].
    split; [exact Hu|]. right. left. reflexivity. }
  unfold bind at 1. step_or_raise.
  { exists (inl ValueError), updates. split; [reflexivity|].
    split; [exact Hu|]. right. left. reflexivity. }
  eexists. exists updates. split; [reflexivity|].
  split; [exact Hu|]. right. right. eexists. split; [reflexivity|].
  left. reflexivity.
Qed.

Lemma parse_from_wsprd_cases {Band : Type} (today : Z) (self : parser Band)
    (msg : str) (evs : list (event Band)) :
  exists r updates,
    parse_from_wsprd today self msg evs = (r, evs ++ updates)
    /\ at_most_one_update self updates
    /\ (r = inl ValueError \/ exists out, r = inr out /\ record_keys out).
Proof.
  unfold parse_from_wsprd. cbv zeta. unfold bind at 1.
  match goal with
  | |- context [parseWsprMessage ?s ?m ?evs] =>
      destruct (parseWsprMessage_cases s m evs) as (updates & E & Hu);
        rewrite E; clear E
  end.
  unfold bind at 1.
  match goal with
  | |- context [parse_timestamp ?t ?s ?f ?evs] =>
      destruct (parse_timestamp_cases t s f evs) as [E | (ts & E)];
        rewrite E; clear E
  end.
  { exists (inl ValueError), updates. split; [reflexivity|].
    split; [exact Hu|]. left. reflexivity. }
  do 4 (unfold bind at 1; step_or_raise;
        [ exists (inl ValueError), updates; split; [reflexivity|];
          split; [exact Hu|]; left; reflexivity | ]).
  eexists. exists updates. split; [reflexivity|].
  split; [exact Hu|]. right. eexists. split; [reflexivity|].
  right. reflexivity.
Qed.

(** X14.  Everything that one call of [parse] can do, for any line at all.
    The call returns or raises [IndexError]; no [ValueError] leaves it.
    When it raises, nothing has happened: the map, the handler and the
    log are untouched.  When it returns, it has sent at most one update
    to the map, and after that either nothing (only when there was no
    update: a known debug message), or one record to the handler, or one
    entry to the log, never both; a record has the six keys of a jt9
    line or the seven of a wsprd line. *)
Theorem parse_outcomes {Band : Type} (today : Z) (self : parser Band)
    (data : list byte) (evs : list (event Band)) :
  exists r updates final,
    parse today self data evs = (r, evs ++ updates ++ final)
    /\ at_most_one_update self updates
    /\ ((r = inl IndexError /\ updates = [] /\ final = [])
        \/ (r = inr tt
            /\ ((updates = [] /\ final = [])
                \/ final = [LogException "error while parsing wsjt message"]
                \/ exists out, final = [WriteWsjtMessage out]
                               /\ record_keys out))).
Proof.
  assert (Hlog : forall updates,
            at_most_one_update self updates ->
            exists r updates0 final,
              (inr tt : exn + unit,
               evs ++ updates
                 ++ [LogException "error while parsing wsjt message"])
              = (r, evs ++ updates0 ++ final)
              /\ at_most_one_update self updates0
              /\ ((r = inl IndexError /\ updates0 = [] /\ final = [])
                  \/ (r = inr tt
                      /\ ((updates0 = [] /\ final = [])
                          \/ final
                             = [LogException "error while parsing wsjt message"]
                          \/ exists out, final = [WriteWsjtMessage out]
                                         /\ record_keys out)))).
  { intros updates Hu. exists (inr tt), updates. eexists.
    split; [reflexivity|]. split; [exact Hu|]. right. tauto. }
  assert (Hindex :
            exists r updates0 final,
              (inl IndexError : exn + unit, evs)
              = (r, evs ++ updates0 ++ final)
              /\ at_most_one_update self updates0
              /\ ((r = inl IndexError /\ updates0 = [] /\ final = [])
                  \/ (r = inr tt
                      /\ ((updates0 = [] /\ final = [])
                          \/ final
                             = [LogException "error while parsing wsjt message"]
                          \/ exists out, final = [WriteWsjtMessage out]
                                         /\ record_keys out)))).
  { exists (inl IndexError), [], []. rewrite app_nil_r.
    split; [reflexivity|]. split; [left; reflexivity|]. left. tauto. }
  assert (Hnothing :
            exists r updates0 final,
              (inr tt : exn + unit, evs)
              = (r, evs ++ updates0 ++ final)
              /\ at_most_one_update self updates0
              /\ ((r = inl IndexError /\ updates0 = [] /\ final = [])
                  \/ (r = inr tt
                      /\ ((updates0 = [] /\ final = [])
                          \/ final
                             = [LogException "error while parsing wsjt message"]
                          \/ exists out, final = [WriteWsjtMessage out]
                                         /\ record_keys out)))).
  { exists (inr tt), [], []. rewrite app_nil_r.
    split; [reflexivity|]. split; [left; reflexivity|]. right. tauto. }
  unfold parse, except_ValueError. unfold bind at 1.
  step_or_raise.
  { unfold emit. apply (Hlog []). left. reflexivity. }
  cbv zeta.
  destruct (startswith (rstrip a) (lit "<DecodeFinished>"));
    [exact Hnothing|].
  destruct (startswith (rstrip a) (lit " EOF on input file"));
    [exact Hnothing|].
  unfold bind at 1. step_or_raise; [exact Hindex|].
  assert (Hjt9 :
            exists r updates0 final,
              match
                match parse_from_jt9 today self (rstrip a) evs with
                | (inr out, evs') => emit (WriteWsjtMessage out) evs'
                | (inl e, evs') => (inl e, evs')
                end
              with
              | (inl ValueError, evs') =>
                  emit (LogException "error while parsing wsjt message") evs'
              | r => r
              end = (r, evs ++ updates0 ++ final)
              /\ at_most_one_update self updates0
              /\ ((r = inl IndexError /\ updates0 = [] /\ final = [])
                  \/ (r = inr tt
                      /\ ((updates0 = [] /\ final = [])
                          \/ final
                             = [LogException "error while parsing wsjt message"]
                          \/ exists out, final = [WriteWsjtMessage out]
                                         /\ record_keys out)))).
  { destruct (parse_from_jt9_cases today self (rstrip a) evs)
      as (r & updates & E & Hu & [(-> & ->) | [-> | (out & -> & Hout)]]);
      rewrite E; clear E.
    + rewrite app_nil_r. exact Hindex.
    + unfold emit. rewrite <- app_assoc. apply Hlog, Hu.
    + unfold emit. exists (inr tt), updates. eexists.
      split; [rewrite <- app_assoc; reflexivity|]. split; [exact Hu|].
      right. split; [reflexivity|]. right. right. eauto. }
  assert (Hwsprd :
            exists r updates0 final,
              match
                match parse_from_wsprd today self (rstrip a) evs with
                | (inr out, evs') => emit (WriteWsjtMessage out) evs'
                | (inl e, evs') => (inl e, evs')
                end
              with
              | (inl ValueError, evs') =>
                  emit (LogException "error while parsing wsjt message") evs'
              | r => r
              end = (r, evs ++ updates0 ++ final)
              /\ at_most_one_update self updates0
              /\ ((r = inl IndexError /\ updates0 = [] /\ final = [])
                  \/ (r = inr tt
                      /\ ((updates0 = [] /\ final = [])
                          \/ final
                             = [LogException "error while parsing wsjt message"]
                          \/ exists out, final = [WriteWsjtMessage out]
                                         /\ record_keys out)))).
  { destruct (parse_from_wsprd_cases today self (rstrip a) evs)
      as (r & updates & E & Hu & [-> | (out & -> & Hout)]);
      rewrite E; clear E.
    + unfold emit. rewrite <- app_assoc. apply Hlog, Hu.
    + unfold emit. exists (inr tt), updates. eexists.
      split; [rewrite <- app_assoc; reflexivity|]. split; [exact Hu|].
      right. split; [reflexivity|]. right. right. eauto. }
  unfold bind at 1.
  destruct (in_list a0 (keys modes)).
  - exact Hjt9.
  - unfold bind at 1. step_or_raise; [exact Hindex|].
    unfold ret at 1.
    destruct (in_list a1 (keys modes)); [exact Hjt9 | exact Hwsprd].
Qed.

(** *** The time of a line *)

Ltac digit_facts :=
  unfold isdigit, between, digit in *;
  repeat rewrite ?andb_true_iff, ?andb_false_iff, ?N.leb_le, ?N.leb_gt,
    ?N.eqb_eq, ?N.eqb_neq in *;
  lia.

(** What a directive reads is a number of its range, and it reads one or
    two characters. *)
Lemma alternatives_bound (d : Strptime.directive) (s : str) (v : Z) (r : str) :
  In (v, r) (Strptime.alternatives d s) ->
  (0 <= v <= match d with
             | Strptime.DirH => 23
             | Strptime.DirM => 59
             | Strptime.DirS => 61
             end)%Z
  /\ (List.length s <= List.length r + 2)%nat.
Proof.
  unfold Strptime.alternatives, Strptime.two_digits, Strptime.one_digit.
  destruct d; destruct s as [|a [|b s]]; simpl;
    repeat match goal with
           | |- context [if ?c then _ else _] => destruct c eqn:?
           end;
    simpl; intros H;
    repeat match goal with
           | H : _ \/ _ |- _ => destruct H as [H | H]
           | H : False |- _ => contradiction
           | H : (_, _) = (_, _) |- _ => injection H as <- <-
           end;
    (split; [digit_facts | simpl; lia]).
Qed.

Lemma matches_bound (ds : list Strptime.directive) :
  forall (s : str) (vs : list (Strptime.directive * Z)) (r : str),
    In (vs, r) (Strptime.matches ds s) ->
    forall d : Strptime.directive,
      (0 <= Strptime.field d vs
       <= match d with
          | Strptime.DirH => 23
          | Strptime.DirM => 59
          | Strptime.DirS => 61
          end)%Z.
Proof.
  induction ds as [|d0 ds IH]; intros s vs r Hin d.
  - destruct Hin as [E | []]. injection E as <- _. destruct d; simpl; lia.
  - cbn [Strptime.matches] in Hin. apply in_flat_map in Hin.
    destruct Hin as ((v & r1) & Halt & Hin).
    apply in_map_iff in Hin. destruct Hin as ((vs' & r') & E & Hin).
    injection E as <- <-.
    cbn [Strptime.field].
    destruct (Strptime.directive_eqb d d0) eqn:Ed.
    + apply alternatives_bound in Halt.
      destruct d, d0; try discriminate; tauto.
    + exact (IH r1 vs' r' Hin d).
Qed.

Lemma strptime_bound (s : str) (format : string) (h m sec : Z) :
  Strptime.strptime s format = Some (h, m, sec) ->
  (0 <= h <= 23 /\ 0 <= m <= 59 /\ 0 <= sec <= 59)%Z.
Proof.
  unfold Strptime.strptime.
  destruct (Strptime.directives (list_ascii_of_string format)) as [ds|];
    [|discriminate].
  destruct (Strptime.matches ds s) as [|[vs [|c r]] tl] eqn:E;
    try discriminate.
  destruct (Strptime.field Strptime.DirS vs <=? 59)%Z eqn:Es; [|discriminate].
  intros H.
  assert (Hh : Strptime.field Strptime.DirH vs = h) by congruence.
  assert (Hm : Strptime.field Strptime.DirM vs = m) by congruence.
  assert (Hs : Strptime.field Strptime.DirS vs = sec) by congruence.
  assert (Hin : In (vs, []) (Strptime.matches ds s))
    by (rewrite E; left; reflexivity).
  pose proof (matches_bound ds s vs [] Hin Strptime.DirH).
  pose proof (matches_bound ds s vs [] Hin Strptime.DirM).
  pose proof (matches_bound ds s vs [] Hin Strptime.DirS).
  apply Z.leb_le in Es. cbv beta iota in *. lia.
Qed.

(** X15.  For an ASCII text and the two formats that the parser passes,
    hours and minutes with or without seconds: a time stamp that
    [parse_timestamp] returns lies within today's date read as UTC, is a
    whole number of seconds given in milliseconds, and the call has
    touched neither the map, the handler nor the log. *)
Theorem parse_timestamp_within_today {Band : Type} (today : Z)
    (instring : str) (dateformat : string) (evs evs' : list (event Band))
    (t : Z) :
  forallb (fun c => (c <? 128)%N) instring = true ->
  dateformat = "%H%M"%string \/ dateformat = "%H%M%S"%string ->
  parse_timestamp today instring dateformat evs = (inr t, evs') ->
  evs' = evs
  /\ (today * 86400000 <= t < (today + 1) * 86400000)%Z
  /\ (t mod 1000 = 0)%Z.
Proof.
  intros _ _. unfold parse_timestamp, bind, or_raise.
  destruct (Strptime.strptime instring dateformat) as [[[h m] sec]|] eqn:E.
  - apply strptime_bound in E. unfold ret. intros H.
    assert (Ht : ((today * 86400 + h * 3600 + m * 60 + sec) * 1000)%Z = t)
      by congruence.
    assert (Hevs : evs = evs') by congruence.
    split; [congruence|]. split; [lia|].
    rewrite <- Ht. apply Z.mod_mul. lia.
  - unfold raise. discriminate.
Qed.

Lemma parse_timestamp_within_today_witness :
  (19000 * 86400000 <= 19000 * 86400000 + 80460000
   < (19000 + 1) * 86400000)%Z.
Proof.
  apply (parse_timestamp_within_today (Band := unit) 19000 (lit "2221")
           "%H%M" [] [] (19000 * 86400000 + 80460000)%Z).
  - reflexivity.
  - left. reflexivity.
  - reflexivity.
Defined.

(** The first match of a sequence of directives, from the first way its
    first directive reads the text and the first match of the rest. *)
Lemma first_match (d : Strptime.directive) (ds : list Strptime.directive)
    (s r1 r' : str) (v : Z) (tl : list (Z * str))
    (vs : list (Strptime.directive * Z))
    (tl' : list (list (Strptime.directive * Z) * str)) :
  Strptime.alternatives d s = (v, r1) :: tl ->
  Strptime.matches ds r1 = (vs, r') :: tl' ->
  exists tl'',
    Strptime.matches (d :: ds) s = ((d, v) :: vs, r') :: tl''.
Proof.
  intros Ha Hm. cbn [Strptime.matches]. rewrite Ha. cbn [flat_map].
  rewrite Hm. cbn [map app]. eexists. reflexivity.
Qed.

(** No match of [ds] reads more than two characters for each
    directive. *)
Lemma matches_leftover (ds : list Strptime.directive) :
  forall (s : str) (vs : list (Strptime.directive * Z)) (r : str),
    In (vs, r) (Strptime.matches ds s) ->
    (List.length s <= List.length r + 2 * List.length ds)%nat.
Proof.
  induction ds as [|d ds IH]; intros s vs r Hin.
  - destruct Hin as [E | []]. injection E as _ <-. simpl. lia.
  - cbn [Strptime.matches] in Hin. apply in_flat_map in Hin.
    destruct Hin as ((v & r1) & Halt & Hin).
    apply in_map_iff in Hin. destruct Hin as ((vs' & r') & E & Hin).
    injection E as _ <-.
    apply alternatives_bound in Halt. apply IH in Hin. simpl. lia.
Qed.

(** A text of digits that is long enough has a match. *)
Lemma matches_digits (ds : list Strptime.directive) :
  forall s : str,
    forallb isdigit s = true ->
    (List.length ds <= List.length s)%nat ->
    exists vs r tl, Strptime.matches ds s = (vs, r) :: tl.
Proof.
  induction ds as [|d ds IH]; intros s Hs Hlen.
  - simpl. eauto.
  - destruct s as [|a s]; [simpl in Hlen; lia|].
    simpl in Hs. apply andb_true_iff in Hs. destruct Hs as (Ha & Hs).
    assert (Hin : In (digit a, s) (Strptime.alternatives d (a :: s))).
    { unfold Strptime.alternatives, Strptime.one_digit. rewrite Ha.
      destruct d; repeat (apply in_or_app; right); left; reflexivity. }
    destruct (IH s Hs ltac:(simpl in Hlen; lia)) as (vs & r & tl & Hm).
    assert (Hin' : In ((d, digit a) :: vs, r)
                     (Strptime.matches (d :: ds) (a :: s))).
    { cbn [Strptime.matches]. apply in_flat_map.
      exists (digit a, s). split; [exact Hin|].
      rewrite Hm. left. reflexivity. }
    destruct (Strptime.matches (d :: ds) (a :: s)) as [|[vs0 r0] tl0];
      [contradiction | eauto].
Qed.

(** [strptime] raises when the first match leaves text over. *)
Lemma strptime_leftover (ds : list Strptime.directive) (s r : str)
    (format : string) (vs : list (Strptime.directive * Z))
    (tl : list (list (Strptime.directive * Z) * str)) :
  Strptime.directives (list_ascii_of_string format) = Some ds ->
  Strptime.matches ds s = (vs, r) :: tl ->
  r <> [] ->
  Strptime.strptime s format = None.
Proof.
  intros Hd Hm Hr. unfold Strptime.strptime. rewrite Hd, Hm.
  destruct r; [contradiction | reflexivity].
Qed.

(** When the first directive leaves digits that the other directives
    cannot use up, the first match leaves text over. *)
Lemma first_match_too_long (d : Strptime.directive)
    (ds : list Strptime.directive) (s r1 : str) (v : Z)
    (tl : list (Z * str)) :
  Strptime.alternatives d s = (v, r1) :: tl ->
  forallb isdigit r1 = true ->
  (2 * List.length ds < List.length r1)%nat ->
  exists vs r tl',
    Strptime.matches (d :: ds) s = (vs, r) :: tl' /\ r <> [].
Proof.
  intros Ha Hr1 Hlen.
  destruct (matches_digits ds r1 Hr1 ltac:(lia)) as (vs & r & tl' & Hm).
  destruct (first_match d ds s r1 r v tl vs tl' Ha Hm) as (tl'' & Hf).
  exists ((d, v) :: vs), r, tl''. split; [exact Hf|].
  assert (Hin : In (vs, r) (Strptime.matches ds r1))
    by (rewrite Hm; left; reflexivity).
  apply matches_leftover in Hin.
  destruct r; [simpl in Hin; lia | discriminate].
Qed.

(** How each directive reads two digits: as a number of two digits when
    that is in its range, which is then its first choice, and else as
    the first digit alone, which is then its only choice. *)
Lemma two_digit_alternatives (d : Strptime.directive) (a b : N) (r : str) :
  isdigit a = true -> isdigit b = true ->
  let v := (digit a * 10 + digit b)%Z in
  let top := match d with
             | Strptime.DirH => 23
             | Strptime.DirM => 59
             | Strptime.DirS => 61
             end%Z in
  ((v <= top)%Z ->
   exists tl, Strptime.alternatives d (a :: b :: r) = (v, r) :: tl)
  /\ ((top < v)%Z ->
      Strptime.alternatives d (a :: b :: r) = [(digit a, b :: r)]).
Proof.
  intros Ha Hb v top. subst v top.
  unfold Strptime.alternatives, Strptime.two_digits, Strptime.one_digit.
  rewrite Ha.
  destruct d;
    repeat match goal with
           | |- context [if ?c then _ else _] => destruct c eqn:?
           end;
    cbn [app]; (split; intros Hv);
    try (eexists; reflexivity); try reflexivity;
    exfalso; digit_facts.
Qed.

Lemma strptime_HM (a b c d : N) :
  isdigit a = true -> isdigit b = true ->
  isdigit c = true -> isdigit d = true ->
  let hh := (digit a * 10 + digit b)%Z in
  let mm := (digit c * 10 + digit d)%Z in
  Strptime.strptime [a; b; c; d] "%H%M"
  = if ((hh <=? 23) && (mm <=? 59))%Z then Some (hh, mm, 0%Z) else None.
Proof.
  intros Ha Hb Hc Hd hh mm.
  assert (Hds : Strptime.directives (list_ascii_of_string "%H%M")
                = Some [Strptime.DirH; Strptime.DirM]) by reflexivity.
  destruct (two_digit_alternatives Strptime.DirH a b [c; d] Ha Hb)
    as (HokH & HbadH).
  destruct (two_digit_alternatives Strptime.DirM c d [] Hc Hd)
    as (HokM & HbadM).
  fold hh in HokH, HbadH. fold mm in HokM, HbadM.
  destruct (Z.leb_spec hh 23) as [Hh | Hh]; cbn [andb].
  - destruct (HokH Hh) as (tlH & EH).
    destruct (Z.leb_spec mm 59) as [Hm | Hm].
    + destruct (HokM Hm) as (tlM & EM).
      destruct (first_match Strptime.DirM [] [c; d] [] [] mm tlM [] []
                  EM eq_refl) as (tl1 & E1).
      destruct (first_match Strptime.DirH [Strptime.DirM] [a; b; c; d]
                  [c; d] [] hh tlH _ _ EH E1) as (tl2 & E2).
      unfold Strptime.strptime. rewrite Hds, E2. reflexivity.
    + destruct (first_match Strptime.DirM [] [c; d] [d] [d] (digit c) [] [] []
                  (HbadM Hm) eq_refl) as (tl1 & E1).
      destruct (first_match Strptime.DirH [Strptime.DirM] [a; b; c; d]
                  [c; d] [d] hh tlH _ _ EH E1) as (tl2 & E2).
      apply (strptime_leftover _ _ _ _ _ _ Hds E2). discriminate.
  - destruct (first_match_too_long Strptime.DirH [Strptime.DirM]
                [a; b; c; d] [b; c; d] (digit a) [] (HbadH Hh))
      as (vs & r & tl & E & Hr).
    + simpl. rewrite Hb, Hc, Hd. reflexivity.
    + simpl. lia.
    + apply (strptime_leftover _ _ _ _ _ _ Hds E Hr).
Qed.

Lemma strptime_HMS (a b c d e f : N) :
  isdigit a = true -> isdigit b = true ->
  isdigit c = true -> isdigit d = true ->
  isdigit e = true -> isdigit f = true ->
  let hh := (digit a * 10 + digit b)%Z in
  let mm := (digit c * 10 + digit d)%Z in
  let ss := (digit e * 10 + digit f)%Z in
  Strptime.strptime [a; b; c; d; e; f] "%H%M%S"
  = if ((hh <=? 23) && (mm <=? 59) && (ss <=? 59))%Z
    then Some (hh, mm, ss) else None.
Proof.
  intros Ha Hb Hc Hd He Hf hh mm ss.
  assert (Hds : Strptime.directives (list_ascii_of_string "%H%M%S")
                = Some [Strptime.DirH; Strptime.DirM; Strptime.DirS])
    by reflexivity.
  destruct (two_digit_alternatives Strptime.DirH a b [c; d; e; f] Ha Hb)
    as (HokH & HbadH).
  destruct (two_digit_alternatives Strptime.DirM c d [e; f] Hc Hd)
    as (HokM & HbadM).
  destruct (two_digit_alternatives Strptime.DirS e f [] He Hf)
    as (HokS & HbadS).
  fold hh in HokH, HbadH. fold mm in HokM, HbadM. fold ss in HokS, HbadS.
  destruct (Z.leb_spec hh 23) as [Hh | Hh]; cbn [andb].
  - destruct (HokH Hh) as (tlH & EH).
    destruct (Z.leb_spec mm 59) as [Hm | Hm]; cbn [andb].
    + destruct (HokM Hm) as (tlM & EM).
      destruct (Z_le_gt_dec ss 61) as [Hs | Hs].
      * destruct (HokS Hs) as (tlS & ES).
        destruct (first_match Strptime.DirS [] [e; f] [] [] ss tlS [] []
                    ES eq_refl) as (tl0 & E0).
        destruct (first_match Strptime.DirM [Strptime.DirS] [c; d; e; f]
                    [e; f] [] mm tlM _ _ EM E0) as (tl1 & E1).
        destruct (first_match Strptime.DirH
                    [Strptime.DirM; Strptime.DirS] [a; b; c; d; e; f]
                    [c; d; e; f] [] hh tlH _ _ EH E1) as (tl2 & E2).
        unfold Strptime.strptime. rewrite Hds, E2.
        cbn [Strptime.field Strptime.directive_eqb].
        destruct (ss <=? 59)%Z; reflexivity.
      * destruct (first_match Strptime.DirS [] [e; f] [f] [f] (digit e)
                    [] [] [] (HbadS ltac:(lia)) eq_refl) as (tl0 & E0).
        destruct (first_match Strptime.DirM [Strptime.DirS] [c; d; e; f]
                    [e; f] [f] mm tlM _ _ EM E0) as (tl1 & E1).
        destruct (first_match Strptime.DirH
                    [Strptime.DirM; Strptime.DirS] [a; b; c; d; e; f]
                    [c; d; e; f] [f] hh tlH _ _ EH E1) as (tl2 & E2).
        rewrite (strptime_leftover _ _ _ _ _ _ Hds E2) by discriminate.
        destruct (Z.leb_spec ss 59); [lia | reflexivity].
    + destruct (first_match_too_long Strptime.DirM [Strptime.DirS]
                  [c; d; e; f] [d; e; f] (digit c) [] (HbadM Hm))
        as (vs & r & tl & E & Hr).
      * simpl. rewrite Hd, He, Hf. reflexivity.
      * simpl. lia.
      * destruct (first_match Strptime.DirH
                    [Strptime.DirM; Strptime.DirS] [a; b; c; d; e; f]
                    [c; d; e; f] r hh tlH _ _ EH E) as (tl2 & E2).
        apply (strptime_leftover _ _ _ _ _ _ Hds E2 Hr).
  - destruct (first_match_too_long Strptime.DirH
                [Strptime.DirM; Strptime.DirS]
                [a; b; c; d; e; f] [b; c; d; e; f] (digit a) [] (HbadH Hh))
      as (vs & r & tl & E & Hr).
    + simpl. rewrite Hb, Hc, Hd, He, Hf. reflexivity.
    + simpl. lia.
    + apply (strptime_leftover _ _ _ _ _ _ Hds E Hr).
Qed.

(** X16.  A time of four digits read with the format of hours and minutes,
    and a time of six digits read with the format of hours, minutes and
    seconds: [parse_timestamp] returns that time of today, in
    milliseconds, when the hour is at most 23, the minute at most 59 and
    the second at most 59, and raises [ValueError] in every other
    case. *)
Theorem parse_timestamp_of_digits {Band : Type} (today : Z)
    (a b c d e f : N) (evs : list (event Band)) :
  isdigit a = true -> isdigit b = true ->
  isdigit c = true -> isdigit d = true ->
  isdigit e = true -> isdigit f = true ->
  let hh := (digit a * 10 + digit b)%Z in
  let mm := (digit c * 10 + digit d)%Z in
  let ss := (digit e * 10 + digit f)%Z in
  parse_timestamp today [a; b; c; d] "%H%M" evs
  = (if ((hh <=? 23) && (mm <=? 59))%Z
     then inr ((today * 86400 + hh * 3600 + mm * 60 + 0) * 1000)%Z
     else inl ValueError,
     evs)
  /\ parse_timestamp today [a; b; c; d; e; f] "%H%M%S" evs
     = (if ((hh <=? 23) && (mm <=? 59) && (ss <=? 59))%Z
        then inr ((today * 86400 + hh * 3600 + mm * 60 + ss) * 1000)%Z
        else inl ValueError,
        evs).
Proof.
  intros Ha Hb Hc Hd He Hf hh mm ss.
  unfold parse_timestamp, bind.
  rewrite (strptime_HM a b c d Ha Hb Hc Hd).
  rewrite (strptime_HMS a b c d e f Ha Hb Hc Hd He Hf).
  fold hh mm ss.
  split.
  - destruct ((hh <=? 23) && (mm <=? 59))%Z; reflexivity.
  - destruct ((hh <=? 23) && (mm <=? 59) && (ss <=? 59))%Z; reflexivity.
Qed.

Lemma parse_timestamp_of_digits_witness :
  parse_timestamp (Band := unit) 0 (lit "2600") "%H%M" []
  = (inl ValueError, [])
  /\ parse_timestamp (Band := unit) 0 (lit "260059") "%H%M%S" []
     = (inl ValueError, []).
Proof.
  apply (parse_timestamp_of_digits (Band := unit) 0 50 54 48 48 53 57 []);
    reflexivity.
Defined.

(** *** The payload of a WSPR line *)

(** A repetition that has taken its minimum succeeds when the rest of
    the pattern succeeds wherever the repetition stops. *)
Lemma repetition_succeeds {A : Type} (k : str -> option A) (c : N -> bool)
    (lo : nat) (hi : option nat) (P : A -> Prop) :
  (forall t, exists r, k t = Some r /\ P r) ->
  forall (s : str) (n : nat),
    (lo <= n)%nat ->
    exists r, repetition k c lo hi s n = Some r /\ P r.
Proof.
  intros Hk s. induction s as [|ch s IH]; intros n Hn.
  - simpl. apply Nat.leb_le in Hn. rewrite Hn. apply Hk.
  - cbn [repetition].
    assert (Hstop : exists r,
              (if Nat.leb lo n then k (ch :: s) else None) = Some r /\ P r).
    { apply Nat.leb_le in Hn. rewrite Hn. apply Hk. }
    destruct (c ch && match hi with
                      | Some h => Nat.ltb n h
                      | None => true
                      end); [|exact Hstop].
    destruct (IH (S n) ltac:(lia)) as (r & -> & Hr). eauto.
Qed.

Lemma wspr_splitter_pattern_matches (callsign rest : str)
    (w1 w2 a b c d p : N) :
  forallb upper_or_digit callsign = true ->
  isspace w1 = true ->
  A_to_R a = true -> A_to_R b = true ->
  zero_to_nine c = true -> zero_to_nine d = true ->
  isspace w2 = true ->
  zero_to_nine p = true ->
  exists m,
    match_ wspr_splitter_pattern
      (callsign ++ [w1] ++ [a; b; c; d] ++ [w2] ++ [p] ++ rest) = Some m
    /\ group m 1 = callsign /\ group m 2 = [a; b; c; d].
Proof.
  intros Hcall Hw1 Ha Hb Hc Hd Hw2 Hp.
  unfold match_, wspr_splitter_pattern, star, once, plus, twice.
  cbn [run app].
  set (msg := callsign ++ w1 :: a :: b :: c :: d :: w2 :: p :: rest).
  set (st1 := open 1 msg (mk_captures [] [])).
  match goal with
  | |- exists m, repetition ?k _ _ _ _ _ = _ /\ _ => set (k1 := k)
  end.
  assert (Hk : exists m,
            k1 (w1 :: a :: b :: c :: d :: w2 :: p :: rest) = Some m
            /\ group m 1 = callsign /\ group m 2 = [a; b; c; d]).
  { subst k1. cbn beta. cbn [run].
    rewrite once_hit by exact Hw1. cbn [run].
    rewrite twice_hit by assumption.
    rewrite twice_hit by assumption.
    rewrite once_hit by exact Hw2. cbn [run].
    cbn [repetition]. rewrite Hp. cbn [andb Nat.leb].
    match goal with
    | |- exists m, match repetition ?kk ?cc ?lo ?hi ?ss ?nn with _ => _ end = _ /\ _ =>
        assert (Hall : forall t, exists r,
                  kk t = Some r
                  /\ (group r 1 = callsign /\ group r 2 = [a; b; c; d]));
        [ | destruct (repetition_succeeds kk cc lo hi _ Hall ss nn ltac:(lia))
              as (m & -> & Hm) ]
    end.
    - intros t. eexists. split; [reflexivity|].
      unfold st1, group, close, open. cbn [started groups lookup Nat.eqb].
      split.
      + subst msg. rewrite length_app. cbn [List.length].
        rewrite Nat.add_sub. rewrite firstn_app, Nat.sub_diag, firstn_all.
        apply app_nil_r.
      + replace (List.length (a :: b :: c :: d :: w2 :: p :: rest)
                 - List.length (w2 :: p :: rest))%nat with 4%nat
          by (cbn [List.length]; lia).
        reflexivity.
    - exists m. split; [reflexivity | exact Hm]. }
  destruct Hk as (m & Hk & Hm).
  exists m. split; [|exact Hm].
  subst msg.
  apply unbounded_takes_all with (s := w1 :: a :: b :: c :: d :: w2 :: p :: rest).
  - exact Hk.
  - exact Hcall.
  - lia.
  - apply space_not_upper_or_digit. exact Hw1.
Qed.

(** X17.  A WSPR payload that starts with a call sign, a white space, a
    locator, a white space and a digit makes [parseWsprMessage] send one
    update to the map, with that call sign, that locator and the mode
    WSPR.  The call sign may be empty, and the locator RR73 is not left
    out as it is by [parseLocator]. *)
Theorem parseWsprMessage_updates_map {Band : Type} (self : parser Band)
    (callsign rest : str) (w1 w2 a b c d p : N) (evs : list (event Band)) :
  forallb upper_or_digit callsign = true ->
  isspace w1 = true ->
  A_to_R a = true -> A_to_R b = true ->
  zero_to_nine c = true -> zero_to_nine d = true ->
  isspace w2 = true ->
  zero_to_nine p = true ->
  parseWsprMessage self
    (callsign ++ [w1] ++ [a; b; c; d] ++ [w2] ++ [p] ++ rest) evs
  = (inr tt,
     evs ++ [UpdateLocation callsign (LocatorLocation [a; b; c; d])
               (lit "WSPR") (band self)]).
Proof.
  intros Hcall Hw1 Ha Hb Hc Hd Hw2 Hp.
  destruct (wspr_splitter_pattern_matches callsign rest w1 w2 a b c d p
              Hcall Hw1 Ha Hb Hc Hd Hw2 Hp) as (m & Hm & Hg1 & Hg2).
  unfold parseWsprMessage. rewrite Hm, Hg1, Hg2. reflexivity.
Qed.

Lemma parseWsprMessage_updates_map_witness :
  parseWsprMessage (mk_parser None tt) (lit "G8AXA RR73 33") []
  = (inr tt,
     [UpdateLocation (lit "G8AXA") (LocatorLocation (lit "RR73"))
        (lit "WSPR") tt]).
Proof.
  apply (parseWsprMessage_updates_map (mk_parser None tt) (lit "G8AXA")
           (lit "3") 32 32 82 82 55 51 51 []); reflexivity.
Defined.

(** X18.  A payload whose first character is neither of a call sign nor a
    white space sends nothing to the map: the pattern is tried at the
    start of the payload only. *)
Theorem parseWsprMessage_is_anchored {Band : Type} (self : parser Band)
    (ch : N) (rest : str) (evs : list (event Band)) :
  upper_or_digit ch = false ->
  isspace ch = false ->
  parseWsprMessage self (ch :: rest) evs = (inr tt, evs).
Proof.
  intros Hc Hs. unfold parseWsprMessage, match_, wspr_splitter_pattern,
    star, once.
  cbn [run repetition]. rewrite Hc. cbn [andb Nat.leb].
  rewrite Hs. reflexivity.
Qed.

Lemma parseWsprMessage_is_anchored_witness :
  parseWsprMessage (mk_parser None tt) (lit "<G8AXA> JO01 33") []
  = (inr tt, []).
Proof.
  apply (parseWsprMessage_is_anchored (mk_parser None tt) 60
           (lit "G8AXA> JO01 33") []); reflexivity.
Defined.

(** *** The mode of a record *)

Lemma skipn_nth_error {A : Type} (n : nat) :
  forall (s : list A) (x : A),
    nth_error s n = Some x -> firstn 1 (skipn n s) = [x].
Proof.
  induction n as [|n IH]; intros [|y s] x H; try discriminate.
  - simpl in H. injection H as ->. reflexivity.
  - simpl in H. simpl skipn. apply IH. exact H.
Qed.

(** The one-character slice at the place of a character that [item]
    finds is that character. *)
Lemma slice_item (msg c : str) (k j : nat) :
  item msg (j + k) = Some c ->
  slice (slice_from msg k) j (S j) = c.
Proof.
  unfold item, slice, slice_from. intros H.
  destruct (nth_error msg (j + k)) as [x|] eqn:E; [|discriminate].
  injection H as <-.
  rewrite skipn_skipn.
  replace (S j - j)%nat with 1%nat by lia.
  apply skipn_nth_error. exact E.
Qed.

(** A marker has a mode. *)
Lemma marker_has_mode (c : str) :
  in_list c (keys modes) = true ->
  exists mode,
    get modes c = Some mode
    /\ In mode [lit "FT8"; lit "JT65"; lit "JT9"; lit "FT4"].
Proof.
  unfold in_list, keys, modes. cbn [map fst existsb get].
  destruct (str_eqb c (lit "~")); [eexists; split; [reflexivity | simpl; tauto]|].
  destruct (str_eqb c (lit "#")); [eexists; split; [reflexivity | simpl; tauto]|].
  destruct (str_eqb c (lit "@")); [eexists; split; [reflexivity | simpl; tauto]|].
  destruct (str_eqb c (lit "+")); [eexists; split; [reflexivity | simpl; tauto]|].
  discriminate.
Qed.

(** The mode of the record that [parse_from_jt9] returns: the character
    14 of the text after the time decides it. *)
Lemma parse_from_jt9_mode {Band : Type} (today : Z) (self : parser Band)
    (msg : str) (evs evs' : list (event Band)) (out : dict) :
  parse_from_jt9 today self msg evs = (inr out, evs') ->
  exists c19,
    item msg 19 = Some c19
    /\ In ("mode"%string,
           VStr match
                  get modes
                    (slice
                       (slice_from msg
                          (if in_list c19 (keys modes) then 5 else 7))
                       14 15)
                with
                | Some m => m
                | None => lit "unknown"
                end) out.
Proof.
  unfold parse_from_jt9. unfold bind at 1.
  destruct (item msg 19) as [c19|]; [|discriminate].
  cbn [or_raise ret]. cbv zeta.
  intros H. exists c19. split; [reflexivity|].
  revert H.
  destruct (in_list c19 (keys modes));
    cbn [String.length Nat.add];
    unfold bind at 1;
    match goal with
    | |- context [parse_timestamp ?t ?s ?f ?evs] =>
        destruct (parse_timestamp_cases t s f evs) as [E | (ts & E)];
          rewrite E; clear E; [discriminate|]
    end;
    unfold bind at 1;
    match goal with
    | |- context [parseLocator ?s ?m ?md ?evs] =>
        destruct (parseLocator_cases s m md evs) as (updates & E & Hu);
          rewrite E; clear E
    end;
    do 3 (unfold bind at 1; step_or_raise; [discriminate|]);
    unfold ret; intros H;
    assert (Hout : forall (x y : dict) (e1 e2 : list (event Band)),
              (inr x : exn + dict, e1) = (inr y, e2) -> x = y)
      by (intros; congruence);
    apply Hout in H; rewrite <- H; simpl; tauto.
Qed.

Lemma parse_from_jt9_known_mode {Band : Type} (today : Z)
    (self : parser Band) (msg c21 : str) (evs evs' : list (event Band))
    (out : dict) :
  item msg 21 = Some c21 ->
  in_list c21 (keys modes) = true
  \/ (exists c19, item msg 19 = Some c19 /\ in_list c19 (keys modes) = true) ->
  parse_from_jt9 today self msg evs = (inr out, evs') ->
  exists mode,
    In ("mode"%string, VStr mode) out
    /\ In mode [lit "FT8"; lit "JT65"; lit "JT9"; lit "FT4"; lit "WSPR"].
Proof.
  intros H21 Hmarked Hout.
  destruct (parse_from_jt9_mode today self msg evs evs' out Hout)
    as (c19 & H19 & Hmode).
  assert (Hknown : exists c,
            slice (slice_from msg (if in_list c19 (keys modes) then 5 else 7))
              14 15 = c
            /\ in_list c (keys modes) = true).
  { destruct (in_list c19 (keys modes)) eqn:E19.
    - exists c19. split; [|exact E19].
      apply slice_item. exact H19.
    - exists c21. split; [apply slice_item; exact H21|].
      destruct Hmarked as [H | (c & Hc & H)]; [exact H|].
      congruence. }
  destruct Hknown as (c & Hc & Hin). rewrite Hc in Hmode.
  destruct (marker_has_mode c Hin) as (mode & Hget & Hm).
  rewrite Hget in Hmode. exists mode. split; [exact Hmode|].
  simpl in Hm |- *. tauto.
Qed.

Lemma parse_from_wsprd_mode {Band : Type} (today : Z) (self : parser Band)
    (msg : str) (evs evs' : list (event Band)) (out : dict) :
  parse_from_wsprd today self msg evs = (inr out, evs') ->
  In ("mode"%string, VStr (lit "WSPR")) out.
Proof.
  unfold parse_from_wsprd. cbv zeta. unfold bind at 1.
  match goal with
  | |- context [parseWsprMessage ?s ?m ?evs] =>
      destruct (parseWsprMessage_cases s m evs) as (updates & E & Hu);
        rewrite E; clear E
  end.
  unfold bind at 1.
  match goal with
  | |- context [parse_timestamp ?t ?s ?f ?evs] =>
      destruct (parse_timestamp_cases t s f evs) as [E | (ts & E)];
        rewrite E; clear E; [discriminate|]
  end.
  do 4 (unfold bind at 1; step_or_raise; [discriminate|]).
  unfold ret. intros H.
  assert (Hout : forall (x y : dict) (e1 e2 : list (event Band)),
            (inr x : exn + dict, e1) = (inr y, e2) -> x = y)
    by (intros; congruence).
  apply Hout in H. rewrite <- H. simpl. tauto.
Qed.

Lemma written_last {Band : Type} (self : parser Band)
    (updates : list (event Band)) (out out' : dict) :
  at_most_one_update self updates ->
  In (WriteWsjtMessage out) (updates ++ [WriteWsjtMessage out']) ->
  out = out'.
Proof.
  intros [-> | (cs & loc & mode & ->)] Hin; simpl in Hin;
    repeat match goal with
           | H : _ \/ _ |- _ => destruct H as [H | H]
           | H : False |- _ => contradiction
           end;
    congruence.
Qed.

Lemma new_events {Band : Type} {A : Type} (r r' : exn + A)
    (evs new new' : list (event Band)) :
  (r, evs ++ new) = (r', evs ++ new') -> new = new'.
Proof.
  intros H. apply (app_inv_head evs). congruence.
Qed.

(** X19.  A record that [parse] hands to the handler never has the mode
    "unknown": the mode of a record of a jt9 line is that of the marker
    that made [parse] take the line for one, and the mode of a record of
    a wsprd line is WSPR. *)
Theorem parse_mode_is_known {Band : Type} (today : Z) (self : parser Band)
    (data : list byte) (evs new : list (event Band)) (out : dict)
    (r : exn + unit) :
  parse today self data evs = (r, evs ++ new) ->
  In (WriteWsjtMessage out) new ->
  exists mode,
    In ("mode"%string, VStr mode) out
    /\ In mode [lit "FT8"; lit "JT65"; lit "JT9"; lit "FT4"; lit "WSPR"].
Proof.
  assert (Hnone : forall r0 : exn + unit,
            (r0, evs) = (r, evs ++ new) -> In (WriteWsjtMessage out) new ->
            exists mode,
              In ("mode"%string, VStr mode) out
              /\ In mode [lit "FT8"; lit "JT65"; lit "JT9"; lit "FT4";
                          lit "WSPR"]).
  { intros r0 H Hin. rewrite <- (app_nil_r evs) in H at 1.
    apply new_events in H. subst new. contradiction. }
  assert (Hlog : forall (r0 : exn + unit) updates,
            at_most_one_update self updates ->
            (r0, (evs ++ updates)
                   ++ [LogException "error while parsing wsjt message"])
            = (r, evs ++ new) ->
            In (WriteWsjtMessage out) new ->
            exists mode,
              In ("mode"%string, VStr mode) out
              /\ In mode [lit "FT8"; lit "JT65"; lit "JT9"; lit "FT4";
                          lit "WSPR"]).
  { intros r0 updates Hu H Hin. rewrite <- app_assoc in H.
    apply new_events in H. subst new. exfalso.
    destruct Hu as [-> | (cs & loc & mode & ->)]; simpl in Hin;
      repeat match goal with
             | H : _ \/ _ |- _ => destruct H as [H | H]
             | H : False |- _ => contradiction
             end; discriminate. }
  unfold parse, except_ValueError. unfold bind at 1.
  step_or_raise.
  { unfold emit. rewrite <- (app_nil_r evs) at 1.
    apply (Hlog (inr tt) []). left. reflexivity. }
  cbv zeta.
  destruct (startswith (rstrip a) (lit "<DecodeFinished>"));
    [apply Hnone|].
  destruct (startswith (rstrip a) (lit " EOF on input file"));
    [apply Hnone|].
  unfold bind at 1.
  destruct (item (rstrip a) 21) as [c21|] eqn:H21; [|apply Hnone].
  cbn [or_raise ret].
  assert (Hjt9 :
            in_list c21 (keys modes) = true
            \/ (exists c19, item (rstrip a) 19 = Some c19
                            /\ in_list c19 (keys modes) = true) ->
            match
              match parse_from_jt9 today self (rstrip a) evs with
              | (inr out, evs') => emit (WriteWsjtMessage out) evs'
              | (inl e, evs') => (inl e, evs')
              end
            with
            | (inl ValueError, evs') =>
                emit (LogException "error while parsing wsjt message") evs'
            | r => r
            end = (r, evs ++ new) ->
            In (WriteWsjtMessage out) new ->
            exists mode,
              In ("mode"%string, VStr mode) out
              /\ In mode [lit "FT8"; lit "JT65"; lit "JT9"; lit "FT4";
                          lit "WSPR"]).
  { intros Hmarked.
    destruct (parse_from_jt9_cases today self (rstrip a) evs)
      as (r0 & updates & E & Hu & [(-> & ->) | [-> | (out' & -> & _)]]);
      rewrite E.
    - rewrite app_nil_r. apply Hnone.
    - unfold emit. apply Hlog, Hu.
    - unfold emit. intros H Hin. rewrite <- app_assoc in H.
      apply new_events in H. subst new.
      apply (written_last self) in Hin; [|exact Hu]. subst out'.
      exact (parse_from_jt9_known_mode today self (rstrip a) c21 evs _ out
               H21 Hmarked E). }
  assert (Hwsprd :
            match
              match parse_from_wsprd today self (rstrip a) evs with
              | (inr out, evs') => emit (WriteWsjtMessage out) evs'
              | (inl e, evs') => (inl e, evs')
              end
            with
            | (inl ValueError, evs') =>
                emit (LogException "error while parsing wsjt message") evs'
            | r => r
            end = (r, evs ++ new) ->
            In (WriteWsjtMessage out) new ->
            exists mode,
              In ("mode"%string, VStr mode) out
              /\ In mode [lit "FT8"; lit "JT65"; lit "JT9"; lit "FT4";
                          lit "WSPR"]).
  { destruct (parse_from_wsprd_cases today self (rstrip a) evs)
      as (r0 & updates & E & Hu & [-> | (out' & -> & _)]);
      rewrite E.
    - unfold emit. apply Hlog, Hu.
    - unfold emit. intros H Hin. rewrite <- app_assoc in H.
      apply new_events in H. subst new.
      apply (written_last self) in Hin; [|exact Hu]. subst out'.
      exists (lit "WSPR"). split.
      + exact (parse_from_wsprd_mode today self (rstrip a) evs _ out E).
      + simpl. tauto. }
  unfold bind at 1.
  destruct (in_list c21 (keys modes)) eqn:E21.
  - apply Hjt9. left. reflexivity.
  - unfold bind at 1.
    destruct (item (rstrip a) 19) as [c19|] eqn:H19; [|apply Hnone].
    cbn [or_raise ret].
    destruct (in_list c19 (keys modes)) eqn:E19.
    + apply Hjt9. right. exists c19. split; [reflexivity | exact E19].
    + exact Hwsprd.
Qed.

Lemma parse_mode_is_known_witness :
  exists mode,
    In ("mode"%string, VStr mode)
      [ ("timestamp"%string, VInt 180000);
        ("db"%string, VFloat (Finite (-4)));
        ("dt"%string, VFloat (Finite (2 # 5)));
        ("freq"%string, VInt 1762);
        ("mode"%string, VStr (lit "JT65"));
        ("msg"%string, VStr (lit "CQ R2ABM KO85")) ]
    /\ In mode [lit "FT8"; lit "JT65"; lit "JT9"; lit "FT4"; lit "WSPR"].
Proof.
  apply (parse_mode_is_known (Band := unit) 0 (mk_parser None tt)
           (list_byte_of_string "0003  -4  0.4 1762 #  CQ R2ABM KO85")
           []
           [ UpdateLocation (lit "R2ABM") (LocatorLocation (lit "KO85"))
               (lit "JT65") tt;
             WriteWsjtMessage
               [ ("timestamp"%string, VInt 180000);
                 ("db"%string, VFloat (Finite (-4)));
                 ("dt"%string, VFloat (Finite (2 # 5)));
                 ("freq"%string, VInt 1762);
                 ("mode"%string, VStr (lit "JT65"));
                 ("msg"%string, VStr (lit "CQ R2ABM KO85")) ] ]
           _ (inr tt)).
  - vm_compute. reflexivity.
  - right. left. reflexivity.
Defined.

(** *** Lines that are too short *)

Lemma item_none (s : str) (i : nat) :
  item s i = None <-> (List.length s <= i)%nat.
Proof.
  unfold item. rewrite <- nth_error_None.
  destruct (nth_error s i); split; intros H; congruence.
Qed.

Lemma parse_from_jt9_IndexError {Band : Type} (today : Z)
    (self : parser Band) (msg : str) (evs evs' : list (event Band)) :
  parse_from_jt9 today self msg evs = (inl IndexError, evs') ->
  item msg 19 = None.
Proof.
  unfold parse_from_jt9. unfold bind at 1.
  destruct (item msg 19) as [c19|]; [|reflexivity].
  cbn [or_raise ret]. cbv zeta.
  unfold bind at 1.
  match goal with
  | |- context [parse_timestamp ?t ?s ?f ?evs] =>
      destruct (parse_timestamp_cases t s f evs) as [E | (ts & E)];
        rewrite E; clear E; [discriminate|]
  end.
  unfold bind at 1.
  match goal with
  | |- context [parseLocator ?s ?m ?md ?evs] =>
      destruct (parseLocator_cases s m md evs) as (updates & E & Hu);
        rewrite E; clear E
  end.
  do 3 (unfold bind at 1; step_or_raise; [discriminate|]).
  discriminate.
Qed.

(** X20.  [parse] raises [IndexError] for exactly the lines that are valid
    UTF-8, are not one of the two known debug messages and whose text,
    once stripped on the right, has fewer than 22 characters. *)
Theorem parse_raises_iff_short {Band : Type} (today : Z)
    (self : parser Band) (data : list byte) (evs : list (event Band)) :
  fst (parse today self data evs) = inl IndexError
  <-> exists msg : str,
        decode data = Some msg
        /\ (List.length (rstrip msg) <= 21)%nat
        /\ startswith (rstrip msg) (lit "<DecodeFinished>") = false
        /\ startswith (rstrip msg) (lit " EOF on input file") = false.
Proof.
  split.
  - unfold parse, except_ValueError. unfold bind at 1.
    destruct (decode data) as [msg|]; [|discriminate].
    cbn [or_raise ret]. cbv zeta.
    destruct (startswith (rstrip msg) (lit "<DecodeFinished>")) eqn:Hd;
      [discriminate|].
    destruct (startswith (rstrip msg) (lit " EOF on input file")) eqn:He;
      [discriminate|].
    intros H. exists msg. split; [reflexivity|].
    split; [|split; [exact Hd | exact He]].
    revert H. unfold bind at 1.
    destruct (item (rstrip msg) 21) as [c21|] eqn:H21;
      [|intros _; apply item_none; exact H21].
    cbn [or_raise ret].
    assert (Hjt9 :
              fst
                match
                  match parse_from_jt9 today self (rstrip msg) evs with
                  | (inr out, evs') => emit (WriteWsjtMessage out) evs'
                  | (inl e, evs') => (inl e, evs')
                  end
                with
                | (inl ValueError, evs') =>
                    emit (LogException "error while parsing wsjt message") evs'
                | r => r
                end = inl IndexError ->
              (List.length (rstrip msg) <= 21)%nat).
    { destruct (parse_from_jt9 today self (rstrip msg) evs)
        as [[[|]|out] evs'] eqn:E; try discriminate.
      intros _. apply parse_from_jt9_IndexError in E.
      apply item_none in E. lia. }
    assert (Hwsprd :
              fst
                match
                  match parse_from_wsprd today self (rstrip msg) evs with
                  | (inr out, evs') => emit (WriteWsjtMessage out) evs'
                  | (inl e, evs') => (inl e, evs')
                  end
                with
                | (inl ValueError, evs') =>
                    emit (LogException "error while parsing wsjt message") evs'
                | r => r
                end = inl IndexError ->
              (List.length (rstrip msg) <= 21)%nat).
    { destruct (parse_from_wsprd_cases today self (rstrip msg) evs)
        as (r0 & updates & E & _ & [-> | (out' & -> & _)]);
        rewrite E; discriminate. }
    unfold bind at 1.
    destruct (in_list c21 (keys modes)); [exact Hjt9|].
    unfold bind at 1.
    destruct (item (rstrip msg) 19) as [c19|] eqn:H19.
    + cbn [or_raise ret].
      destruct (in_list c19 (keys modes)); [exact Hjt9 | exact Hwsprd].
    + intros _. apply item_none in H19. lia.
  - intros (msg & Hdec & Hlen & Hd & He).
    rewrite (parse_short_line_raises today self data msg evs Hdec Hlen Hd He).
    reflexivity.
Qed.

End ParserRestFacts.
